(** * iSanXoT-dbscripts: the protein report builder of [src/db.py]

    A shallow embedding of class [creator]: the isoform expansion, the
    cross-reference normalisation, the KEGG cache and the isoform-keyed
    outer join of [_create_qreport], followed by the properties of the
    report that the specification states.

    Conventions of the embedding.
    - A Python [str] is a [string]; a character stands for a code point
      below 256, and the classes [\s], [\d] and [\w] are Python's,
      restricted to that range.
    - A Python exception that leaves a function is the result [None];
      [try]/[except] blocks are written out where the source has them.
    - A pandas cell is a [cell]; [np.nan] is [NaN].  A number stays the
      integer it is: that pandas stores the numbers of a column with
      missing values as floats is not modelled.
    - The KEGG cache directory and the network are explicit: a [world]
      holds the files and the log of fetches, and the network is a
      function giving the answer to the n-th request.  A file holds the
      text that [read()] returns; the texts of this program have no
      carriage return (they come from handles in text mode), so a text
      that was written is read back as it is.  Reading and writing a
      file of the cache directory do not fail. *)

From Stdlib Require Import ZArith Lia Bool Ascii DecimalString.
From Stdlib Require String.
From stdpp Require Import base option list sorting gmap strings.

Local Open Scope char_scope.
Local Open Scope stdpp_scope.

(** ** Python strings *)

Module Py.

(** *** Character classes of [re] and [str] *)

Definition code (c : ascii) : N := N_of_ascii c.

Definition between (lo hi : N) (c : ascii) : bool :=
  ((lo <=? code c) && (code c <=? hi))%N.

(** [\s] and [str.isspace]. *)
Definition is_space (c : ascii) : bool :=
  between 9 13 c || between 28 32 c || between 133 133 c || between 160 160 c.

(** [\d]. *)
Definition is_digit (c : ascii) : bool := between 48 57 c.

(** [\w]. *)
Definition is_word (c : ascii) : bool :=
  is_digit c || between 65 90 c || between 97 122 c || between 95 95 c
  || between 170 170 c || between 178 179 c || between 181 181 c
  || between 185 186 c || between 188 190 c || between 192 214 c
  || between 216 246 c || between 248 255 c.

(** Case folding of the letters a pattern of this program contains. *)
Definition lower (c : ascii) : ascii :=
  if between 65 90 c then ascii_of_N (code c + 32) else c.

Definition ceq (a b : ascii) : bool := Ascii.eqb a b.
Definition ci_eq (a b : ascii) : bool := Ascii.eqb (lower a) (lower b).

Definition newline : ascii := "010".

(** *** [str] methods *)

Definition str_eq (a b : string) : bool := String.eqb a b.

Definition is_empty (s : string) : bool :=
  match s with EmptyString => true | _ => false end.

(** [s.startswith(p)]. *)
Definition startswith (p s : string) : bool := String.prefix p s.

(** The same test, ignoring the case of letters ([re.I]). *)
Fixpoint ci_prefix (p s : string) : bool :=
  match p, s with
  | EmptyString, _ => true
  | String a p', String b s' => ci_eq a b && ci_prefix p' s'
  | String _ _, EmptyString => false
  end.

(** [sub in s]. *)
Fixpoint contains (sub s : string) : bool :=
  startswith sub s ||
  match s with
  | EmptyString => false
  | String _ s' => contains sub s'
  end.

(** [s.replace(a, b)] for one-character [a] and [b]. *)
Fixpoint replace_char (a b : ascii) (s : string) : string :=
  match s with
  | EmptyString => EmptyString
  | String c s' => String (if ceq c a then b else c) (replace_char a b s')
  end.

(** [s.replace(old, '')] for a non-empty [old]: the occurrences are
    removed from left to right; [skip] counts the characters of the
    occurrence being removed that are still ahead. *)
Fixpoint remove_go (old : string) (skip : nat) (s : string) : string :=
  match s with
  | EmptyString => EmptyString
  | String c s' =>
      match skip with
      | S k => remove_go old k s'
      | O => if startswith old s
             then remove_go old (String.length old - 1) s'
             else String c (remove_go old 0 s')
      end
  end.

Definition remove (old s : string) : string := remove_go old 0 s.

(** [s.split(sep)] for a one-character [sep]. *)
Fixpoint split (sep : ascii) (s : string) : list string :=
  match s with
  | EmptyString => [EmptyString]
  | String c s' =>
      if ceq c sep then EmptyString :: split sep s'
      else match split sep s' with
           | [] => [String c EmptyString]
           | h :: t => String c h :: t
           end
  end.

(** [sep.join(l)]. *)
Fixpoint join (sep : string) (l : list string) : string :=
  match l with
  | [] => EmptyString
  | [x] => x
  | x :: rest => x +:+ sep +:+ join sep rest
  end.

Fixpoint take_while (p : ascii -> bool) (s : string) : string :=
  match s with
  | EmptyString => EmptyString
  | String c s' => if p c then String c (take_while p s') else EmptyString
  end.

Fixpoint drop_while (p : ascii -> bool) (s : string) : string :=
  match s with
  | EmptyString => EmptyString
  | String c s' => if p c then drop_while p s' else s
  end.

Fixpoint all_chars (p : ascii -> bool) (s : string) : bool :=
  match s with
  | EmptyString => true
  | String c s' => p c && all_chars p s'
  end.

Definition lstrip (s : string) : string := drop_while is_space s.

Fixpoint rstrip (s : string) : string :=
  match s with
  | EmptyString => EmptyString
  | String c s' =>
      if all_chars is_space s then EmptyString else String c (rstrip s')
  end.

Definition strip (s : string) : string := rstrip (lstrip s).

(** [str(n)] for an [int]. *)
Definition str_of_int (n : Z) : string := NilZero.string_of_int (Z.to_int n).

End Py.

(** ** The regular expressions of the program

    Each pattern the source hands to [re] is written as the function it
    denotes: the leftmost match is sought from left to right, and a
    greedy repetition takes the longest run that lets the rest match. *)

Module Re.
Import Py.

(** What [.*$] leaves unmatched at the head of [s]: nothing when no
    newline follows, the newline when the only one is the last
    character of [s]; [None] when the pattern does not match. *)
Fixpoint line_end (s : string) : option string :=
  match s with
  | EmptyString => Some EmptyString
  | String c s' =>
      if ceq c newline
      then (if is_empty s' then Some (String newline EmptyString) else None)
      else line_end s'
  end.

(** [\d+$] at the head of [s]: what stays after the digits. *)
Definition digits_end (s : string) : option string :=
  if is_empty (take_while is_digit s) then None
  else match drop_while is_digit s with
       | EmptyString => Some EmptyString
       | String c EmptyString =>
           if ceq c newline then Some (String c EmptyString) else None
       | _ => None
       end.

(** [re.sub(r'\.\d+$', '', s)]: the version suffix of an identifier. *)
Fixpoint strip_version (s : string) : string :=
  match s with
  | EmptyString => EmptyString
  | String c s' =>
      match (if ceq c "." then digits_end s' else None) with
      | Some keep => keep
      | None => String c (strip_version s')
      end
  end.

(** [\s+.*$] at the head of [s]. *)
Definition annotation_end (s : string) : option string :=
  if is_empty (take_while is_space s) then None
  else line_end (drop_while is_space s).

(** [re.sub(r'\.\s+.*$', '', s)]: the isoform annotation that follows
    the last identifier of a tuple. *)
Fixpoint strip_annotation (s : string) : string :=
  match s with
  | EmptyString => EmptyString
  | String c s' =>
      match (if ceq c "." then annotation_end s' else None) with
      | Some keep => keep
      | None => String c (strip_annotation s')
      end
  end.

(** Whether a closing bracket occurs in [s]. *)
Definition has_close (s : string) : bool :=
  negb (all_chars (fun c => negb (ceq c "]")) s).

(** [re.findall] of a bracketed group, [\[ ( [^\]]* ) \]], in [s]: [cur] is the content read since
    the bracket that is open, if one is. *)
Fixpoint findall_go (cur : option string) (s : string) : list string :=
  match s with
  | EmptyString => []
  | String c s' =>
      match cur with
      | Some acc =>
          if ceq c "]" then acc :: findall_go None s'
          else findall_go (Some (acc +:+ String c EmptyString)) s'
      | None =>
          if ceq c "[" && has_close s' then findall_go (Some EmptyString) s'
          else findall_go None s'
      end
  end.

Definition findall_brackets (s : string) : list string := findall_go None s.

(** [re.match(r'[^,]*', s)[0]]. *)
Definition upto_comma (s : string) : string :=
  take_while (fun c => negb (ceq c ",")) s.

(** [re.split(r'\s*;\s*', s)]: a separator is a [;] with the white
    space on both of its sides. *)
Fixpoint strip_inner (l : list string) : list string :=
  match l with
  | [] => []
  | [x] => [lstrip x]
  | x :: rest => strip x :: strip_inner rest
  end.

Definition split_semicolons (s : string) : list string :=
  match split ";" s with
  | [] => [s]
  | [x] => [x]
  | x :: rest => rstrip x :: strip_inner rest
  end.

(** [re.sub(r'\;$', '', s)]. *)
Fixpoint strip_last_semicolon (s : string) : string :=
  match s with
  | EmptyString => EmptyString
  | String c s' =>
      if ceq c ";" && (is_empty s' || str_eq s' (String newline EmptyString))
      then s'
      else String c (strip_last_semicolon s')
  end.

(** [re.sub('\:.*$', '', s)]: the subfamily part of a PANTHER id. *)
Fixpoint strip_subfamily (s : string) : string :=
  match s with
  | EmptyString => EmptyString
  | String c s' =>
      match (if ceq c ":" then line_end s' else None) with
      | Some keep => keep
      | None => String c (strip_subfamily s')
      end
  end.

(** [\s*\[[^\]]*\]\s*$] at the head of [s]. *)
Definition qualifier_here (s : string) : bool :=
  match drop_while is_space s with
  | String c s' =>
      ceq c "[" && has_close s' &&
      match drop_while (fun c => negb (ceq c "]")) s' with
      | String _ rest => all_chars is_space rest
      | EmptyString => false
      end
  | EmptyString => false
  end.

(** [re.sub(r'\s*\[[^\]]*\]\s*$', '', s)]. *)
Fixpoint strip_qualifier (s : string) : string :=
  match s with
  | EmptyString => EmptyString
  | String c s' =>
      if qualifier_here s then EmptyString else String c (strip_qualifier s')
  end.

(** [\s*\.\s*$] at the head of [s]. *)
Definition period_here (s : string) : bool :=
  match drop_while is_space s with
  | String c rest => ceq c "." && all_chars is_space rest
  | EmptyString => false
  end.

(** [re.sub(r'\s*\.\s*$', '', s)]. *)
Fixpoint strip_period (s : string) : string :=
  match s with
  | EmptyString => EmptyString
  | String c s' =>
      if period_here s then EmptyString else String c (strip_period s')
  end.

End Re.

(** ** Records, cells and tables *)

(** A cross-reference of a record: the name of the database and the
    fields that follow it in the tuple. *)
Record xref := Xref { xdb : string; xfields : list string }.

(** The fields of a [SwissProt] record that the report reads. *)
Record record := Record_ {
  entry_name : string;
  accessions : list string;
  gene_name : string;
  description : string;
  organism : string;
  data_class : string;
  comments : list string;
  cross_references : list xref
}.

(** An entry of [db_fasta_seqio]: the header line and the length of the
    sequence. *)
Record fasta_entry := Fasta { comm : string; len : Z }.

(** An object of the CORUM file: the values of the three keys that are
    read, [None] for a key that the object lacks.  The identifier is a
    number and the subunits are one [;]-delimited string, as the file
    has them. *)
Record complex := Complex {
  ComplexID : option Z;
  ComplexName : option string;
  subunits : option string
}.

(** The value in a cell of a data frame. *)
#[warnings="-register-all"] Inductive cell :=
  | NaN
  | Str (s : string)
  | Int (n : Z)
  | Lst (l : list cell).

Definition is_nan (c : cell) : bool :=
  match c with NaN => true | _ => false end.

Definition is_str (c : cell) : bool :=
  match c with Str _ => true | _ => false end.

(** [pd.DataFrame(columns=..., data=...)]: the rows are kept as given. *)
Record table := Table { tcols : list string; trows : list (list cell) }.

(** A data frame after [set_index(XID)]: every row carries its label. *)
Record frame := Frame { fcols : list string; frows : list (string * list cell) }.

(** ** The constants of class [creator] *)

Definition XID : string := "Protein".

Definition META : list string :=
  ["xref_UniProt_Name"; "Protein"; "Gene"; "Species"; "Length";
   "Description"; "Comment_Line"; "prot_UniProt_Class"].

Definition XTERMS : list (string * list string) :=
  [("Ensembl", ["xref_Ensembl_protId"; "xref_Ensembl_transcId";
                "xref_Ensembl_GeneId"; "Protein"]);
   ("RefSeq", ["xref_RefSeq_protId"; "xref_RefSeq_transcId"; "Protein"]);
   ("CCDS", ["xref_CCDS"; "Protein"])].

Definition CTERMS : list (string * list (string * string)) :=
  [("GO", [("cat_GO_C", "C"); ("cat_GO_F", "F"); ("cat_GO_P", "P")]);
   ("KEGG", [("cat_KEGG", "")]);
   ("PANTHER", [("cat_PANTHER", "")]);
   ("Reactome", [("cat_Reactome", "")]);
   ("CORUM", [("cat_CORUM", "")])].

Definition HEADERS : list string :=
  META ++ (i ← XTERMS; removelast i.2) ++ (i ← CTERMS; h ← i.2; [h.1]).

(** ** The record parser: the scalar fields of [_create_qreport] *)

Module Parser.
Import Py.

(** What follows [p] at the head of [s], the case of letters ignored. *)
Fixpoint ci_after (p s : string) : option string :=
  match p, s with
  | EmptyString, _ => Some s
  | String a p', String b s' => if ci_eq a b then ci_after p' s' else None
  | String _ _, EmptyString => None
  end.

Definition one_of (set : string) (c : ascii) : bool :=
  negb (all_chars (fun x => negb (ceq x c)) set).

(** The gene symbol: the first [Name=] of the gene line, read up to
    white space, a bar or a semicolon. *)
Fixpoint search_gene (s : string) : option string :=
  match ci_after "Name=" s with
  | Some rest => Some (take_while (fun c => negb (is_space c || one_of "|;" c)) rest)
  | None => match s with
            | EmptyString => None
            | String _ s' => search_gene s'
            end
  end.

(** The description: one character of the class [RecName|SubName], then
    [: Full=], read up to a semicolon, a bar or a brace. *)
Fixpoint search_full (s : string) : option string :=
  match s with
  | EmptyString => None
  | String c s' =>
      match (if one_of "recnam|sub" (lower c) then ci_after ": Full=" s' else None) with
      | Some rest => Some (take_while (fun c => negb (one_of ";|{" c)) rest)
      | None => search_full s'
      end
  end.

Definition species_char (c : ascii) : bool :=
  is_word c || ceq c "|" || is_space c.

Fixpoint last_char (s : string) : option ascii :=
  match s with
  | EmptyString => None
  | String c EmptyString => Some c
  | String _ s' => last_char s'
  end.

Fixpoint drop_last (s : string) : string :=
  match s with
  | EmptyString => EmptyString
  | String _ EmptyString => EmptyString
  | String c s' => String c (drop_last s')
  end.

(** The species pattern at the head of [s]: a run of word characters,
    bars and white space that ends in white space, then a word in
    parentheses; the group is the run without its last character. *)
Definition species_here (s : string) : option string :=
  let run := take_while species_char s in
  match last_char run, drop_while species_char s with
  | Some w, String o rest =>
      if is_space w && ceq o "(" &&
         match drop_while is_word rest with
         | String e _ => ceq e ")"
         | EmptyString => false
         end
      then Some (drop_last run) else None
  | _, _ => None
  end.

Fixpoint search_species (s : string) : option string :=
  match species_here s with
  | Some g => Some g
  | None => match s with
            | EmptyString => None
            | String _ s' => search_species s'
            end
  end.

Definition gene_of (r : record) : string :=
  default (gene_name r) (search_gene (gene_name r)).

Definition dsc_of (r : record) : string :=
  default (description r) (search_full (description r)).

Definition species_of (r : record) : string :=
  default (organism r) (search_species (organism r)).

End Parser.

(** ** The isoform expander *)

Module Isoforms.
Import Py Re.

(** The list of pairs [(IsoId=, Sequence=)]: every field that starts
    with [IsoId=] is paired with the field after it, [ap[i+1]]; the
    lookup fails when that field is the last one. *)
Fixpoint isoid_pairs (ap : list string) : option (list (string * string)) :=
  match ap with
  | [] => Some []
  | a :: rest =>
      if startswith "IsoId=" a then
        match rest with
        | [] => None
        | b :: _ =>
            x ← isoid_pairs rest;
            Some ((remove "IsoId=" a, remove "Sequence=" b) :: x)
        end
      else isoid_pairs rest
  end.

Definition first_ids (x : list (string * string)) : list (string * string) :=
  (fun y => (upto_comma y.1, upto_comma y.2)) <$> x.

Definition variant_ids (x : list (string * string)) : list string :=
  fst <$> filter (fun i => Is_true (startswith "VSP_" i.2)) x.

Definition displayed_ids (x : list (string * string)) : list string :=
  fst <$> filter (fun i => Is_true (startswith "Displayed" i.2)) x.

Definition altprod (r : record) : list string :=
  filter (fun c => Is_true (contains "ALTERNATIVE PRODUCTS:" c)) (comments r).

(** [IsoIds] and [IsoDisplayed] of a record whose accession is [acc]. *)
Definition isoforms (acc : string) (r : record) : option (list string * option string) :=
  match altprod r with
  | [] => Some ([acc], None)
  | c :: _ =>
      x ← isoid_pairs (split_semicolons c);
      let x := first_ids x in
      Some (acc :: variant_ids x, head (displayed_ids x))
  end.

(** The header line and the length of every isoform, from the FASTA
    side table; the empty string stands for an isoform it lacks. *)
Definition comms_of (fasta : gmap string fasta_entry) (ids : list string) : list cell :=
  (fun i => match fasta !! i with Some e => Str (comm e) | None => Str "" end) <$> ids.

Definition lengths_of (fasta : gmap string fasta_entry) (ids : list string) : list cell :=
  (fun i => match fasta !! i with Some e => Int (len e) | None => Str "" end) <$> ids.

End Isoforms.

(** ** Data frames: the pandas operations [_create_qreport] uses *)

Module Pandas.
Import Py.

(** The position of a column. *)
Fixpoint index_of (c : string) (cols : list string) : option nat :=
  match cols with
  | [] => None
  | x :: rest => if str_eq x c then Some 0 else S <$> index_of c rest
  end.

Definition member (c : string) (cols : list string) : bool :=
  existsb (str_eq c) cols.

(** [df[c].values]. *)
Definition column (t : table) (c : string) : option (list cell) :=
  i ← index_of c (tcols t);
  mapM (fun r : list cell => r !! i) (trows t).

(** [len] of the value of a cell, as [.str.len()] computes it. *)
Definition cell_len (c : cell) : option nat :=
  match c with
  | Lst l => Some (length l)
  | Str s => Some (String.length s)
  | _ => None
  end.

(** [str(x)] of a scalar. *)
Definition cell_str (c : cell) : cell :=
  match c with
  | Int n => Str (str_of_int n)
  | NaN => Str "nan"
  | _ => c
  end.

(** [np.array(l)]: numpy gives the array one type, so numbers next to
    a string become strings. *)
Definition np_array (l : list cell) : list cell :=
  if existsb is_str l then cell_str <$> l else l.

(** [np.concatenate] of the lists of a column. *)
Definition np_concatenate (vals : list cell) : option (list cell) :=
  parts ← mapM (fun c => match c with Lst l => Some l | _ => None end) vals;
  Some (np_array (concat parts)).

(** [np.repeat(values, lens)]. *)
Definition np_repeat (vals : list cell) (lens : list nat) : list cell :=
  concat (zip_with (fun v n => replicate n v) vals lens).

(** The rows of a frame built from one array per column, all of length
    [n]; an array of another length is a [ValueError]. *)
Definition rows_of_arrays (n : nat) (arrays : list (list cell)) : option (list (list cell)) :=
  if forallb (fun a => Nat.eqb (length a) n) arrays
  then mapM (fun j => mapM (fun a : list cell => a !! j) arrays) (seq 0 n)
  else None.

Definition fillna (v : cell) (row : list cell) : list cell :=
  (fun c => if is_nan c then v else c) <$> row.

(** [_explode(df, lst_cols, fill_value='')]: one row per element of
    the lists in [lst_cols]; the other columns are repeated. *)
Definition _explode (df : table) (lst_cols : list string) : option table :=
  c0 ← head lst_cols;
  vals0 ← column df c0;
  lens ← mapM cell_len vals0;
  arrays ← mapM (fun c =>
              vals ← column df c;
              if member c lst_cols then np_concatenate vals
              else Some (np_repeat vals lens)) (tcols df);
  rows ← rows_of_arrays (sum_list lens) arrays;
  if forallb (Nat.ltb 0) lens
  then Some (Table (tcols df) rows)
  else
    let empties := (fun rn : list cell * nat => rn.1) <$>
                     filter (fun rn : list cell * nat => rn.2 = 0) (zip (trows df) lens) in
    let blank := (fun row : list cell =>
                    zip_with (fun c v => if member c lst_cols then NaN else v)
                             (tcols df) row) <$> empties in
    Some (Table (tcols df) (fillna (Str "") <$> (rows ++ blank))).

(** [df.dropna(how='all').empty]. *)
Definition all_nan (row : list cell) : bool := forallb is_nan row.

Definition dropna_all (t : table) : table :=
  Table (tcols t) (filter (fun row => Is_true (negb (all_nan row))) (trows t)).

Definition empty (t : table) : bool :=
  match tcols t, trows t with
  | _ :: _, _ :: _ => false
  | _, _ => true
  end.

(** [df[c].dropna().empty] for one column. *)
Definition column_all_nan (t : table) (c : string) : option bool :=
  forallb is_nan <$> column t c.

(** [df[c] = values]: the column is replaced; the lengths must agree. *)
Definition assign (t : table) (c : string) (vals : list cell) : option table :=
  i ← index_of c (tcols t);
  if Nat.eqb (length vals) (length (trows t))
  then Some (Table (tcols t) (zip_with (fun row v => <[i := v]> row) (trows t) vals))
  else None.

(** [df.set_index(c)]: the column leaves the frame and labels the rows.
    The labels of this program are strings. *)
Definition label (c : cell) : option string :=
  match c with Str s => Some s | _ => None end.

Definition set_index (t : table) (c : string) : option frame :=
  i ← index_of c (tcols t);
  rows ← mapM (fun row : list cell => k ← row !! i ≫= label; Some (k, delete i row)) (trows t);
  Some (Frame (delete i (tcols t)) rows).

(** [pd.DataFrame(columns=cols, data=data)]: every row has one value
    per column. *)
Definition DataFrame (cols : list string) (data : list (list cell)) : option table :=
  if forallb (fun row => Nat.eqb (length row) (length cols)) data
  then Some (Table cols data) else None.

(** [pd.concat([a, b], axis=1)] of two frames with a range index: the
    shorter one is continued with missing values. *)
Definition pad (n width : nat) (rows : list (list cell)) : list (list cell) :=
  rows ++ replicate (n - length rows) (replicate width NaN).

Definition concat_columns (a b : table) : table :=
  let n := length (trows a) `max` length (trows b) in
  Table (tcols a ++ tcols b)
        (zip_with app (pad n (length (tcols a)) (trows a))
                      (pad n (length (tcols b)) (trows b))).

(** [df.ffill()]: a missing value takes the value above it. *)
Fixpoint ffill_go (prev : list cell) (rows : list (list cell)) : list (list cell) :=
  match rows with
  | [] => []
  | r :: rest =>
      let r' := zip_with (fun p c => if is_nan c then p else c) prev r in
      r' :: ffill_go r' rest
  end.

Definition ffill (t : table) : table :=
  Table (tcols t)
        match trows t with
        | [] => []
        | r :: rest => r :: ffill_go r rest
        end.

(** [left.join(right, how='outer')] on the index: two frames with the
    same index, free of repeated labels, keep it as it is; otherwise the
    labels of the result are the union of the labels of both frames in
    lexicographic order.  A label gives one row for every pair of a left
    and a right row that carry it, and a row without a partner is
    continued with missing values.  Two frames that share a column are a
    [ValueError].  A cell holds a number, not the way it is printed: the
    decimal point that a number column gets when a missing value joins
    it is outside this model. *)
Definition labels (f : frame) : list string := fst <$> frows f.

Definition rows_at (k : string) (f : frame) : list (list cell) :=
  snd <$> filter (fun r => r.1 = k) (frows f).

Definition nans (f : frame) : list cell := replicate (length (fcols f)) NaN.

Definition join_at (l r : frame) (k : string) : list (string * list cell) :=
  match rows_at k l, rows_at k r with
  | [], rs => (fun y => (k, nans l ++ y)) <$> rs
  | ls, [] => (fun x => (k, x ++ nans r)) <$> ls
  | ls, rs => x ← ls; y ← rs; [(k, x ++ y)]
  end.

Definition join_labels (l r : frame) : list string :=
  if bool_decide (labels l = labels r) && bool_decide (NoDup (labels l))
  then labels l
  else merge_sort String.le (remove_dups (labels l ++ labels r)).

Definition overlap (l r : frame) : bool :=
  existsb (fun c => member c (fcols r)) (fcols l).

Definition join_outer (l r : frame) : option frame :=
  if overlap l r then None
  else Some (Frame (fcols l ++ fcols r) (join_labels l r ≫= join_at l r)).

End Pandas.

(** ** The KEGG cache *)

(** The cache directory and the log of the requests sent to KEGG. *)
Record world := World { files : gmap string string; requests : list string }.

Module Kegg.
Import Py Re.

(** The part of a response from its first [PATHWAY], in any case of
    letters, to its end. *)
Fixpoint search_pathway (s : string) : option string :=
  if ci_prefix "PATHWAY" s then Some s
  else match s with
       | EmptyString => None
       | String _ s' => search_pathway s'
       end.

(** [re.sub('PATHWAY\s*', '', m)]: [skip] counts the letters of the
    word that are still ahead, [ws] tells that the white space after
    the word is being removed. *)
Fixpoint sub_pathway_go (skip : nat) (ws : bool) (s : string) : string :=
  match s with
  | EmptyString => EmptyString
  | String c s' =>
      match skip with
      | S k => sub_pathway_go k true s'
      | O =>
          if ws && is_space c then sub_pathway_go 0 true s'
          else if startswith "PATHWAY" s then sub_pathway_go 6 true s'
          else String c (sub_pathway_go 0 false s')
      end
  end.

Definition sub_pathway (m : string) : string := sub_pathway_go 0 false m.

(** [ms = re.split('\s+', m, 1)] and the entry [ms[0]>ms[1];]. *)
Definition entry (m : string) : string :=
  let no_space := fun c => negb (is_space c) in
  take_while no_space m +:+ ">" +:+ lstrip (drop_while no_space m) +:+ ";".

(** The loop over the lines of the block. *)
Fixpoint pathway_lines (lines : list string) (rc : string) : string :=
  match lines with
  | [] => rc
  | m :: rest =>
      if startswith "PATHWAY" m
      then pathway_lines rest (rc +:+ entry (strip (sub_pathway m)))
      else if startswith " " m
      then pathway_lines rest (rc +:+ entry (strip (lstrip m)))
      else rc
  end.

(** The text derived from a raw response. *)
Definition derive (record : string) : string :=
  if is_empty record then ""
  else match search_pathway record with
       | Some block => pathway_lines (split newline block) ""
       | None => ""
       end.

Section Cache.

(** The answer of KEGG to the n-th request of the run; [None] when
    [REST.kegg_get(id).read()] raises. *)
Variable net : nat -> string -> option string.
Variable cached_dir_kegg : string.

Definition cache_file (id ext : string) : string :=
  cached_dir_kegg +:+ "/" +:+ replace_char ":" "_" id +:+ ext.

Definition write (w : world) (path text : string) : world :=
  World (<[path := text]> (files w)) (requests w).

Definition kegg_get (w : world) (id : string) : world * option string :=
  (World (files w) (requests w ++ [id]), net (length (requests w)) id).

(** The lines after [if record:]: the text is derived and, when it is
    not empty, written to the derived-text file [of1]. *)
Definition derive_and_store (w : world) (of1 record : string) : world * option string :=
  let rc := derive record in
  if is_empty rc then (w, Some rc)
  else let rc := strip_last_semicolon rc in
       (write w of1 rc, Some rc).

(** The body of the [try] block for one identifier: the derived text,
    or [None] when an exception was caught. *)
Definition kegg_lookup (w : world) (id : string) : world * option string :=
  let of1 := cache_file id ".txt" in
  let of2 := cache_file id ".dat" in
  match files w !! of1 with
  | Some rc => (w, Some rc)
  | None =>
      match files w !! of2 with
      | Some record => derive_and_store w of1 record
      | None =>
          let '(w, answer) := kegg_get w id in
          match answer with
          | Some record => derive_and_store (write w of2 record) of1 record
          | None => (w, None)
          end
      end
  end.

(** The loop over the tuples: [id = rcont[0]] stands before the [try]. *)
Fixpoint kegg_values (w : world) (rconts : list (list string)) : world * option (list string) :=
  match rconts with
  | [] => (w, Some [])
  | rcont :: rest =>
      match head rcont with
      | None => (w, None)
      | Some id =>
          let '(w, rc) := kegg_lookup w id in
          let '(w, rcs) := kegg_values w rest in
          (w, (fun l => match rc with Some x => x :: l | None => l end) <$> rcs)
      end
  end.

End Cache.
End Kegg.

(** ** The cross-reference normaliser *)

Module Xrefs.
Import Py Re Pandas.

(** [rcross]: the tuples of the record, grouped by database, for the
    databases in [names]. *)
Definition rcross_of (names : list string) (refs : list xref) : gmap string (list (list string)) :=
  foldl (fun m r => <[xdb r := default [] (m !! xdb r) ++ [xfields r]]> m) ∅
        (filter (fun x => xdb x ∈ names) refs).

(** The isoform a tuple is attributed to: [acc] when the field has no
    bracket or when the bracket names the displayed isoform, the
    bracketed id otherwise. *)
Definition attribute (acc : string) (IsoDisplayed : option string) (field : string) : string :=
  match findall_brackets field with
  | [] => acc
  | y0 :: _ => if bool_decide (Some y0 = IsoDisplayed) then acc else y0
  end.

Definition ensembl_row (acc : string) (IsoDisplayed : option string) (rcont : list string) : option (list cell) :=
  xp ← rcont !! 1;
  xt ← rcont !! 0;
  last ← rcont !! 2;
  let i := attribute acc IsoDisplayed last in
  let xg := strip_annotation last in
  Some [Str (strip_version xp); Str (strip_version xt); Str (strip_version xg); Str i].

Definition refseq_row (acc : string) (IsoDisplayed : option string) (rcont : list string) : option (list cell) :=
  xp ← rcont !! 0;
  last ← rcont !! 1;
  let i := attribute acc IsoDisplayed last in
  let xt := strip_annotation last in
  Some [Str (strip_version xp); Str (strip_version xt); Str i].

Definition ccds_row (acc : string) (IsoDisplayed : option string) (rcont : list string) : option (list cell) :=
  xp ← rcont !! 0;
  last ← rcont !! 1;
  let i := attribute acc IsoDisplayed last in
  Some [Str xp; Str i].

(** [xvals] of a database that the record refers to. *)
Definition xref_rows (acc : string) (IsoDisplayed : option string) (xdb : string) (rconts : list (list string)) : option (list (list cell)) :=
  if str_eq xdb "Ensembl" then mapM (ensembl_row acc IsoDisplayed) rconts
  else if str_eq xdb "RefSeq" then mapM (refseq_row acc IsoDisplayed) rconts
  else if str_eq xdb "CCDS" then mapM (ccds_row acc IsoDisplayed) rconts
  else Some [].

(** [list(map(list, zip( *xvals)))] of one value per column. *)
Definition one_row (vals : list cell) : list (list cell) :=
  match vals with
  | [] => []
  | _ => [vals]
  end.

(** The partial table [df2] of one round of the loop over [XTERMS]:
    the rows of the tuples of the database, or one row of missing
    values when the record has no tuple of it. *)
Definition xterm_table (acc : string) (IsoDisplayed : option string) (rcross : gmap string (list (list string))) (terms : string * list string) : option table :=
  let xdb := terms.1 in
  let xcols := terms.2 in
  xvals ← match rcross !! xdb with
           | Some rconts => xref_rows acc IsoDisplayed xdb rconts
           | None => Some (one_row ((fun _ => NaN) <$> xcols))
           end;
  DataFrame xcols xvals.

(** One round of the loop over [XTERMS]: a table without any value is
    not joined. *)
Definition join_xterm (acc : string) (IsoIds : list string) (IsoDisplayed : option string) (rcross : gmap string (list (list string))) (df1 : frame) (terms : string * list string) : option frame :=
  df2 ← xterm_table acc IsoDisplayed rcross terms;
  if empty (dropna_all df2) then Some df1
  else
    unlabelled ← column_all_nan df2 XID;
    df2 ← (if unlabelled : bool then assign df2 XID (Str <$> IsoIds) else Some df2);
    df2 ← set_index df2 XID;
    join_outer df1 df2.

Fixpoint join_xterms (acc : string) (IsoIds : list string) (IsoDisplayed : option string) (rcross : gmap string (list (list string))) (df1 : frame) (terms : list (string * list string)) : option frame :=
  match terms with
  | [] => Some df1
  | t :: rest =>
      df1 ← join_xterm acc IsoIds IsoDisplayed rcross df1 t;
      join_xterms acc IsoIds IsoDisplayed rcross df1 rest
  end.

End Xrefs.

(** ** The category extractors *)

Module Cats.
Import Py Re Pandas Xrefs.

(** What an extractor returns: [(xcols, xvals)]. *)
Definition extracted : Type := list string * list (list cell).

(** The evidence codes that [_extract_cat_go] keeps. *)
Definition flts : list string :=
  ["EXP"; "IDA"; "IPI"; "IMP"; "IGI"; "IEP"; "HTP"; "HDA"; "HMP"; "HGI";
   "HEP"; "IBA"; "IBD"; "IKR"; "IRD"].

Definition before_colon (s : string) : string := default "" (head (split ":" s)).

(** One round of the first loop of [_extract_cat_go]. *)
Definition go_step (rcs : gmap string string) (rcont : list string) : option (gmap string string) :=
  term ← rcont !! 1;
  evidence ← rcont !! 2;
  let g := before_colon term in
  let c := before_colon evidence in
  if member c flts then
    id ← rcont !! 0;
    let s := id +:+ ">" +:+ replace_char ";" "," term +:+ "|" +:+ evidence in
    Some match rcs !! g with
         | Some old => <[g := old +:+ ";" +:+ s]> rcs
         | None => <[g := s]> rcs
         end
  else Some rcs.

Fixpoint go_groups (rcs : gmap string string) (rconts : list (list string)) : option (gmap string string) :=
  match rconts with
  | [] => Some rcs
  | rcont :: rest => rcs ← go_step rcs rcont; go_groups rcs rest
  end.

Definition _extract_cat_go (rconts : list (list string)) (xpats : list (string * string)) : option extracted :=
  rcs ← go_groups ∅ rconts;
  Some (fst <$> xpats,
        one_row ((fun xpat : string * string =>
                    match rcs !! xpat.2 with
                    | Some r => Str r
                    | None => NaN
                    end) <$> xpats)).

(** The value of a column that is filled from a list of entries. *)
Definition joined (rcs : list string) : cell :=
  match rcs with
  | [] => NaN
  | _ => Str (join ";" rcs)
  end.

(** The value of a column that is filled from one string. *)
Definition or_nan (rcs : string) : cell :=
  if is_empty rcs then NaN else Str rcs.

Definition _extract_cat_kegg (net : nat -> string -> option string) (cached_dir_kegg : string) (w : world) (rconts : list (list string)) (xpats : list (string * string)) : world * option extracted :=
  let step := fun (st : world * option (list cell)) (xpat : string * string) =>
    match st with
    | (w, Some vals) =>
        let '(w, rcs) := Kegg.kegg_values net cached_dir_kegg w rconts in
        (w, (fun l => vals ++ [joined l]) <$> rcs)
    | (w, None) => (w, None)
    end in
  let '(w, vals) := foldl step (w, Some []) xpats in
  (w, (fun v => (fst <$> xpats, one_row v)) <$> vals).

(** The PANTHER table: columns 3 and 4 of [panther_df]; [None] when
    the file was not loaded. *)
Definition panther_entry (df : option (list (cell * cell))) (rcont : list string) : option string :=
  id ← head rcont;
  rows ← df;
  mask ← mapM (fun row : cell * cell =>
                 match row.1 with
                 | Str s => Some (startswith id s)
                 | _ => None
                 end) rows;
  x ← head (fst <$> filter (fun rm : (cell * cell) * bool => Is_true rm.2) (zip rows mask));
  family ← label x.1;
  dsc ← label x.2;
  Some (strip_subfamily family +:+ ">" +:+ replace_char ";" "," dsc +:+ ";").

(** The [try] block of [_extract_cat_panther]: every tuple overwrites
    [rcs]; an exception in any of them empties it. *)
Definition panther_value (df : option (list (cell * cell))) (rconts : list (list string)) : string :=
  match mapM (panther_entry df) rconts with
  | Some entries => default "" (last entries)
  | None => ""
  end.

Definition _extract_cat_panther (df : option (list (cell * cell))) (rconts : list (list string)) (xpats : list (string * string)) (acc : string) : extracted :=
  (fst <$> xpats,
   one_row ((fun _ => let rcs := panther_value df rconts in
                      if is_empty rcs then NaN else Str (strip_last_semicolon rcs)) <$> xpats)).

Definition reactome_entry (rcont : list string) : option string :=
  id ← head rcont;
  let dsc := join "|" (tail rcont) in
  let dsc := strip_qualifier dsc in
  let dsc := strip_period dsc in
  let dsc := replace_char ";" "," dsc in
  Some (id +:+ ">" +:+ dsc).

Definition _extract_cat_reactome (rconts : list (list string)) (xpats : list (string * string)) : option extracted :=
  vals ← mapM (fun _ : string * string => joined <$> mapM reactome_entry rconts) xpats;
  Some (fst <$> xpats, one_row vals).

(** [acc in person['subunits(UniProt IDs)']], the test of the filter:
    the subunit string has [acc] in it; [None] when the object lacks
    the key and the lookup raises. *)
Definition corum_member (acc : string) (c : complex) : option bool :=
  contains acc <$> subunits c.

(** The entry of a complex; [None] for a complex that lacks
    [ComplexID] or [ComplexName], which the comprehension skips. *)
Definition corum_entry (c : complex) : option string :=
  id ← ComplexID c;
  name ← ComplexName c;
  Some (replace_char ";" "," ("compID_" +:+ str_of_int id +:+ ">" +:+ name)).

(** [rcs]: the filter reads the subunits of every object of a table
    that was loaded and is not empty. *)
Definition corum_value (datatxt : option (list complex)) (acc : string) : option string :=
  match datatxt with
  | Some ((_ :: _) as complexes) =>
      mask ← mapM (corum_member acc) complexes;
      let comps := fst <$> filter (fun cm : complex * bool => Is_true cm.2) (zip complexes mask) in
      Some (join ";" (omap corum_entry comps))
  | _ => Some ""
  end.

Definition _extract_cat_corum (datatxt : option (list complex)) (xpats : list (string * string)) (acc : string) : option extracted :=
  vals ← mapM (fun _ : string * string => or_nan <$> corum_value datatxt acc) xpats;
  Some (fst <$> xpats, one_row vals).

End Cats.

(** ** The report of one record *)

(** The attributes of a [creator] that [_create_qreport] reads. *)
Record creator := Creator {
  db_fasta_seqio : gmap string fasta_entry;
  cached_dir_kegg : string
}.

Module Report.
Import Py Pandas Isoforms Xrefs Cats.

Section Create.

Variable net : nat -> string -> option string.
Variable self : creator.

(** The base table [df1]: the meta data of the record, one row per
    isoform id, labelled with the isoform id. *)
Definition base_table (record : record) (IsoIds : list string) : option frame :=
  let name := entry_name record in
  let gene := Parser.gene_of record in
  let dsc := Parser.dsc_of record in
  let dclass := data_class record in
  let species := Parser.species_of record in
  let comms := comms_of (db_fasta_seqio self) IsoIds in
  let lengths := lengths_of (db_fasta_seqio self) IsoIds in
  df1 ← DataFrame META [[Str name; Lst (Str <$> IsoIds); Str gene; Str species;
                          Lst lengths; Str dsc; Lst comms; Str dclass]];
  df1 ← _explode df1 ["Protein"; "Length"; "Comment_Line"];
  set_index df1 XID.

(** The dispatch on the name of the category. *)
Definition extract (w : world) (xdb : string) (xpats : list (string * string)) (rconts : list (list string)) (acc : string) (corum_json : option (list complex)) (panther_df : option (list (cell * cell))) : world * option extracted :=
  if str_eq xdb "GO" then (w, _extract_cat_go rconts xpats)
  else if str_eq xdb "KEGG" then _extract_cat_kegg net (cached_dir_kegg self) w rconts xpats
  else if str_eq xdb "PANTHER" then (w, Some (_extract_cat_panther panther_df rconts xpats acc))
  else if str_eq xdb "Reactome" then (w, _extract_cat_reactome rconts xpats)
  else if str_eq xdb "CORUM" then (w, _extract_cat_corum corum_json xpats acc)
  else (w, Some ([], [])).

(** The partial table of a category, labelled with the isoform ids:
    its one row is carried to every isoform. *)
Definition spread (IsoIds : list string) (df2 : table) : option frame :=
  let dfx := Table [XID] ((fun i => [Str i]) <$> IsoIds) in
  set_index (ffill (concat_columns df2 dfx)) XID.

(** The partial table [df2] of one round of the loop over [CTERMS]:
    what the extractor of the category returns, or one row of missing
    values when the record has no tuple of it. *)
Definition cterm_table (acc : string) (rcross : gmap string (list (list string))) (corum_json : option (list complex)) (panther_df : option (list (cell * cell))) (w : world) (terms : string * list (string * string)) : world * option table :=
  let xdb := terms.1 in
  let xpats := terms.2 in
  let '(w, ex) :=
    match rcross !! xdb with
    | Some rconts => extract w xdb xpats rconts acc corum_json panther_df
    | None => (w, Some (fst <$> xpats, one_row ((fun _ => NaN) <$> xpats)))
    end in
  (w, ex ← ex; DataFrame ex.1 ex.2).

(** One round of the loop over [CTERMS]: a table without any value is
    not joined. *)
Definition join_cterm (acc : string) (IsoIds : list string) (rcross : gmap string (list (list string))) (corum_json : option (list complex)) (panther_df : option (list (cell * cell))) (w : world) (df1 : frame) (terms : string * list (string * string)) : world * option frame :=
  let '(w, df2) := cterm_table acc rcross corum_json panther_df w terms in
  (w, df2 ← df2;
      if empty (dropna_all df2) then Some df1
      else df2 ← spread IsoIds df2; join_outer df1 df2).

Fixpoint join_cterms (acc : string) (IsoIds : list string) (rcross : gmap string (list (list string))) (corum_json : option (list complex)) (panther_df : option (list (cell * cell))) (w : world) (df1 : frame) (terms : list (string * list (string * string))) : world * option frame :=
  match terms with
  | [] => (w, Some df1)
  | t :: rest =>
      match join_cterm acc IsoIds rcross corum_json panther_df w df1 t with
      | (w, Some df1) => join_cterms acc IsoIds rcross corum_json panther_df w df1 rest
      | (w, None) => (w, None)
      end
  end.

(** [_create_qreport(record, corum_json, panther_df)]. *)
Definition _create_qreport (w : world) (record : record) (corum_json : option (list complex)) (panther_df : option (list (cell * cell))) : world * option frame :=
  match
    acc ← head (accessions record);
    iso ← isoforms acc record;
    df1 ← base_table record iso.1;
    df1 ← join_xterms acc iso.1 iso.2
            (rcross_of (fst <$> XTERMS) (cross_references record)) df1 XTERMS;
    Some (acc, iso.1, df1)
  with
  | Some (acc, IsoIds, df1) =>
      join_cterms acc IsoIds (rcross_of (fst <$> CTERMS) (cross_references record))
                  corum_json panther_df w df1 CTERMS
  | None => (w, None)
  end.

(** [to_file]: the frame that is written, with the columns of
    [HEADERS]; a column the frame lacks is filled with missing values. *)
Definition to_file (df : frame) : table :=
  let cols := XID :: fcols df in
  Table HEADERS
        ((fun row : string * list cell =>
            (fun h => match index_of h cols with
                      | Some i => default NaN ((Str row.1 :: row.2) !! i)
                      | None => NaN
                      end) <$> HEADERS) <$> frows df).

End Create.
End Report.

(** ** States and inputs that the properties speak of *)

Module Examples.
Import Py.

(** The cache holds the raw response of [id] and no derived text, and
    the raw response derives the empty text. *)
Definition raw_only (dir id : string) (w : world) : Prop :=
  files w !! Kegg.cache_file dir id ".txt" = None /\
  exists record, files w !! Kegg.cache_file dir id ".dat" = Some record /\
                 Kegg.derive record = "".

(** The world after the lookups of the identifiers [ids], in turn. *)
Definition after_lookups (net : nat -> string -> option string) (dir : string) (w : world) (ids : list string) : world :=
  foldl (fun w i => (Kegg.kegg_lookup net dir w i).1) w ids.

(** A run that starts with an empty cache directory. *)
Definition fresh : world := World ∅ [].

(** KEGG is unreachable: every request raises. *)
Definition net_down : nat -> string -> option string := fun _ _ => None.

(** KEGG answers every request with the entry of a gene that has no
    pathway. *)
Definition net_no_pathway : nat -> string -> option string :=
  fun _ _ => Some "ENTRY       1234              CDS       T01001".

(** A creator whose FASTA side table knows the canonical sequence of
    P12345 only. *)
Definition self0 : creator :=
  Creator (<["P12345" := Fasta ">sp|P12345|TEST_HUMAN Test protein" 120]> ∅)
          "cached/human/kegg".

(** A record without comments and without cross-references. *)
Definition bare : record :=
  Record_ "TEST_HUMAN" ["P12345"] "Name=TST1;" "RecName: Full=Test protein;"
          "Homo sapiens (Human)." "Reviewed" [] [].

Definition with_comments (r : record) (cs : list string) : record :=
  Record_ (entry_name r) (accessions r) (gene_name r) (description r)
          (organism r) (data_class r) cs (cross_references r).

Definition with_xrefs (r : record) (xs : list xref) : record :=
  Record_ (entry_name r) (accessions r) (gene_name r) (description r)
          (organism r) (data_class r) (comments r) xs.

(** A comment that declares the displayed isoform and two isoforms
    with a variant sequence, and a record that carries it. *)
Definition two_variants_comment : string :=
  "ALTERNATIVE PRODUCTS: Event=Alternative splicing; Named isoforms=3; Name=1; IsoId=P12345-1; Sequence=Displayed; Name=2; IsoId=P12345-2, P12345-4; Sequence=VSP_000001; Name=3; IsoId=P12345-3; Sequence=VSP_000002, VSP_000003;".

Definition two_variants : record :=
  with_comments bare ["FUNCTION: Unknown."; two_variants_comment].

(** A record whose comment declares the isoform P12345-2 twice. *)
Definition repeated_isoform : record :=
  with_comments bare
    ["ALTERNATIVE PRODUCTS: Event=Alternative splicing; Named isoforms=2; Name=2; IsoId=P12345-2; Sequence=VSP_000001; Name=3; IsoId=P12345-2; Sequence=VSP_000002;"].

(** A complex table with one complex, of which P12345 is a subunit. *)
Definition corum0 : option (list complex) :=
  Some [Complex (Some 7%Z) (Some "Test;Complex") (Some "P12345;Q99999")].

(** The report of a record in a run with an empty cache and without
    network, and the world that the run leaves. *)
Definition run (r : record) : world * option frame :=
  Report._create_qreport net_down self0 fresh r corum0 None.

Definition report_of (r : record) : frame := default (Frame [] []) (run r).2.

(** A record with two variant isoforms, and cross-references of two
    direct-identifier families and three categories. *)
Definition annotated : record :=
  with_xrefs two_variants
    [Xref "Ensembl" ["ENST00000001.2"; "ENSP00000001.2"; "ENSG00000001.2. [P12345-1]"];
     Xref "Ensembl" ["ENST00000002.1"; "ENSP00000002.1"; "ENSG00000001.2. [P12345-2]"];
     Xref "RefSeq" ["NP_000001.1"; "NM_000001.3"];
     Xref "GO" ["GO:0005515"; "F:protein binding"; "IPI:IntAct"];
     Xref "Reactome" ["R-HSA-109582"; "Hemostasis"];
     Xref "CORUM" ["P12345"]].

(** A record with two Ensembl tuples that carry no bracket. *)
Definition two_ensembl : record :=
  with_xrefs bare
    [Xref "Ensembl" ["ENST00000001.2"; "ENSP00000001.2"; "ENSG00000001.2"];
     Xref "Ensembl" ["ENST00000002.1"; "ENSP00000002.1"; "ENSG00000001.2"]].

(** A record with an Ensembl tuple whose bracket names an isoform that
    the record does not declare. *)
Definition foreign_isoform : record :=
  with_xrefs bare
    [Xref "Ensembl" ["ENST00000001.2"; "ENSP00000001.2"; "ENSG00000001.2. [Q99999-3]"]].

End Examples.

(** ** The vocabulary of the properties of the report *)

Module Vocabulary.
Import Py Pandas Xrefs.

(** Every row of a frame has one cell per column. *)
Definition rectangular (f : frame) : Prop :=
  Forall (fun r : string * list cell => length r.2 = length (fcols f)) (frows f).

(** The columns of the base table. *)
Definition base_columns : list string :=
  ["xref_UniProt_Name"; "Gene"; "Species"; "Length"; "Description";
   "Comment_Line"; "prot_UniProt_Class"].

(** The families of the report with the columns that each one owns. *)
Definition families : list (string * list string) :=
  ((fun t : string * list string => (t.1, removelast t.2)) <$> XTERMS) ++
  ((fun t : string * list (string * string) => (t.1, fst <$> t.2)) <$> CTERMS).

(** The record has a cross-reference of the database [db]. *)
Definition refers_to (record : record) (db : string) : Prop :=
  db ∈ xdb <$> cross_references record.

(** The field of a direct-identifier tuple that carries the bracket. *)
Definition bracket_field (db : string) (rcont : list string) : option string :=
  if str_eq db "Ensembl" then rcont !! 2 else rcont !! 1.

(** The number of tuples of the database [db] that the record
    attributes to the isoform [k]. *)
Definition attributed (acc : string) (IsoDisplayed : option string) (record : record) (db k : string) : nat :=
  length (filter (fun x : xref =>
                    xdb x = db /\
                    attribute acc IsoDisplayed <$> bracket_field db (xfields x) = Some k)
                 (cross_references record)).

(** The cell of a row in the column [c]. *)
Definition cell_at (f : frame) (row : list cell) (c : string) : option cell :=
  index_of c (fcols f) ≫= (row !!.).

(** The number of isoforms with a variant sequence that the fields
    [ap] of an alternative-products comment declare: the fields
    [IsoId=] whose next field names a sequence [VSP_...]. *)
Fixpoint declared_variants (ap : list string) : nat :=
  match ap with
  | a :: ((b :: _) as rest) =>
      (if startswith "IsoId=" a &&
          startswith "VSP_" (Re.upto_comma (remove "Sequence=" b))
       then 1 else 0) + declared_variants rest
  | _ => 0
  end.

(** A list as the value of a dictionary that holds no empty list. *)
Definition nonempty {A} (l : list A) : option (list A) :=
  match l with [] => None | _ => Some l end.

(** The tuples of the database [db] among the cross-references of a
    record, in their order. *)
Definition tuples_of (record : record) (db : string) : list (list string) :=
  xfields <$> filter (fun x : xref => xdb x = db) (cross_references record).

(** The rows [rows] are the cells and then the label of [pairs]. *)
Definition labelled (cs : list string) (rows : list (list cell)) (pairs : list (string * list cell)) : Prop :=
  Forall2 (fun row (p : string * list cell) =>
             row = p.2 ++ [Str p.1] /\ length p.2 = length cs) rows pairs.

(** The number of rows that a base isoform has in the report when the
    isoform ids are distinct: the direct-identifier families multiply,
    a family without a tuple for the isoform counting for one. *)
Definition combinations (acc : string) (IsoDisplayed : option string) (record : record) (k : string) : nat :=
  foldr (fun (t : string * list string) p =>
           (1 `max` attributed acc IsoDisplayed record t.1 k) * p) 1 XTERMS.

(** What the report knows of a partial frame of a direct-identifier
    family that it joins: its columns, its shape, and how many of its
    rows each label has. *)
Definition xpart (acc : string) (IsoDisplayed : option string) (record : record) (t : string * list string) (df2 : frame) : Prop :=
  fcols df2 = removelast t.2 /\
  rectangular df2 /\
  refers_to record t.1 /\
  forall k, length (rows_at k df2) = attributed acc IsoDisplayed record t.1 k.

(** The same for the partial frame of a category: it has one row for
    each isoform id. *)
Definition cpart (IsoIds : list string) (record : record) (t : string * list (string * string)) (df2 : frame) : Prop :=
  fcols df2 = fst <$> t.2 /\
  rectangular df2 /\
  labels df2 = IsoIds /\
  refers_to record t.1.

(** The scalar columns of the base table with the value that the
    record gives them. *)
Definition scalars (record : record) : list (string * string) :=
  [("xref_UniProt_Name", entry_name record);
   ("Gene", Parser.gene_of record);
   ("Species", Parser.species_of record);
   ("Description", Parser.dsc_of record);
   ("prot_UniProt_Class", data_class record)].

(** The cells of a row in the columns of the base table: those of a
    row of the base table, or missing values. *)
Definition base_cells (record : record) (inside : bool) (cells : list cell) : Prop :=
  if inside
  then exists L C, cells = [Str (entry_name record); Str (Parser.gene_of record);
                            Str (Parser.species_of record); L;
                            Str (Parser.dsc_of record); C; Str (data_class record)]
  else cells = replicate 7 NaN.

(** What every frame on the way from the base table to the report
    satisfies. *)
Definition report_inv (record : record) (IsoIds : list string) (df : frame) : Prop :=
  rectangular df /\
  (forall k, k ∈ IsoIds -> k ∈ labels df) /\
  (exists more,
     fcols df = base_columns ++ more /\
     forall c, c ∈ more ->
       exists fam, fam ∈ families /\ refers_to record fam.1 /\ c ∈ fam.2) /\
  (forall k row, (k, row) ∈ frows df ->
     base_cells record (bool_decide (k ∈ IsoIds)) (take 7 row)).

(** The columns of the families keep apart from each other, from the
    columns of the base table and from the label. *)
Definition columns_apart : bool :=
  forallb (fun f1 : string * list string =>
             forallb (fun c => negb (member c (XID :: base_columns))) f1.2 &&
             forallb (fun f2 : string * list string =>
                        str_eq f1.1 f2.1 ||
                        forallb (fun c => negb (member c f2.2)) f1.2) families)
          families.

(** The number of fields of a tuple of the database [db] that
    [_create_qreport] reads outside a [try] block. *)
Definition fields_read (db : string) : nat :=
  if str_eq db "Ensembl" then 3
  else if str_eq db "RefSeq" then 2
  else if str_eq db "CCDS" then 2
  else if str_eq db "GO" then 3
  else if str_eq db "KEGG" then 1
  else if str_eq db "Reactome" then 1
  else 0.

(** Every object of the complex table has its subunits: no lookup of
    ['subunits(UniProt IDs)'] raises. *)
Definition keyed (corum_json : option (list complex)) : Prop :=
  match corum_json with
  | Some complexes => Forall (fun c => is_Some (subunits c)) complexes
  | None => True
  end.

(** Every cross-reference of the record has the fields that are read. *)
Definition complete (record : record) : Prop :=
  Forall (fun x : xref => fields_read (xdb x) <= length (xfields x))
         (cross_references record).

(** The frame has no column of a family whose name is in [pending]:
    its columns are columns of the base table or of other families. *)
Definition columns_before (pending : list string) (df : frame) : Prop :=
  forall c, c ∈ fcols df ->
    c ∈ base_columns \/
    exists fam, fam ∈ families /\ c ∈ fam.2 /\ (fam.1 ∉ pending).

End Vocabulary.

(** ** What a run does to the cache *)

Module Cache.

(** The world [w'] comes from [w] by lookups of identifiers of [ids]:
    every file of [w] is in [w'] with its text, the requests of [w']
    are those of [w] and then requests of identifiers of [ids], in
    their order, and a file that [w'] has and [w] lacks is one of the
    two cache files of an identifier of [ids]. *)
Definition grows (dir : string) (ids : list string) (w w' : world) : Prop :=
  files w ⊆ files w' /\
  (exists sent, requests w' = requests w ++ sent /\ sent `sublist_of` ids) /\
  (forall path, files w !! path = None -> is_Some (files w' !! path) ->
     exists id, id ∈ ids /\
       (path = Kegg.cache_file dir id ".txt" \/ path = Kegg.cache_file dir id ".dat")).

(** The identifiers of the KEGG tuples of a record. *)
Definition kegg_ids (record : record) : list string :=
  omap head (Vocabulary.tuples_of record "KEGG").

(** The cache of [w] answers a lookup of [id] with the text [v] and
    without a request: its derived-text file holds [v], or it holds the
    raw response alone, from which the empty text is derived. *)
Definition answers (dir : string) (w : world) (id v : string) : Prop :=
  files w !! Kegg.cache_file dir id ".txt" = Some v \/
  (v = "" /\ Examples.raw_only dir id w).

(** The identifiers that one round of the loop over [CTERMS] looks
    up, and those of a part of the loop. *)
Definition round_ids (record : record) (t : string * list (string * string)) : list string :=
  if Py.str_eq t.1 "KEGG" then kegg_ids record else [].

Definition rounds_ids (record : record) (terms : list (string * list (string * string))) : list string :=
  terms ≫= round_ids record.

End Cache.

(** ** The entries of the category columns *)

Module Entries.
Import Py Pandas Cats.

(** The entry of a GO tuple in the value of a column: the identifier,
    the term with its semicolons replaced, and the evidence. *)
Definition go_entry (rcont : list string) : option string :=
  match rcont with
  | id :: term :: evidence :: _ =>
      Some (id +:+ ">" +:+ replace_char ";" "," term +:+ "|" +:+ evidence)
  | _ => None
  end.

(** The tuple has the aspect [g] and one of the evidence codes that
    [_extract_cat_go] keeps. *)
Definition go_kept (g : string) (rcont : list string) : bool :=
  match rcont with
  | _ :: term :: evidence :: _ =>
      str_eq (before_colon term) g && member (before_colon evidence) flts
  | _ => false
  end.

Definition go_entries (g : string) (rconts : list (list string)) : list string :=
  omap go_entry (filter (fun rcont => Is_true (go_kept g rcont)) rconts).

(** The value of a key of [rcs] after further entries were added to
    what it held. *)
Definition merged (held : option string) (entries : list string) : option string :=
  match entries with
  | [] => held
  | _ => Some match held with
              | Some old => old +:+ ";" +:+ join ";" entries
              | None => join ";" entries
              end
  end.

(** No semicolon occurs in the text. *)
Definition plain (s : string) : Prop := all_chars (fun c => negb (ceq c ";")) s = true.

(** A complex that the CORUM column shows for [acc]: its subunit
    string has [acc] in it, and it has an identifier and a name. *)
Definition corum_shown (acc : string) (c : complex) : bool :=
  match subunits c, ComplexID c, ComplexName c with
  | Some u, Some _, Some _ => contains acc u
  | _, _, _ => false
  end.

(** The text [compID_<id>>name] of such a complex, with its semicolons
    replaced. *)
Definition corum_text (c : complex) : string :=
  replace_char ";" ","
    ("compID_" +:+ str_of_int (default 0%Z (ComplexID c)) +:+ ">" +:+
     default "" (ComplexName c)).

End Entries.

(** ** The columns of the categories *)

Module Terms.

(** The columns that the loop over [CTERMS] fills, as [HEADERS] lists
    them. *)
Definition category_columns : list string := i ← CTERMS; h ← i.2; [h.1].

(** The partial frame of a category after the isoform ids were added:
    the one row of values on every isoform id. *)
Definition spread_frame (ids : list string) (t : string * list (string * string)) (vals : list cell) : frame :=
  Frame (fst <$> t.2) ((fun i => (i, vals)) <$> ids).

End Terms.

(** ** The FASTA side table of [download_raw_dbs] *)

Module Fasta.
Import Py.

(** [fasta_txt.split('\n>')]: the text is cut at every newline that a
    [>] follows. *)
Fixpoint split_entries (s : string) : list string :=
  match s with
  | EmptyString => [EmptyString]
  | String c s' =>
      let head_on := match split_entries s' with
                     | [] => [String c EmptyString]
                     | h :: t => String c h :: t
                     end in
      if ceq c newline then
        match s' with
        | String d s'' => if ceq d ">" then EmptyString :: split_entries s'' else head_on
        | EmptyString => head_on
        end
      else head_on
  end.

(** An element of [b]: the lines of a piece of the text, without the
    [>] that the piece starts with. *)
Definition entry_lines (a : string) : list string :=
  match a with
  | String c a' => if ceq c ">" then split newline a' else split newline a
  | EmptyString => split newline a
  end.

(** The pair that a piece [c] of more than one line gives:
    [(c[0].split("|")[1], {'comm': '>'+c[0], 'len': len("".join(c[1:]))})];
    [None] when the header has no bar. *)
Definition index_entry (c : list string) : option (string * fasta_entry) :=
  match c with
  | [] => None
  | header :: lines =>
      acc ← split "|" header !! 1;
      Some (acc, Fasta (">" +:+ header) (Z.of_nat (String.length (join "" lines))))
  end.

(** [dict(pairs)]: a later pair replaces an earlier one of the same key. *)
Definition dict {A} (pairs : list (string * A)) : gmap string A :=
  foldl (fun m p => <[p.1 := p.2]> m) ∅ pairs.

(** [self.db_fasta_seqio] for the text of the FASTA file. *)
Definition db_fasta_seqio_of (fasta_txt : string) : option (gmap string fasta_entry) :=
  dict <$> mapM index_entry
             (filter (fun c => 1 < length c) (entry_lines <$> split_entries fasta_txt)).

(** *** FASTA files *)

(** The text of a FASTA file: every entry is a header line, with [>]
    before it, and the lines of its sequence; every line ends with a
    newline. *)
Definition entry_sep : string := String newline ">".

Definition entry_text (e : string * list string) : string :=
  ">" +:+ join (String newline "") (e.1 :: e.2) +:+ String newline "".

Definition fasta_text (entries : list (string * list string)) : string :=
  foldr (fun e s => entry_text e +:+ s) "" entries.

(** No newline of [s] has [>] after it. *)
Fixpoint sep_free (s : string) : bool :=
  match s with
  | EmptyString => true
  | String c s' => negb (ceq c newline && startswith ">" s') && sep_free s'
  end.

(** A line of a FASTA file without its [>]: it has no newline in it and
    does not start with [>]. *)
Definition line (s : string) : Prop :=
  all_chars (fun c => negb (ceq c newline)) s = true /\ startswith ">" s = false.

(** An entry with a header [db|accession|...] and one line of sequence
    at least. *)
Definition entry_of (acc : string) (e : string * list string) : Prop :=
  line e.1 /\ split "|" e.1 !! 1 = Some acc /\ e.2 <> [] /\ Forall line e.2.

(** The number of residues of an entry, and what the side table holds
    for it. *)
Definition residues (e : string * list string) : Z :=
  Z.of_nat (sum_list (String.length <$> e.2)).

Definition indexed (acc : string) (e : string * list string) : string * fasta_entry :=
  (acc, Fasta (">" +:+ e.1) (residues e)).

End Fasta.

(** ** [_remove_duplicates]: the sequences of a FASTA file *)

Module Duplicates.

(** A record that [SeqIO.parse] reads is its id and its sequence; the
    dictionary [records] is the list of its items, in the order of
    insertion. *)
Definition to_dict (precords : list (string * string)) : option (list (string * string)) :=
  if bool_decide (NoDup (fst <$> precords)) then Some precords else None.

(** [records[i]]; a [KeyError] is [None]. *)
Definition record_of (records : list (string * string)) (i : string) : option string :=
  snd <$> head (filter (fun r : string * string => r.1 = i) records).

(** [del records[k]]. *)
Definition del (records : list (string * string)) (k : string) : option (list (string * string)) :=
  if bool_decide (k ∈ fst <$> records)
  then Some (filter (fun r : string * string => r.1 <> k) records)
  else None.

(** [l = [a, b]; l.sort()]: the two ids in the order of their code
    points. *)
Definition sorted_pair (a b : string) : string * string :=
  if String.leb a b then (a, b) else (b, a).

(** One round of the loop over [list(records)]: [seqs] holds, for every
    sequence that was met, the id under which it is kept. *)
Definition dedup_step (outfile : bool) (st : option (list (string * string) * gmap string string)) (i : string) : option (list (string * string) * gmap string string) :=
  st ← st;
  s ← record_of st.1 i;
  match st.2 !! s with
  | Some j =>
      if outfile then
        let l := sorted_pair j i in
        records ← del st.1 l.2;
        Some (records, <[s := l.1]> st.2)
      else Some st
  | None => Some (st.1, <[s := i]> st.2)
  end.

(** [_remove_duplicates(infile, outfile)] on the records of [infile]:
    the records that are written to [outfile], [Some None] when no
    [outfile] is given, and [None] when an exception is raised. *)
Definition _remove_duplicates (precords : list (string * string)) (outfile : bool) : option (option (list (string * string))) :=
  records ← to_dict precords;
  st ← foldl (dedup_step outfile) (Some (records, ∅)) (fst <$> records);
  Some (if outfile then Some st.1 else None).

(** What the loop has reached after the records [visited]: [kept] are
    records among them, in their order; [seqs] holds the id of every
    sequence of [kept]; no two records of [kept] have one sequence; and
    every record that was visited has its sequence in [kept], under an
    id that is not greater than its own. *)
Definition reached (visited kept : list (string * string)) (seqs : gmap string string) : Prop :=
  kept `sublist_of` visited /\
  (forall s i, seqs !! s = Some i <-> (i, s) ∈ kept) /\
  NoDup (snd <$> kept) /\
  (forall i' s, (i', s) ∈ visited -> exists i, (i, s) ∈ kept /\ String.le i i').

End Duplicates.

(** ** [create_qreport]: the report of all the records *)

Module Reports.
Import Py Pandas.

Section Concat.

(** The order in which [pd.concat] puts the union of the columns of
    frames whose columns differ: with the version of pandas, the order
    of their first appearance or their sorted order. *)
Variable order : list string -> list string.

(** A row of [df] under the columns [cols]: the cell of a column that
    [df] lacks is missing. *)
Definition realign (cols : list string) (df : frame) (row : string * list cell) : string * list cell :=
  (row.1, (fun c => match index_of c (fcols df) with
                    | Some i => default NaN (row.2 !! i)
                    | None => NaN
                    end) <$> cols).

(** The rows of [df] under the columns [cols]: a frame that has these
    columns is taken as it is; another one is reindexed, which raises
    when it has two columns of one name. *)
Definition reindex (cols : list string) (df : frame) : option (list (string * list cell)) :=
  if bool_decide (fcols df = cols) then Some (frows df)
  else if bool_decide (NoDup (fcols df)) then Some (realign cols df <$> frows df)
  else None.

(** The distinct names of a list, in the order of their first
    appearance. *)
Definition first_seen (l : list string) : list string :=
  reverse (remove_dups (reverse l)).

(** The columns of the concatenated frame: those of the frames when
    they all have the same ones, their union otherwise. *)
Definition combined (dfs : list frame) : list string :=
  match dfs with
  | [] => []
  | df :: rest =>
      if forallb (fun d => bool_decide (fcols d = fcols df)) rest then fcols df
      else order (first_seen (dfs ≫= fcols))
  end.

(** [pd.concat(ddf)]: the rows of the frames, one frame after the
    other; [ValueError] when there is no frame.  A cell holds a number
    and not the format, integer or float, in which pandas keeps it:
    [pd.concat] turns the integers of a column into floats when a
    frame has floats in this column. *)
Definition concat (dfs : list frame) : option frame :=
  match dfs with
  | [] => None
  | _ =>
      let cols := combined dfs in
      rows ← mapM (reindex cols) dfs;
      Some (Frame cols (mjoin rows))
  end.

End Concat.

Section Create.

Variable net : nat -> string -> option string.
Variable self : creator.
Variable order : list string -> list string.

(** The loop over the records that [SwissProt.parse] reads: the
    report of each record, in the world that the records before it
    have left. *)
Fixpoint reports (w : world) (records : list record) (corum_json : option (list complex)) (panther_df : option (list (cell * cell))) : world * option (list frame) :=
  match records with
  | [] => (w, Some [])
  | rec :: rest =>
      match Report._create_qreport net self w rec corum_json panther_df with
      | (w, Some df) =>
          match reports w rest corum_json panther_df with
          | (w, Some ddf) => (w, Some (df :: ddf))
          | (w, None) => (w, None)
          end
      | (w, None) => (w, None)
      end
  end.

(** [create_qreport()] on the records of [self.db_uniprot], a path
    that [__init__] sets, with the tables that were loaded from
    [self.db_corum] and [self.db_panther]. *)
Definition create_qreport (w : world) (records : list record) (corum_json : option (list complex)) (panther_df : option (list (cell * cell))) : world * option frame :=
  let '(w, ddf) := reports w records corum_json panther_df in
  (w, ddf ← ddf; concat order ddf).

End Create.

(** The rows that [to_file] writes for a frame. *)
Definition written (df : frame) : list (list cell) := trows (Report.to_file df).

(** Two written lines have the same cell under every column other
    than [Length], the one column of numbers, whose format the cells
    do not hold. *)
Definition same_text (line own : list cell) : Prop :=
  length line = length own /\
  forall j h, HEADERS !! j = Some h -> h <> "Length" -> line !! j = own !! j.

(** A record of which [_create_qreport] reads an accession and the
    isoform ids. *)
Definition readable (record : record) : Prop :=
  exists acc, head (accessions record) = Some acc /\ is_Some (Isoforms.isoforms acc record).

(** No lookup in the complex table raises for the record: every
    object of the table has its subunits, or the record has no CORUM
    cross-reference, so that the table is not read for it. *)
Definition corum_safe (corum_json : option (list complex)) (record : record) : Prop :=
  Vocabulary.keyed corum_json \/ ~ Vocabulary.refers_to record "CORUM".

(** KEGG answers every request with the entry of a gene of one
    pathway. *)
Definition net_pathway : nat -> string -> option string :=
  fun _ _ => Some ("ENTRY       1234              CDS       T01001" +:+ String newline
                   "PATHWAY     hsa04110  Cell cycle").

(** A record with a KEGG tuple, and a record without any
    cross-reference that follows it in the file. *)
Definition with_kegg : record :=
  Examples.with_xrefs Examples.bare
    [Xref "Ensembl" ["ENST00000001.2"; "ENSP00000001.2"; "ENSG00000001.2"];
     Xref "KEGG" ["hsa:1234"; "-"]].

Definition second : record :=
  Record_ "OTHER_HUMAN" ["Q99999"] "Name=OTH1;" "RecName: Full=Other protein;"
          "Homo sapiens (Human)." "Unreviewed" [] [].

(** A run over these two records that starts with an empty cache
    directory, with the columns in the order of their first
    appearance, and the report that it returns. *)
Definition example_run : world * option frame :=
  create_qreport net_pathway Examples.self0 (fun l => l) Examples.fresh
                 [with_kegg; second] None None.

Definition example_report : frame := default (Frame [] []) example_run.2.

(** The report of the first of the two records alone, and the one
    row that it has. *)
Definition first_run : world * option frame :=
  Report._create_qreport net_pathway Examples.self0 Examples.fresh with_kegg None None.

Definition first_report : frame := default (Frame [] []) first_run.2.

(** The same run when KEGG is unreachable. *)
Definition offline_run : world * option frame :=
  Report._create_qreport Examples.net_down Examples.self0 Examples.fresh with_kegg None None.

Definition offline_report : frame := default (Frame [] []) offline_run.2.

Definition first_row : list cell :=
  [Str "TEST_HUMAN"; Str "TST1"; Str "Homo sapiens"; Int 120; Str "Test protein";
   Str ">sp|P12345|TEST_HUMAN Test protein"; Str "Reviewed";
   Str "ENSP00000001"; Str "ENST00000001"; Str "ENSG00000001";
   Str "hsa04110>Cell cycle"].

End Reports.

(** ** The PATHWAY block of a KEGG entry *)

Module Flat.
Import Py.

(** One pathway of the block: the white space before its identifier,
    the identifier, the white space after it, and its name. *)
Record pathway := Pathway { pad : string; pid : string; gap : string; pname : string }.

(** White space within a line. *)
Definition blank (s : string) : Prop :=
  all_chars (fun c => is_space c && negb (ceq c newline)) s = true.

(** A text without white space that is not empty. *)
Definition word (s : string) : Prop :=
  s <> "" /\ all_chars (fun c => negb (is_space c)) s = true.

(** A text within a line. *)
Definition inline (s : string) : Prop :=
  all_chars (fun c => negb (ceq c newline)) s = true.

(** A text within a line that is not empty and has no white space at
    its ends. *)
Definition trimmed (s : string) : Prop :=
  s <> "" /\ lstrip s = s /\ rstrip s = s /\ inline s.

Definition well_formed (p : pathway) : Prop :=
  blank (pad p) /\ word (pid p) /\ blank (gap p) /\ gap p <> "" /\ trimmed (pname p).

Definition body (p : pathway) : string := pid p +:+ gap p +:+ pname p.

(** The line of the first pathway, after the key of the block, and
    the line of a pathway that follows. *)
Definition first_line (p : pathway) : string := "PATHWAY" +:+ pad p +:+ body p.

Definition next_line (p : pathway) : string := " " +:+ pad p +:+ body p.

(** The lines of an entry: those before the block, the block and
    those after it. *)
Definition entry_lines (before : list string) (p : pathway) (ps : list pathway) (after : list string) : list string :=
  before ++ first_line p :: (next_line <$> ps) ++ after.

Definition entry_text (lines : list string) : string := join (String newline "") lines.

(** What is kept of a pathway. *)
Definition item (p : pathway) : string := pid p +:+ ">" +:+ pname p.

(** The entry of a gene of two pathways. *)
Definition akt1 : string :=
  entry_text
    (entry_lines ["ENTRY       207               CDS       T01001";
                  "SYMBOL      AKT1, AKT, PKB"]
                 (Pathway "     " "hsa04010" "  " "MAPK signaling pathway")
                 [Pathway "           " "hsa04151" "  " "PI3K-Akt signaling pathway"]
                 ["BRITE       KEGG Orthology (KO) [BR:hsa00001]"; "///"; ""]).

(** An entry whose name has the word of the key, in small letters,
    before the block. *)
Definition regulator : string :=
  entry_text ["ENTRY       9999              CDS       T01001";
              "NAME        (RefSeq) cell death pathway regulator";
              "PATHWAY     hsa04210  Apoptosis";
              "///"; ""].

(** No line of the response starts with the key of a PATHWAY block. *)
Definition no_block (record : string) : Prop :=
  Forall (fun l => startswith "PATHWAY" l = false) (split newline record).

(** An entry without a PATHWAY block whose name has the word of the
    key in capital letters, and a network that answers with it. *)
Definition capital_name : string :=
  entry_text ["ENTRY       9998              CDS       T01001";
              "NAME        (RefSeq) PATHWAY-specific regulator";
              "///"; ""].

Definition net_capital_name : nat -> string -> option string :=
  fun _ _ => Some capital_name.

(** KEGG answers every request with the entry [akt1]. *)
Definition net_akt1 : nat -> string -> option string := fun _ _ => Some akt1.

End Flat.

(** * Properties *)

(** ** Strings *)

Module PyFacts.
Import Py.

Lemma length_append (a b : string) :
  String.length (a +:+ b) = String.length a + String.length b.
Proof. induction a as [|c a IH]; simpl; [done|]. by rewrite IH. Qed.

(** Two texts that end in suffixes of one length are equal only when
    the suffixes are. *)
Lemma append_inv (a b s t : string) :
  String.length s = String.length t -> a +:+ s = b +:+ t -> a = b /\ s = t.
Proof.
  intros Hlen. revert b. induction a as [|c a IH]; intros [|d b] Heq; simpl in *.
  - done.
  - exfalso. apply (f_equal String.length) in Heq.
    rewrite !length_append in Heq. simpl in Heq. lia.
  - exfalso. apply (f_equal String.length) in Heq.
    rewrite !length_append in Heq. simpl in Heq. lia.
  - change (String c (a +:+ s) = String d (b +:+ t)) in Heq.
    injection Heq as -> Heq. destruct (IH _ Heq) as [-> ->]. done.
Qed.

Lemma is_empty_true (s : string) : is_empty s = true <-> s = "".
Proof. destruct s; simpl; split; congruence. Qed.

Lemma is_empty_false (s : string) : is_empty s = false <-> s <> "".
Proof. destruct s; simpl; split; congruence. Qed.

End PyFacts.

(** ** The KEGG cache *)

Module KeggFacts.
Import Py Re Kegg PyFacts Examples.

Section Cache.

Variable net : nat -> string -> option string.
Variable dir : string.

Local Abbreviation cache_file := (cache_file dir).
Local Abbreviation kegg_lookup := (kegg_lookup net dir).
Local Abbreviation raw_only := (raw_only dir).

Lemma txt_is_not_dat (id id' : string) :
  cache_file id ".txt" <> cache_file id' ".dat".
Proof.
  unfold Kegg.cache_file. intros H.
  do 2 apply (inj (String.app _)) in H.
  apply append_inv in H as [_ H]; [discriminate|done].
Qed.

Lemma same_txt_same_dat (id id' : string) :
  cache_file id ".txt" = cache_file id' ".txt" <->
  cache_file id ".dat" = cache_file id' ".dat".
Proof.
  unfold Kegg.cache_file. split; intros H;
    do 2 apply (inj (String.app _)) in H;
    apply append_inv in H as [-> _]; done.
Qed.

(** A response without [PATHWAY], in any case of letters, derives the
    empty text. *)
Lemma derive_no_pathway (record : string) :
  search_pathway record = None -> derive record = "".
Proof. unfold derive. intros ->. by destruct (is_empty record). Qed.

Lemma store_empty (w : world) (of1 record : string) :
  derive record = "" -> derive_and_store w of1 record = (w, Some "").
Proof. unfold derive_and_store. by intros ->. Qed.

Lemma store_text (w : world) (of1 record : string) :
  derive record <> "" ->
  derive_and_store w of1 record =
    (write w of1 (strip_last_semicolon (derive record)),
     Some (strip_last_semicolon (derive record))).
Proof.
  unfold derive_and_store. intros H%is_empty_false. simpl. by rewrite H.
Qed.

(** The four ways through a lookup. *)
Lemma lookup_txt (w : world) (id rc : string) :
  files w !! cache_file id ".txt" = Some rc -> kegg_lookup w id = (w, Some rc).
Proof. unfold Kegg.kegg_lookup. by intros ->. Qed.

Lemma lookup_dat (w : world) (id record : string) :
  files w !! cache_file id ".txt" = None ->
  files w !! cache_file id ".dat" = Some record ->
  kegg_lookup w id = derive_and_store w (cache_file id ".txt") record.
Proof. unfold Kegg.kegg_lookup. by intros -> ->. Qed.

Lemma lookup_fetch (w : world) (id record : string) :
  files w !! cache_file id ".txt" = None ->
  files w !! cache_file id ".dat" = None ->
  net (length (requests w)) id = Some record ->
  kegg_lookup w id =
    derive_and_store
      (World (<[cache_file id ".dat" := record]> (files w)) (requests w ++ [id]))
      (cache_file id ".txt") record.
Proof. unfold Kegg.kegg_lookup. intros -> ->. simpl. by intros ->. Qed.

Lemma lookup_failed (w : world) (id : string) :
  files w !! cache_file id ".txt" = None ->
  files w !! cache_file id ".dat" = None ->
  net (length (requests w)) id = None ->
  kegg_lookup w id = (World (files w) (requests w ++ [id]), None).
Proof. unfold Kegg.kegg_lookup. intros -> ->. simpl. by intros ->. Qed.

(** With the cache in the state [raw_only], a lookup of [id] sends no
    request, writes nothing and gives the empty text. *)
Lemma raw_only_lookup (id : string) (w : world) :
  raw_only id w -> kegg_lookup w id = (w, Some "").
Proof.
  intros [Htxt (record & Hdat & Hrc)].
  rewrite (lookup_dat _ _ _ Htxt Hdat). by apply store_empty.
Qed.

Lemma raw_only_write (id path text : string) (w : world) :
  path <> cache_file id ".txt" -> path <> cache_file id ".dat" ->
  raw_only id w -> raw_only id (write w path text).
Proof.
  intros H1 H2 [Htxt (record & Hdat & Hrc)]. split; [|exists record; split; [|done]]; simpl.
  - by rewrite lookup_insert_ne.
  - by rewrite lookup_insert_ne.
Qed.

(** A lookup of any identifier keeps the cache in this state. *)
Lemma raw_only_preserved (id id' : string) (w : world) :
  raw_only id w -> raw_only id ((kegg_lookup w id').1).
Proof.
  intros Hw.
  destruct (decide (cache_file id' ".txt" = cache_file id ".txt")) as [Heq|Hne].
  { assert (kegg_lookup w id' = (w, Some "")) as ->; [|done].
    destruct Hw as [Htxt (record & Hdat & Hrc)].
    apply same_txt_same_dat in Heq as Heq2.
    rewrite (lookup_dat w id' record); [by apply store_empty|congruence..]. }
  assert (cache_file id' ".dat" <> cache_file id ".dat") as Hne2.
  { intros H. by apply Hne, same_txt_same_dat. }
  assert (forall w' record, raw_only id w' ->
            raw_only id (derive_and_store w' (cache_file id' ".txt") record).1) as Hstore.
  { intros w' record Hw'. unfold derive_and_store.
    destruct (is_empty (derive record)); simpl; [done|].
    apply raw_only_write; [done|apply txt_is_not_dat|done]. }
  destruct (files w !! cache_file id' ".txt") as [rc|] eqn:Htxt'.
  { by rewrite (lookup_txt _ _ _ Htxt'). }
  destruct (files w !! cache_file id' ".dat") as [record'|] eqn:Hdat'.
  { rewrite (lookup_dat _ _ _ Htxt' Hdat'). by apply Hstore. }
  destruct (net (length (requests w)) id') as [record'|] eqn:Hnet.
  - rewrite (lookup_fetch _ _ _ Htxt' Hdat' Hnet). apply Hstore.
    apply (raw_only_write id (cache_file id' ".dat") record'
             (World (files w) (requests w ++ [id']))); [|done|done].
    intros H. by apply (txt_is_not_dat id id').
  - by rewrite (lookup_failed _ _ Htxt' Hdat' Hnet).
Qed.

Lemma raw_only_after_lookups (id : string) (later : list string) (w : world) :
  raw_only id w -> raw_only id (after_lookups net dir w later).
Proof.
  revert w. induction later as [|i later IH]; intros w Hw; simpl; [done|].
  apply IH. by apply raw_only_preserved.
Qed.

(** A lookup that creates the derived-text file of [id] has derived a
    text that is not empty from the raw response the cache holds for
    [id]. *)
Lemma kegg_txt_written_when_not_empty (w : world) (id : string) :
  files w !! cache_file id ".txt" = None ->
  is_Some (files (kegg_lookup w id).1 !! cache_file id ".txt") ->
  exists record,
    files (kegg_lookup w id).1 !! cache_file id ".dat" = Some record /\
    derive record <> "" /\
    (kegg_lookup w id).2 = Some (strip_last_semicolon (derive record)).
Proof.
  intros Htxt.
  assert (forall w' record,
            files w' !! cache_file id ".txt" = None ->
            files w' !! cache_file id ".dat" = Some record ->
            let r := derive_and_store w' (cache_file id ".txt") record in
            is_Some (files r.1 !! cache_file id ".txt") ->
            exists record, files r.1 !! cache_file id ".dat" = Some record /\
              derive record <> "" /\
              r.2 = Some (strip_last_semicolon (derive record))) as Hstore.
  { intros w' record Htxt' Hdat'. simpl.
    destruct (decide (derive record = "")) as [He|He].
    - rewrite (store_empty _ _ _ He). simpl. rewrite Htxt'. by intros [? ?].
    - rewrite (store_text _ _ _ He). simpl. intros _. exists record. split; [|done].
      rewrite lookup_insert_ne; [done|]. apply txt_is_not_dat. }
  destruct (files w !! cache_file id ".dat") as [record|] eqn:Hdat.
  { rewrite (lookup_dat _ _ _ Htxt Hdat). by apply Hstore. }
  destruct (net (length (requests w)) id) as [record|] eqn:Hnet.
  - rewrite (lookup_fetch _ _ _ Htxt Hdat Hnet). apply Hstore; simpl.
    + rewrite lookup_insert_ne; [done|]. intros H. by apply (txt_is_not_dat id id).
    + by rewrite lookup_insert_eq.
  - rewrite (lookup_failed _ _ Htxt Hdat Hnet). simpl. rewrite Htxt. by intros [? ?].
Qed.

(** *** The responses from which no text is derived *)

Lemma found_word (s b : string) :
  search_pathway s = Some b -> ci_prefix "PATHWAY" b = true.
Proof.
  induction s as [|c s IH]; [done|]. cbn [search_pathway].
  destruct (ci_prefix "PATHWAY" (String c s)) eqn:Hc; [by intros [= <-]|done].
Qed.

Lemma first_line (sep : ascii) (s : string) :
  exists m ms r, split sep s = m :: ms /\ s = m +:+ r.
Proof.
  induction s as [|c s (m & ms & r & Hs & Hr)]; [by exists "", [], ""|].
  cbn [split]. destruct (ceq c sep).
  - by exists "", (split sep s), (String c s).
  - rewrite Hs. exists (String c m), ms, r.
    split; [done|]. change (String c s = String c (m +:+ r)). by rewrite <- Hr.
Qed.

Lemma prefix_mono (p m r : string) :
  startswith p m = true -> startswith p (m +:+ r) = true.
Proof.
  unfold startswith. revert m. induction p as [|a p IH]; intros m; [by destruct (m +:+ r)|].
  destruct m as [|b m]; [done|].
  change (String.prefix (String a p) (String b m) = true ->
          String.prefix (String a p) (String b (m +:+ r)) = true).
  cbn [String.prefix]. destruct (ascii_dec a b); [apply IH|done].
Qed.

(** The first line of a text starts with what the text starts with,
    when this has no line break. *)
Lemma prefix_first_line (p s m : string) (ms : list string) :
  all_chars (fun c => negb (ceq c newline)) p = true ->
  startswith p s = true -> split newline s = m :: ms -> startswith p m = true.
Proof.
  unfold startswith. revert s m ms. induction p as [|a p IH]; intros s m ms Hp Hs Hm;
    [by destruct m|].
  destruct s as [|c s]; [done|]. cbn [all_chars] in Hp.
  apply andb_true_iff in Hp as [Ha Hp]. cbn [String.prefix] in Hs.
  destruct (ascii_dec a c) as [<-|]; [|done]. cbn [split] in Hm.
  apply negb_true_iff in Ha. rewrite Ha in Hm.
  destruct (split newline s) as [|h t] eqn:Hsplit.
  { injection Hm as <- <-. destruct (first_line newline s) as (? & ? & ? & Hx & _).
    by rewrite Hsplit in Hx. }
  injection Hm as <- <-. cbn [String.prefix]. destruct (ascii_dec a a); [|done].
  by apply (IH s h t).
Qed.

Lemma entry_not_empty (m : string) : entry m <> "".
Proof.
  unfold entry. cbv zeta. by destruct (take_while _ m).
Qed.

Lemma append_not_empty (a b : string) : b <> "" -> a +:+ b <> "".
Proof. destruct a; [done|]. by intros _. Qed.

Lemma pathway_lines_grows (lines : list string) (rc : string) :
  rc <> "" -> pathway_lines lines rc <> "".
Proof.
  revert rc. induction lines as [|m lines IH]; intros rc Hrc; [done|].
  cbn [pathway_lines]. destruct (startswith "PATHWAY" m).
  { apply IH. destruct rc; [done|]. by intros ?. }
  destruct (startswith " " m); [|done].
  apply IH. destruct rc; [done|]. by intros ?.
Qed.

(** No text is derived from a response exactly when the first
    occurrence of the word PATHWAY in it, in any case of letters, is
    not in capital letters, or when it has no such occurrence. *)
Lemma derive_empty_iff (record : string) :
  derive record = "" <->
  forall block, search_pathway record = Some block -> startswith "PATHWAY" block = false.
Proof.
  unfold derive. split.
  - intros Hd block Hs. destruct (startswith "PATHWAY" block) eqn:Hcap; [exfalso|done].
    destruct (is_empty record) eqn:He.
    { apply is_empty_true in He. by rewrite He in Hs. }
    rewrite Hs in Hd. destruct (first_line newline block) as (m & ms & r & Hsplit & _).
    rewrite Hsplit in Hd. cbn [pathway_lines] in Hd.
    rewrite (prefix_first_line "PATHWAY" block m ms eq_refl Hcap Hsplit) in Hd.
    revert Hd. apply pathway_lines_grows, append_not_empty, entry_not_empty.
  - intros Hall. destruct (is_empty record); [done|].
    destruct (search_pathway record) as [block|] eqn:Hs; [|done].
    pose proof (Hall block eq_refl) as Hcap. apply found_word in Hs.
    destruct block as [|c b]; [done|].
    cbn [ci_prefix] in Hs. apply andb_true_iff in Hs as [Hc _].
    destruct (first_line newline b) as (m & ms & r & Hsplit & Hb).
    cbn [split]. destruct (ceq c newline) eqn:Hnl.
    { apply Ascii.eqb_eq in Hnl as ->. done. }
    rewrite Hsplit. cbn [pathway_lines].
    destruct (startswith "PATHWAY" (String c m)) eqn:Hm.
    { apply (prefix_mono _ _ r) in Hm.
      change (String c m +:+ r) with (String c (m +:+ r)) in Hm.
      rewrite <- Hb in Hm. congruence. }
    assert (startswith " " (String c m) = false) as ->; [|done].
    unfold startswith. cbn [String.prefix]. destruct (ascii_dec " " c) as [<-|]; done.
Qed.

(** C9, as the code has it.  The derived-text file of an identifier
    is written only when the text derived from its raw response is not
    empty: a lookup that creates the file has derived a text that is
    not empty.  When neither file of [id] is cached and KEGG answers
    with a response from which the empty text is derived, the lookup
    gives the empty text and persists the raw response alone; after
    any number of later lookups, of any identifiers, a lookup of [id]
    gives the empty text again, sends no request and changes nothing.
    The empty text is derived exactly from the responses in which the
    word PATHWAY does not occur in any case of letters or occurs for
    the first time not in capital letters. *)
Theorem kegg_empty_text_is_not_cached (w : world) (id record : string) :
  files w !! cache_file id ".txt" = None ->
  (is_Some (files (kegg_lookup w id).1 !! cache_file id ".txt") ->
   exists raw,
     files (kegg_lookup w id).1 !! cache_file id ".dat" = Some raw /\
     derive raw <> "" /\
     (kegg_lookup w id).2 = Some (strip_last_semicolon (derive raw))) /\
  (files w !! cache_file id ".dat" = None ->
   net (length (requests w)) id = Some record ->
   derive record = "" ->
   let w1 := (kegg_lookup w id).1 in
   (kegg_lookup w id).2 = Some "" /\
   files w1 = <[cache_file id ".dat" := record]> (files w) /\
   requests w1 = requests w ++ [id] /\
   forall later : list string,
     let w2 := after_lookups net dir w1 later in
     kegg_lookup w2 id = (w2, Some "")) /\
  (derive record = "" <->
   forall block, search_pathway record = Some block -> startswith "PATHWAY" block = false).
Proof.
  intros Htxt. split; [by apply kegg_txt_written_when_not_empty|].
  split; [|apply derive_empty_iff].
  intros Hdat Hnet Hrec.
  rewrite (lookup_fetch _ _ _ Htxt Hdat Hnet), (store_empty _ _ _ Hrec). simpl.
  repeat split; try done.
  intros later. apply raw_only_lookup, raw_only_after_lookups.
  split; simpl.
  - rewrite lookup_insert_ne; [done|]. intros H. by apply (txt_is_not_dat id id).
  - exists record. by rewrite lookup_insert_eq.
Qed.

(** A text that was derived and stored is found by the next lookup. *)
Lemma stored_is_cached (w w1 : world) (id record t : string) :
  files w !! cache_file id ".txt" = None ->
  files w !! cache_file id ".dat" = Some record ->
  derive_and_store w (cache_file id ".txt") record = (w1, Some t) ->
  kegg_lookup w1 id = (w1, Some t) /\ requests w1 = requests w.
Proof.
  intros Htxt Hdat. destruct (decide (derive record = "")) as [He|He].
  - rewrite (store_empty _ _ _ He). intros [= <- <-]. split; [|done].
    rewrite (lookup_dat _ _ _ Htxt Hdat). by apply store_empty.
  - rewrite (store_text _ _ _ He). intros [= <- <-]. split; [|done].
    apply lookup_txt. simpl. by rewrite lookup_insert_eq.
Qed.

(** C7, as the code has it.  When the first of two successive lookups
    of [id] gives a text, that is, when it did not end in a failed
    request, the second lookup gives the same text, sends no request
    and leaves the cache as it is; the first sends at most one. *)
Theorem kegg_second_lookup_is_cached (w w1 : world) (id t : string) :
  kegg_lookup w id = (w1, Some t) ->
  kegg_lookup w1 id = (w1, Some t) /\
  length (requests w1) <= S (length (requests w)).
Proof.
  destruct (files w !! cache_file id ".txt") as [rc|] eqn:Htxt.
  { rewrite (lookup_txt _ _ _ Htxt). intros [= <- <-].
    split; [by apply lookup_txt|lia]. }
  destruct (files w !! cache_file id ".dat") as [record|] eqn:Hdat.
  { rewrite (lookup_dat _ _ _ Htxt Hdat). intros H.
    destruct (stored_is_cached _ _ _ _ _ Htxt Hdat H) as [-> ->]. split; [done|lia]. }
  destruct (net (length (requests w)) id) as [record|] eqn:Hnet.
  - rewrite (lookup_fetch _ _ _ Htxt Hdat Hnet). intros H.
    apply stored_is_cached in H as [-> ->]; simpl.
    + split; [done|]. rewrite length_app. simpl. lia.
    + rewrite lookup_insert_ne; [done|]. intros H'. by apply (txt_is_not_dat id id).
    + by rewrite lookup_insert_eq.
  - by rewrite (lookup_failed _ _ Htxt Hdat Hnet).
Qed.

End Cache.

(** C7, witness: the identifier is fetched once, its text is cached. *)
Lemma kegg_second_lookup_is_cached_witness :
  let net := fun (_ : nat) (_ : string) =>
               Some ("PATHWAY     hsa04110  Cell cycle" +:+ String newline "") in
  let w1 := (Kegg.kegg_lookup net "kegg" fresh "hsa:1").1 in
  Kegg.kegg_lookup net "kegg" w1 "hsa:1" = (w1, Some "hsa04110>Cell cycle") /\
  length (requests w1) <= 1.
Proof.
  intros net w1.
  apply (kegg_second_lookup_is_cached net "kegg" fresh w1 "hsa:1" "hsa04110>Cell cycle").
  reflexivity.
Defined.

(** C7, as the specification has it, fails: a failed request leaves no
    file behind, so the next lookup of the identifier sends a second
    request; and the two lookups differ when only the second request is
    answered. *)
Lemma kegg_failed_fetch_is_repeated :
  let w1 := (Kegg.kegg_lookup net_down "kegg" fresh "hsa:1").1 in
  let w2 := (Kegg.kegg_lookup net_down "kegg" w1 "hsa:1").1 in
  requests w2 = ["hsa:1"; "hsa:1"] /\
  let net := fun (n : nat) (_ : string) =>
               if Nat.eqb n 0 then None else Some "PATHWAY     hsa04110  Cell cycle" in
  let v1 := (Kegg.kegg_lookup net "kegg" fresh "hsa:1").1 in
  (Kegg.kegg_lookup net "kegg" fresh "hsa:1").2 = None /\
  (Kegg.kegg_lookup net "kegg" v1 "hsa:1").2 = Some "hsa04110>Cell cycle".
Proof. vm_compute. done. Qed.

(** C9, witness: a gene without pathways, looked up with an empty
    cache. *)
Lemma kegg_empty_text_is_not_cached_witness :
  let w1 := (Kegg.kegg_lookup net_no_pathway "kegg" fresh "hsa:1234").1 in
  (Kegg.kegg_lookup net_no_pathway "kegg" fresh "hsa:1234").2 = Some "" /\
  files w1 = <[Kegg.cache_file "kegg" "hsa:1234" ".dat" :=
                 "ENTRY       1234              CDS       T01001"]> (files fresh) /\
  requests w1 = requests fresh ++ ["hsa:1234"] /\
  forall later : list string,
    let w2 := after_lookups net_no_pathway "kegg" w1 later in
    Kegg.kegg_lookup net_no_pathway "kegg" w2 "hsa:1234" = (w2, Some "").
Proof.
  apply (proj1 (proj2 (kegg_empty_text_is_not_cached net_no_pathway "kegg" fresh "hsa:1234"
                         "ENTRY       1234              CDS       T01001" eq_refl)));
    reflexivity.
Defined.

(** C9, as the specification has it, fails: the response has no
    PATHWAY block, no line of it starts with the key, but the word
    stands in capital letters in the name of the gene; the text from
    this word on is read as a block, a text that is not empty is
    derived, and the lookup writes the derived-text file beside the raw
    response. *)
Lemma kegg_capital_word_is_cached :
  let w1 := (Kegg.kegg_lookup Flat.net_capital_name "kegg" fresh "hsa:9998").1 in
  Flat.no_block Flat.capital_name /\
  files fresh !! Kegg.cache_file "kegg" "hsa:9998" ".txt" = None /\
  files fresh !! Kegg.cache_file "kegg" "hsa:9998" ".dat" = None /\
  (Kegg.kegg_lookup Flat.net_capital_name "kegg" fresh "hsa:9998").2
    = Some "-specific>regulator" /\
  files w1 !! Kegg.cache_file "kegg" "hsa:9998" ".dat" = Some Flat.capital_name /\
  files w1 !! Kegg.cache_file "kegg" "hsa:9998" ".txt" = Some "-specific>regulator".
Proof.
  split; [|vm_compute; done].
  unfold Flat.no_block. apply Forall_forall. intros l Hl.
  vm_compute in Hl. repeat (apply elem_of_cons in Hl as [->|Hl]; [reflexivity|]).
  by apply elem_of_nil in Hl.
Qed.

End KeggFacts.

(** ** The direct-identifier families *)

Module XrefFacts.
Import Py Re Pandas Xrefs PyFacts.

Lemma take_while_all (p : ascii -> bool) (s : string) :
  all_chars p s = true -> take_while p s = s.
Proof.
  induction s as [|c s IH]; simpl; [done|].
  intros [-> H]%andb_true_iff. by rewrite IH.
Qed.

Lemma drop_while_all (p : ascii -> bool) (s : string) :
  all_chars p s = true -> drop_while p s = "".
Proof.
  induction s as [|c s IH]; simpl; [done|].
  intros [-> H]%andb_true_iff. by rewrite IH.
Qed.

(** No version can start before the last period of an identifier. *)
Lemma digits_end_before_period (s ds : string) :
  ds <> "" -> digits_end (s +:+ String "." ds) = None.
Proof.
  intros Hds. unfold digits_end.
  destruct (is_empty (take_while is_digit (s +:+ String "." ds))); [done|].
  induction s as [|c s IH].
  - by destruct ds.
  - change (String c s +:+ String "." ds) with (String c (s +:+ String "." ds)).
    simpl. destruct (is_digit c); [exact IH|].
    by destruct s.
Qed.

(** The version suffix is stripped from an identifier that has one,
    whatever stands before it. *)
Lemma strip_version_suffix (s ds : string) :
  ds <> "" -> all_chars is_digit ds = true ->
  strip_version (s +:+ String "." ds) = s.
Proof.
  intros Hds Hall. induction s as [|c s IH].
  - simpl. unfold digits_end.
    rewrite take_while_all, drop_while_all by done. by destruct ds.
  - change (String c s +:+ String "." ds) with (String c (s +:+ String "." ds)).
    simpl. rewrite IH. destruct (ceq c "."); [|done].
    by rewrite digits_end_before_period.
Qed.

(** C5, as the code has it.  A tuple with the fields that its family
    reads always gives a row, whatever its last field is.  When the
    last field has no bracket, the row is attributed to the primary
    accession.  When it has one, the row is attributed to the id of
    its first bracket, whether or not that id is one of the isoform
    ids of the record (no list of isoform ids is consulted), unless
    that id is the displayed isoform: then the row goes to the primary
    accession. *)
Theorem bracketed_id_labels_the_row (acc : string) (IsoDisplayed : option string) (a b last : string) (more : list string) :
  exists i,
    ensembl_row acc IsoDisplayed (a :: b :: last :: more) =
      Some [Str (strip_version b); Str (strip_version a);
            Str (strip_version (strip_annotation last)); Str i] /\
    refseq_row acc IsoDisplayed (a :: last :: more) =
      Some [Str (strip_version a); Str (strip_version (strip_annotation last)); Str i] /\
    ccds_row acc IsoDisplayed (a :: last :: more) = Some [Str a; Str i] /\
    (findall_brackets last = [] -> i = acc) /\
    (forall y0 ys, findall_brackets last = y0 :: ys ->
       (Some y0 = IsoDisplayed -> i = acc) /\
       (Some y0 <> IsoDisplayed -> i = y0)).
Proof.
  exists (attribute acc IsoDisplayed last).
  split; [done|]. split; [done|]. split; [done|].
  unfold attribute. split.
  - by intros ->.
  - intros y0 ys ->. split; intros Hd.
    + by rewrite bool_decide_eq_true_2.
    + by rewrite bool_decide_eq_false_2.
Qed.

(** C5, as the specification has it, fails: the id in the bracket is
    not an isoform id of the record, and the row is attributed to it
    and not to the primary accession.  In the report of the record the
    Ensembl protein stands on a row of its own, labelled with the
    foreign id, and is missing on the row of the primary accession. *)
Lemma unresolved_id_is_not_the_accession :
  let acc := "P12345" in
  let last := "ENSG00000001.2. [Q99999-3]" in
  let df := Examples.report_of Examples.foreign_isoform in
  Isoforms.isoforms acc Examples.foreign_isoform = Some ([acc], None) /\
  findall_brackets last = ["Q99999-3"] /\
  ("Q99999-3" ∉ [acc]) /\
  attribute acc None last = "Q99999-3" /\
  attribute acc None last <> acc /\
  ensembl_row acc None ["ENST00000001.2"; "ENSP00000001.2"; last] =
    Some [Str "ENSP00000001"; Str "ENST00000001"; Str "ENSG00000001"; Str "Q99999-3"] /\
  Examples.run Examples.foreign_isoform = (Examples.fresh, Some df) /\
  exists row1 row2,
    frows df = [(acc, row1); ("Q99999-3", row2)] /\
    Vocabulary.cell_at df row1 "xref_Ensembl_protId" = Some NaN /\
    Vocabulary.cell_at df row2 "xref_Ensembl_protId" = Some (Str "ENSP00000001").
Proof.
  split; [vm_compute; reflexivity|]. split; [reflexivity|]. split.
  { refine (bool_decide_unpack _ _). vm_compute. exact I. }
  split; [reflexivity|]. split; [discriminate|]. split; [reflexivity|].
  split; [vm_compute; reflexivity|].
  eexists _, _. split; [vm_compute; reflexivity|].
  split; vm_compute; reflexivity.
Qed.

(** C3: the two families that strip versions, and the one that does
    not.  The protein id [ENSP00000123.4] of an Ensembl tuple is emitted
    without its version; the id of a CCDS tuple is emitted as it came. *)
Lemma ccds_keeps_its_version :
  ensembl_row "P12345" None ["ENST00000456.7"; "ENSP00000123.4"; "ENSG00000789.12"] =
    Some [Str "ENSP00000123"; Str "ENST00000456"; Str "ENSG00000789"; Str "P12345"] /\
  refseq_row "P12345" None ["NP_000001.2"; "NM_000001.3"] =
    Some [Str "NP_000001"; Str "NM_000001"; Str "P12345"] /\
  ccds_row "P12345" None ["CCDS12345.1"; "[P12345-1]"] =
    Some [Str "CCDS12345.1"; Str "P12345-1"].
Proof. repeat split; reflexivity. Qed.

End XrefFacts.

(** ** The category extractors *)

Module CatFacts.
Import Py Re Pandas Xrefs Cats PyFacts.

(** In a table whose objects all have their subunits, a complex whose
    subunit string does not have [acc] in it contributes nothing, and
    of the others those that have an identifier and a name are
    formatted, in the order of the file. *)
Lemma corum_mask (complexes : list complex) (acc : string) :
  Forall (fun c => is_Some (subunits c)) complexes ->
  mapM (corum_member acc) complexes =
    Some ((fun c => default false (corum_member acc c)) <$> complexes).
Proof.
  induction complexes as [|c l IH]; intros Hk; [done|].
  apply Forall_cons in Hk as [[u Hu] Hk]. cbn [mapM]. rewrite (IH Hk).
  rewrite fmap_cons. unfold corum_member. by rewrite Hu.
Qed.

Lemma filter_mask {A} (f : A -> bool) (l : list A) :
  fst <$> filter (fun cm : A * bool => Is_true cm.2) (zip l (f <$> l)) =
  filter (fun c => Is_true (f c)) l.
Proof.
  induction l as [|c l IH]; [done|]. cbn [fmap list_fmap zip zip_with].
  rewrite !filter_cons. cbn [snd]. destruct (decide (Is_true (f c))) as [Hc|Hc].
  - cbn [fmap list_fmap fst]. by rewrite <- IH.
  - exact IH.
Qed.

Lemma corum_value_filter (complexes : list complex) (acc : string) :
  Forall (fun c => is_Some (subunits c)) complexes ->
  corum_value (Some complexes) acc =
    Some (join ";" (omap corum_entry
                      (filter (fun c => Is_true (default false (corum_member acc c)))
                              complexes))).
Proof.
  intros Hk. destruct complexes as [|c l]; [done|]. unfold corum_value.
  rewrite (corum_mask _ _ Hk). cbn [mbind option_bind]. cbv zeta.
  by rewrite filter_mask.
Qed.

(** A formatted complex has no semicolon of its own. *)
Lemma replace_char_free (a b : ascii) (s : string) :
  a <> b -> all_chars (fun c => negb (ceq c a)) (replace_char a b s) = true.
Proof.
  intros Hab. induction s as [|c s IH]; simpl; [done|].
  rewrite IH, andb_true_r. unfold ceq.
  destruct (Ascii.eqb_spec c a) as [->|Hc].
  - apply negb_true_iff, Ascii.eqb_neq. congruence.
  - by apply negb_true_iff, Ascii.eqb_neq.
Qed.

Lemma corum_entry_no_semicolon (c : complex) (e : string) :
  corum_entry c = Some e -> all_chars (fun x => negb (ceq x ";")) e = true.
Proof.
  unfold corum_entry. destruct (ComplexID c), (ComplexName c); try done.
  intros [= <-]. by apply replace_char_free.
Qed.

(** C4: the accession [P1B234] is no subunit of complex 7, whose
    subunits are [A0A0P1B234] and [Q99999], and the extractor reports
    complex 7 for it all the same: the subunit string is searched for
    the accession as a piece of text. *)
Lemma corum_matches_part_of_an_accession :
  let table := Some [Complex (Some 7%Z) (Some "Test") (Some "A0A0P1B234;Q99999")] in
  ("P1B234" ∉ split ";" "A0A0P1B234;Q99999") /\
  _extract_cat_corum table [("cat_CORUM", "")] "P1B234" =
    Some (["cat_CORUM"], [[Str "compID_7>Test"]]).
Proof.
  split; [|reflexivity].
  refine (bool_decide_unpack _ _). vm_compute. exact I.
Qed.

(** C8: a semicolon in the evidence of a GO tuple and a semicolon in
    the name of a KEGG pathway reach the output value, where they read
    as delimiters; the semicolon in the GO term is replaced. *)
Lemma semicolons_reach_go_and_kegg_values :
  _extract_cat_go [["GO:0005515"; "F:protein; binding"; "IPI:UniProtKB;IntAct"]]
                  [("cat_GO_C", "C"); ("cat_GO_F", "F"); ("cat_GO_P", "P")] =
    Some (["cat_GO_C"; "cat_GO_F"; "cat_GO_P"],
          [[NaN; Str "GO:0005515>F:protein, binding|IPI:UniProtKB;IntAct"; NaN]]) /\
  Kegg.derive "PATHWAY     hsa04110  Cell cycle; mitosis" = "hsa04110>Cell cycle; mitosis;" /\
  (Kegg.kegg_lookup (fun _ _ => Some "PATHWAY     hsa04110  Cell cycle; mitosis")
                    "kegg" (World ∅ []) "hsa:1").2 = Some "hsa04110>Cell cycle; mitosis".
Proof. repeat split; vm_compute; reflexivity. Qed.

End CatFacts.

(** ** The outer join *)

Module PandasFacts.
Import Py Pandas Vocabulary.

Section Filter.
Context {A : Type} (P : A -> Prop) `{!forall x, Decision (P x)}.

Lemma filter_all (l : list A) : (forall x, x ∈ l -> P x) -> filter P l = l.
Proof.
  induction l as [|x l IH]; intros Hl; [done|].
  rewrite filter_cons_True by (apply Hl; left).
  f_equal. apply IH. intros y Hy. apply Hl. by right.
Qed.

Lemma filter_none (l : list A) : (forall x, x ∈ l -> ~ P x) -> filter P l = [].
Proof.
  induction l as [|x l IH]; intros Hl; [done|].
  rewrite filter_cons_False by (apply Hl; left).
  apply IH. intros y Hy. apply Hl. by right.
Qed.

End Filter.

Lemma elem_of_labels (k : string) (f : frame) :
  k ∈ labels f <-> exists row, (k, row) ∈ frows f.
Proof.
  unfold labels. rewrite list_elem_of_fmap. split.
  - intros ([k' row] & -> & H). by exists row.
  - intros [row H]. by exists (k, row).
Qed.

Lemma elem_of_rows_at (k : string) (row : list cell) (f : frame) :
  row ∈ rows_at k f <-> (k, row) ∈ frows f.
Proof.
  unfold rows_at. rewrite list_elem_of_fmap. split.
  - intros ([k' row'] & -> & [Hk H]%list_elem_of_filter). simpl in Hk. by subst.
  - intros H. exists (k, row). split; [done|]. by apply list_elem_of_filter.
Qed.

Lemma rows_at_nil (k : string) (f : frame) :
  rows_at k f = [] <-> k ∉ labels f.
Proof.
  rewrite elem_of_labels. split.
  - intros H [row Hrow%elem_of_rows_at]. rewrite H in Hrow. by apply not_elem_of_nil in Hrow.
  - intros H. destruct (rows_at k f) as [|row rows] eqn:E; [done|].
    exfalso. apply H. exists row. apply elem_of_rows_at. rewrite E. by left.
Qed.

Lemma elem_of_join_labels (k : string) (l r : frame) :
  k ∈ join_labels l r <-> k ∈ labels l \/ k ∈ labels r.
Proof.
  unfold join_labels.
  destruct (bool_decide (labels l = labels r) && bool_decide (NoDup (labels l))) eqn:E.
  - apply andb_prop in E as [E _]. apply bool_decide_eq_true in E.
    rewrite <- E. tauto.
  - rewrite merge_sort_Permutation, elem_of_remove_dups. apply elem_of_app.
Qed.

Lemma NoDup_join_labels (l r : frame) : NoDup (join_labels l r).
Proof.
  unfold join_labels.
  destruct (bool_decide (labels l = labels r) && bool_decide (NoDup (labels l))) eqn:E.
  - apply andb_prop in E as [_ E]. by apply bool_decide_eq_true in E.
  - rewrite merge_sort_Permutation. apply NoDup_remove_dups.
Qed.

(** The rows that a label gives in the join, one case at a time. *)
Lemma join_at_left_only (l r : frame) (k : string) :
  rows_at k r = [] ->
  join_at l r k = (fun x => (k, x ++ nans r)) <$> rows_at k l.
Proof.
  unfold join_at. intros ->. by destruct (rows_at k l).
Qed.

Lemma join_at_right_only (l r : frame) (k : string) :
  rows_at k l = [] ->
  join_at l r k = (fun y => (k, nans l ++ y)) <$> rows_at k r.
Proof. unfold join_at. by intros ->. Qed.

Lemma join_at_both (l r : frame) (k : string) :
  rows_at k l <> [] -> rows_at k r <> [] ->
  join_at l r k = x ← rows_at k l; y ← rows_at k r; [(k, x ++ y)].
Proof.
  unfold join_at. intros Hl Hr.
  destruct (rows_at k l); [done|]. by destruct (rows_at k r).
Qed.

Lemma join_at_label (l r : frame) (k k' : string) (row : list cell) :
  (k', row) ∈ join_at l r k -> k' = k.
Proof.
  destruct (decide (rows_at k l = [])) as [Hl|Hl].
  { rewrite (join_at_right_only _ _ _ Hl).
    intros (y & [= -> ->] & _)%list_elem_of_fmap. done. }
  destruct (decide (rows_at k r = [])) as [Hr|Hr].
  { rewrite (join_at_left_only _ _ _ Hr).
    intros (x & [= -> ->] & _)%list_elem_of_fmap. done. }
  rewrite (join_at_both _ _ _ Hl Hr).
  intros (x & (y & H%list_elem_of_singleton & _)%list_elem_of_bind & _)%list_elem_of_bind.
  by injection H.
Qed.

(** The rows of one label among the rows that a list of distinct
    labels gives. *)
Lemma filter_bind_label (g : string -> list (string * list cell)) (keys : list string) (k : string) :
  (forall k' x, x ∈ g k' -> x.1 = k') ->
  NoDup keys ->
  filter (fun x : string * list cell => x.1 = k) (keys ≫= g) =
    if bool_decide (k ∈ keys) then g k else [].
Proof.
  intros Hg. induction 1 as [|k0 keys Hk0 Hnd IH]; [done|].
  change ((k0 :: keys) ≫= g) with (g k0 ++ (keys ≫= g)).
  rewrite filter_app, IH.
  destruct (decide (k0 = k)) as [->|Hne].
  - rewrite (bool_decide_eq_true_2 (k ∈ k :: keys)) by left.
    rewrite (bool_decide_eq_false_2 (k ∈ keys)) by done.
    rewrite app_nil_r. apply filter_all. intros x Hx. by apply (Hg k).
  - assert (filter (fun x : string * list cell => x.1 = k) (g k0) = []) as ->.
    { apply filter_none. intros x Hx ?.
      apply Hne. by rewrite <- (Hg k0 x Hx). }
    simpl. rewrite (bool_decide_ext (k ∈ k0 :: keys) (k ∈ keys)); [done|].
    rewrite elem_of_cons. split; [intros [->|?]; done|by right].
Qed.


Lemma length_pairs (k : string) (xs ys : list (list cell)) :
  length (x ← xs; y ← ys; [(k, x ++ y)]) = length xs * length ys.
Proof.
  induction xs as [|x xs IH]; [done|].
  rewrite bind_cons, length_app, IH. simpl. f_equal. clear IH.
  induction ys as [|y ys IHy]; [done|].
  rewrite bind_cons, length_app, IHy. done.
Qed.

Lemma member_spec (c : string) (l : list string) : member c l = true <-> c ∈ l.
Proof.
  unfold member. rewrite existsb_exists. split.
  - intros (x & Hx%list_elem_of_In & ->%String.eqb_eq). done.
  - intros Hc. exists c. split; [by apply list_elem_of_In|apply String.eqb_refl].
Qed.

(** Two frames without a common column can be joined. *)
Lemma join_outer_returns (l r : frame) :
  (forall c, c ∈ fcols l -> c ∉ fcols r) -> is_Some (join_outer l r).
Proof.
  intros Hapart. unfold join_outer.
  destruct (overlap l r) eqn:E; [|by eexists].
  unfold overlap in E. apply existsb_exists in E as (c & Hc%list_elem_of_In & Hm).
  apply member_spec in Hm. by destruct (Hapart c Hc).
Qed.

Section Join.

Variables (l r f : frame).
Hypothesis Hjoin : join_outer l r = Some f.

Lemma join_columns : fcols f = fcols l ++ fcols r.
Proof.
  unfold join_outer in Hjoin. destruct (overlap l r); [done|]. by injection Hjoin as <-.
Qed.

Lemma join_rows : frows f = join_labels l r ≫= join_at l r.
Proof.
  unfold join_outer in Hjoin. destruct (overlap l r); [done|]. by injection Hjoin as <-.
Qed.

(** The rows that the join has for a label. *)
Lemma rows_at_join (k : string) :
  rows_at k f = snd <$> join_at l r k.
Proof.
  unfold rows_at at 1. rewrite join_rows.
  rewrite filter_bind_label;
    [|by intros k' [??] ?%join_at_label|apply NoDup_join_labels].
  case_bool_decide as Hk; [done|].
  rewrite elem_of_join_labels in Hk.
  rewrite join_at_left_only by (apply rows_at_nil; tauto).
  assert (rows_at k l = []) as -> by (apply rows_at_nil; tauto). done.
Qed.

(** Their number: the product of the numbers of rows that the two
    frames have for the label, where an absent side counts for one. *)
Lemma length_rows_at_join (k : string) :
  length (rows_at k f) =
    match length (rows_at k l), length (rows_at k r) with
    | 0, n => n
    | m, 0 => m
    | m, n => m * n
    end.
Proof.
  rewrite rows_at_join, length_fmap.
  destruct (decide (rows_at k l = [])) as [Hl|Hl].
  { rewrite (join_at_right_only _ _ _ Hl), Hl, length_fmap. done. }
  destruct (decide (rows_at k r = [])) as [Hr|Hr].
  { rewrite (join_at_left_only _ _ _ Hr), Hr, length_fmap.
    by destruct (rows_at k l). }
  rewrite (join_at_both _ _ _ Hl Hr).
  rewrite length_pairs.
  destruct (rows_at k l) as [|? ?]; [done|].
  destruct (rows_at k r) as [|? ?]; [done|]. done.
Qed.

(** A label of the left frame is a label of the join. *)
Lemma join_keeps_labels (k : string) : k ∈ labels l -> k ∈ labels f.
Proof.
  intros Hl. destruct (decide (k ∈ labels f)) as [|Hf]; [done|exfalso].
  apply rows_at_nil in Hf. apply (f_equal length) in Hf.
  rewrite length_rows_at_join in Hf.
  destruct (rows_at k l) eqn:E; [by apply rows_at_nil in E|].
  simpl in Hf. destruct (length (rows_at k r)); simpl in Hf; lia.
Qed.

(** A row of the join: a left row and a right row of one label, or a
    row of one side continued with missing values. *)
Lemma elem_of_join_rows (k : string) (row : list cell) :
  (k, row) ∈ frows f ->
  (exists x y, (k, x) ∈ frows l /\ (k, y) ∈ frows r /\ row = x ++ y) \/
  (exists x, (k, x) ∈ frows l /\ (k ∉ labels r) /\ row = x ++ nans r) \/
  (exists y, (k, y) ∈ frows r /\ (k ∉ labels l) /\ row = nans l ++ y).
Proof.
  rewrite join_rows. intros (k' & H & _)%list_elem_of_bind.
  pose proof (join_at_label _ _ _ _ _ H) as ->. revert H.
  destruct (decide (rows_at k' l = [])) as [Hl|Hl].
  { rewrite (join_at_right_only _ _ _ Hl).
    intros (y & [= ->] & Hy%elem_of_rows_at)%list_elem_of_fmap.
    right; right. exists y. by rewrite <- rows_at_nil. }
  destruct (decide (rows_at k' r = [])) as [Hr|Hr].
  { rewrite (join_at_left_only _ _ _ Hr).
    intros (x & [= ->] & Hx%elem_of_rows_at)%list_elem_of_fmap.
    right; left. exists x. by rewrite <- rows_at_nil. }
  rewrite (join_at_both _ _ _ Hl Hr).
  intros (x & (y & [= ->]%list_elem_of_singleton & Hy%elem_of_rows_at)%list_elem_of_bind
            & Hx%elem_of_rows_at)%list_elem_of_bind.
  left. by exists x, y.
Qed.

(** The join of two rectangular frames is rectangular. *)
Lemma join_rectangular : rectangular l -> rectangular r -> rectangular f.
Proof.
  unfold rectangular. rewrite !Forall_forall. intros Hl Hr [k row] Hrow. simpl.
  rewrite join_columns, length_app.
  apply elem_of_join_rows in Hrow
    as [(x & y & Hx & Hy & ->)|[(x & Hx & _ & ->)|(y & Hy & _ & ->)]];
    rewrite length_app; unfold nans; rewrite ?length_replicate.
  - specialize (Hl _ Hx). specialize (Hr _ Hy). simpl in *. lia.
  - specialize (Hl _ Hx). simpl in *. lia.
  - specialize (Hr _ Hy). simpl in *. lia.
Qed.

End Join.

End PandasFacts.

(** ** The isoform expander and the base table *)

Module BaseFacts.
Import Py Re Pandas Isoforms Vocabulary PandasFacts Report Examples.

Lemma rows_of_arrays_spec (n : nat) (arrays : list (list cell)) :
  Forall (fun a => length a = n) arrays ->
  rows_of_arrays n arrays =
    Some ((fun j => (fun a : list cell => default NaN (a !! j)) <$> arrays) <$> seq 0 n).
Proof.
  intros Hlen. unfold rows_of_arrays.
  assert (forallb (fun a : list cell => Nat.eqb (length a) n) arrays = true) as ->.
  { apply forallb_forall. intros a Ha%list_elem_of_In.
    apply Nat.eqb_eq. by apply (proj1 (Forall_forall _ _) Hlen). }
  apply mapM_Some_2, Forall2_fmap_r, Forall_Forall2_diag, Forall_forall.
  intros j Hj%elem_of_seq. apply mapM_Some_2, Forall2_fmap_r, Forall_Forall2_diag.
  eapply Forall_impl; [exact Hlen|]. intros a Ha. simpl in Ha. unfold compose.
  destruct (a !! j) as [c|] eqn:E; [done|]. apply lookup_ge_None in E. lia.
Qed.

Lemma seq_lookup_eq {A} (d : A) (l : list A) :
  (fun j => default d (l !! j)) <$> seq 0 (length l) = l.
Proof.
  apply list_eq. intros j. rewrite list_lookup_fmap.
  destruct (decide (j < length l)) as [Hj|Hj].
  - rewrite lookup_seq_lt by done. simpl.
    destruct (l !! j) eqn:E; [done|]. apply lookup_ge_None in E. lia.
  - rewrite lookup_seq_ge by lia. simpl. symmetry. apply lookup_ge_None. lia.
Qed.

Lemma mapM_fmap_seq {A B} (f : A -> option B) (g : nat -> A) (h : nat -> B) (n : nat) :
  (forall j, j < n -> f (g j) = Some (h j)) ->
  mapM f (g <$> seq 0 n) = Some (h <$> seq 0 n).
Proof.
  intros H. apply mapM_Some_2, Forall2_fmap, Forall_Forall2_diag, Forall_forall.
  intros j Hj%elem_of_seq. apply H. lia.
Qed.

Lemma length_np_array (l : list cell) : length (np_array l) = length l.
Proof. unfold np_array. destruct (existsb is_str l); by rewrite ?length_fmap. Qed.

Lemma np_array_strings (l : list string) : np_array (Str <$> l) = Str <$> l.
Proof.
  unfold np_array. destruct (existsb is_str (Str <$> l)); [|done].
  rewrite <- list_fmap_compose. done.
Qed.

(** The base table of a record: one row per isoform id, in the order
    of the ids, each with the scalar fields of the record. *)
Lemma base_table_spec (self : creator) (r : record) (ids : list string) :
  ids <> [] ->
  exists df1,
    base_table self r ids = Some df1 /\
    fcols df1 = base_columns /\
    labels df1 = ids /\
    forall k row, (k, row) ∈ frows df1 ->
      exists L C, row = [Str (entry_name r); Str (Parser.gene_of r);
                         Str (Parser.species_of r); L; Str (Parser.dsc_of r); C;
                         Str (data_class r)].
Proof.
  intros Hids. unfold base_table.
  set (Cs := comms_of _ _). set (Ls := lengths_of _ _).
  assert (length Cs = length ids) as HCs by (unfold Cs, comms_of; by rewrite length_fmap).
  assert (length Ls = length ids) as HLs by (unfold Ls, lengths_of; by rewrite length_fmap).
  cbn -[np_array replicate].
  rewrite !app_nil_r, Nat.add_0_r, !length_fmap, np_array_strings.
  rewrite rows_of_arrays_spec.
  2:{ repeat apply Forall_cons_2; try apply Forall_nil_2;
        rewrite ?length_replicate, ?length_np_array, ?length_fmap; done. }
  destruct (length ids) as [|m] eqn:Hn; [by destruct ids|].
  rewrite <- Hn. cbn -[np_array replicate seq].
  rewrite (mapM_fmap_seq _ _
             (fun j => (default "" (ids !! j),
                        [Str (entry_name r); Str (Parser.gene_of r);
                         Str (Parser.species_of r); default NaN (np_array Ls !! j);
                         Str (Parser.dsc_of r); default NaN (np_array Cs !! j);
                         Str (data_class r)]))).
  2:{ intros j Hj. cbn. rewrite list_lookup_fmap, !lookup_replicate_2 by done.
      destruct (ids !! j) as [i|] eqn:E; [done|]. apply lookup_ge_None in E. lia. }
  eexists. split; [reflexivity|]. simpl. split; [done|]. split.
  - unfold labels. simpl. rewrite <- list_fmap_compose. apply (seq_lookup_eq "" ids).
  - intros k row (j & [= -> ->] & _)%list_elem_of_fmap. eauto.
Qed.

Lemma base_table_rectangular (self : creator) (r : record) (ids : list string) (df1 : frame) :
  ids <> [] -> base_table self r ids = Some df1 -> rectangular df1.
Proof.
  intros Hids Hdf. destruct (base_table_spec self r ids Hids) as (df & Hdf' & Hc & _ & Hrows).
  rewrite Hdf in Hdf'. injection Hdf' as <-.
  unfold rectangular. apply Forall_forall. intros [k row] Hrow.
  destruct (Hrows _ _ Hrow) as (L & C & ->). by rewrite Hc.
Qed.

(** The pairs are read when no field [IsoId=] stands last. *)
Lemma isoid_pairs_total (ap : list string) :
  (forall a, last ap = Some a -> startswith "IsoId=" a = false) ->
  is_Some (isoid_pairs ap).
Proof.
  induction ap as [|a [|b rest] IH]; intros Hlast; [by eexists|..].
  - simpl. rewrite (Hlast a) by done. by eexists.
  - destruct IH as [x Hx]; [intros a'; apply Hlast|].
    change (isoid_pairs (a :: b :: rest)) with
      (if startswith "IsoId=" a
       then x ← isoid_pairs (b :: rest);
            Some ((remove "IsoId=" a, remove "Sequence=" b) :: x)
       else isoid_pairs (b :: rest)).
    rewrite Hx. destruct (startswith "IsoId=" a); by eexists.
Qed.

(** The variant ids that the expander keeps are as many as the
    isoforms with a variant sequence that the comment declares. *)
Lemma variant_ids_count (ap : list string) (x : list (string * string)) :
  isoid_pairs ap = Some x ->
  length (variant_ids (first_ids x)) = declared_variants ap.
Proof.
  revert x. induction ap as [|a [|b rest] IH]; intros x.
  - by intros [= <-].
  - simpl. destruct (startswith "IsoId=" a); [done|]. by intros [= <-].
  - change (isoid_pairs (a :: b :: rest)) with
      (if startswith "IsoId=" a
       then x ← isoid_pairs (b :: rest);
            Some ((remove "IsoId=" a, remove "Sequence=" b) :: x)
       else isoid_pairs (b :: rest)).
    change (declared_variants (a :: b :: rest)) with
      ((if startswith "IsoId=" a &&
           startswith "VSP_" (upto_comma (remove "Sequence=" b))
        then 1 else 0) + declared_variants (b :: rest)).
    destruct (startswith "IsoId=" a).
    + rewrite andb_true_l.
      destruct (isoid_pairs (b :: rest)) as [x'|] eqn:Hx'; intros H; simpl in H; [|done].
      injection H as <-. rewrite <- (IH x' eq_refl).
      unfold variant_ids, first_ids. rewrite fmap_cons, filter_cons. simpl.
      destruct (startswith "VSP_" (upto_comma (remove "Sequence=" b))); reflexivity.
    + rewrite andb_false_l. apply IH.
Qed.

(** An id that was truncated at its first comma has no comma. *)
Lemma upto_comma_no_comma (s : string) :
  all_chars (fun c => negb (ceq c ",")) (upto_comma s) = true.
Proof.
  unfold upto_comma. induction s as [|c s IH]; simpl; [done|].
  destruct (negb (ceq c ",")) eqn:E; simpl; [by rewrite E|done].
Qed.

Lemma variant_ids_no_comma (x : list (string * string)) :
  Forall (fun i => all_chars (fun c => negb (ceq c ",")) i = true) (variant_ids (first_ids x)).
Proof.
  apply Forall_forall. unfold variant_ids, first_ids.
  intros i ([i' s] & -> & [_ ([y s'] & [= -> ->] & _)%list_elem_of_fmap]%list_elem_of_filter)%list_elem_of_fmap.
  apply upto_comma_no_comma.
Qed.

(** C6, as the code has it.  A record without an alternative-products
    comment has the isoform ids [[acc]], no displayed isoform and a base
    table of one row.  For a record whose first alternative-products
    comment declares K isoforms with a variant sequence, no field
    [IsoId=] standing last, the isoform ids are the accession followed
    by the K variant ids, each cut at its first comma, and the base
    table has exactly K+1 rows, labelled with these ids in this order.
    The ids of the rows are distinct when these K+1 ids are: the
    expander does not remove an id that is declared twice. *)
Theorem isoform_expansion (self : creator) (r : record) (acc : string) :
  (altprod r = [] ->
   isoforms acc r = Some ([acc], None) /\
   exists df1, base_table self r [acc] = Some df1 /\ labels df1 = [acc]) /\
  (forall c rest,
     altprod r = c :: rest ->
     (forall a, last (split_semicolons c) = Some a -> startswith "IsoId=" a = false) ->
     exists x df1,
       isoid_pairs (split_semicolons c) = Some x /\
       isoforms acc r = Some (acc :: variant_ids (first_ids x),
                              head (displayed_ids (first_ids x))) /\
       base_table self r (acc :: variant_ids (first_ids x)) = Some df1 /\
       labels df1 = acc :: variant_ids (first_ids x) /\
       length (frows df1) = S (declared_variants (split_semicolons c)) /\
       Forall (fun i => all_chars (fun c => negb (ceq c ",")) i = true)
              (variant_ids (first_ids x)) /\
       (NoDup (acc :: variant_ids (first_ids x)) -> NoDup (labels df1))).
Proof.
  split.
  - intros Hnone. unfold isoforms. rewrite Hnone. split; [done|].
    destruct (base_table_spec self r [acc]) as (df1 & ? & _ & ? & _); [done|].
    by exists df1.
  - intros c rest Hc Hlast.
    destruct (isoid_pairs_total _ Hlast) as [x Hx].
    destruct (base_table_spec self r (acc :: variant_ids (first_ids x)))
      as (df1 & Hdf & _ & Hlabels & _); [done|].
    exists x, df1. repeat split; try done.
    + unfold isoforms. rewrite Hc, Hx. done.
    + rewrite <- (variant_ids_count _ _ Hx).
      apply (f_equal length) in Hlabels. unfold labels in Hlabels.
      rewrite length_fmap in Hlabels. done.
    + apply variant_ids_no_comma.
    + by rewrite Hlabels.
Qed.

(** C6, witness: a record with the displayed isoform and two variant
    isoforms, one of them declared with two ids. *)
Lemma isoform_expansion_witness :
  declared_variants (split_semicolons two_variants_comment) = 2 /\
  exists x df1,
    isoid_pairs (split_semicolons two_variants_comment) = Some x /\
    isoforms "P12345" two_variants = Some ("P12345" :: variant_ids (first_ids x),
                                           head (displayed_ids (first_ids x))) /\
    base_table self0 two_variants ("P12345" :: variant_ids (first_ids x)) = Some df1 /\
    labels df1 = "P12345" :: variant_ids (first_ids x) /\
    length (frows df1) = S (declared_variants (split_semicolons two_variants_comment)) /\
    Forall (fun i => all_chars (fun c => negb (ceq c ",")) i = true)
           (variant_ids (first_ids x)) /\
    (NoDup ("P12345" :: variant_ids (first_ids x)) -> NoDup (labels df1)).
Proof.
  split; [vm_compute; reflexivity|].
  apply (proj2 (isoform_expansion self0 two_variants "P12345") two_variants_comment []).
  - vm_compute. reflexivity.
  - intros a H. vm_compute in H. injection H as <-. reflexivity.
Defined.

(** C6, as the specification has it, fails: the comment declares the
    isoform P12345-2 twice, and two of the three rows of the base table
    carry this id. *)
Lemma repeated_isoform_rows_share_an_id :
  isoforms "P12345" repeated_isoform = Some (["P12345"; "P12345-2"; "P12345-2"], None) /\
  declared_variants (split_semicolons (default "" (head (altprod repeated_isoform)))) = 2 /\
  exists df1,
    base_table self0 repeated_isoform ["P12345"; "P12345-2"; "P12345-2"] = Some df1 /\
    labels df1 = ["P12345"; "P12345-2"; "P12345-2"] /\
    ~ NoDup (labels df1).
Proof.
  split; [vm_compute; reflexivity|]. split; [vm_compute; reflexivity|].
  destruct (base_table_spec self0 repeated_isoform ["P12345"; "P12345-2"; "P12345-2"])
    as (df1 & Hdf & _ & Hlabels & _); [done|].
  exists df1. repeat split; [done..|]. rewrite Hlabels.
  intros Hnd. apply NoDup_cons in Hnd as [_ Hnd]. apply NoDup_cons in Hnd as [Hin _].
  apply Hin. by left.
Qed.

End BaseFacts.

(** ** The partial tables *)

Module PartFacts.
Import Py Re Pandas Isoforms Xrefs Cats Vocabulary PandasFacts Report.

(** *** The dictionary [rcross] *)

Lemma rcross_snoc (names : list string) (refs : list xref) (x : xref) :
  rcross_of names (refs ++ [x]) =
    if decide (xdb x ∈ names)
    then <[xdb x := default [] (rcross_of names refs !! xdb x) ++ [xfields x]]>
           (rcross_of names refs)
    else rcross_of names refs.
Proof.
  unfold rcross_of. rewrite filter_app, filter_cons, filter_nil.
  destruct (decide (xdb x ∈ names)); [|by rewrite app_nil_r].
  by rewrite foldl_snoc.
Qed.

(** The dictionary maps a database of [names] to its tuples, in the
    order of the record, and has no entry for a database without
    tuples. *)
Lemma rcross_lookup (names : list string) (refs : list xref) (db : string) :
  db ∈ names ->
  rcross_of names refs !! db =
    nonempty (xfields <$> filter (fun x : xref => xdb x = db) refs).
Proof.
  intros Hdb. induction refs as [|x refs IH] using rev_ind; [done|].
  rewrite rcross_snoc, filter_app, fmap_app, filter_cons, filter_nil.
  destruct (decide (xdb x = db)) as [Hx|Hx].
  - rewrite decide_True by congruence. rewrite Hx, lookup_insert_eq, IH. simpl.
    destruct (xfields <$> filter _ refs); done.
  - rewrite app_nil_r, <- IH.
    destruct (decide (xdb x ∈ names)); [|done]. by rewrite lookup_insert_ne.
Qed.

Lemma rcross_tuples (names : list string) (record : record) (db : string) :
  db ∈ names ->
  rcross_of names (cross_references record) !! db = nonempty (tuples_of record db).
Proof. apply rcross_lookup. Qed.

Lemma tuples_refers (record : record) (db : string) :
  tuples_of record db <> [] -> refers_to record db.
Proof.
  unfold tuples_of, refers_to. intros H.
  destruct (filter _ _) as [|x l] eqn:E; [done|].
  assert (x ∈ filter (fun x : xref => xdb x = db) (cross_references record)) as Hx
    by (rewrite E; left).
  apply list_elem_of_filter in Hx as [<- Hx]. by apply list_elem_of_fmap_2.
Qed.

(** *** A table whose last column holds the labels *)

Lemma index_of_last (cs : list string) :
  XID ∉ cs -> index_of XID (cs ++ [XID]) = Some (length cs).
Proof.
  induction cs as [|c cs IH]; intros Hc; [done|]. simpl.
  apply not_elem_of_cons in Hc as [Hne Hc]. unfold str_eq.
  destruct (String.eqb_spec c XID) as [->|_]; [done|]. by rewrite IH.
Qed.

Lemma set_index_last (cs : list string) (rows : list (list cell)) (pairs : list (string * list cell)) :
  XID ∉ cs -> labelled cs rows pairs ->
  set_index (Table (cs ++ [XID]) rows) XID = Some (Frame cs pairs).
Proof.
  intros Hc Hrows. unfold set_index. simpl. rewrite (index_of_last _ Hc). simpl.
  assert (mapM (fun row : list cell =>
                  k ← row !! length cs ≫= label; Some (k, delete (length cs) row)) rows
          = Some pairs) as ->.
  { apply mapM_Some_2. eapply Forall2_impl; [exact Hrows|].
    intros row [k cells] [-> Hlen]. simpl in *.
    rewrite lookup_app_r by lia. rewrite Hlen, Nat.sub_diag. simpl.
    by rewrite <- Hlen, delete_middle, app_nil_r. }
  simpl. by rewrite delete_middle, app_nil_r.
Qed.

Lemma labelled_rectangular (cs : list string) (rows : list (list cell)) (pairs : list (string * list cell)) :
  labelled cs rows pairs -> rectangular (Frame cs pairs).
Proof.
  unfold rectangular. simpl. intros H. apply Forall_forall. intros p Hp.
  apply (Forall2_Forall_r _ (fun p : string * list cell => length p.2 = length cs))
    in H; [by apply (proj1 (Forall_forall _ _) H)|].
  apply Forall_forall. by intros ??? [_ ?].
Qed.

Lemma labelled_DataFrame (cs : list string) (rows : list (list cell)) (pairs : list (string * list cell)) :
  labelled cs rows pairs ->
  DataFrame (cs ++ [XID]) rows = Some (Table (cs ++ [XID]) rows).
Proof.
  intros H. unfold DataFrame.
  assert (forallb (fun row : list cell => Nat.eqb (length row) (length (cs ++ [XID]))) rows = true) as ->; [|done].
  apply forallb_forall. intros row Hrow%list_elem_of_In. apply Nat.eqb_eq.
  apply (Forall2_Forall_l _ (fun row : list cell => length row = length (cs ++ [XID])))
    in H; [by apply (proj1 (Forall_forall _ _) H)|].
  apply Forall_forall. intros ? _ p [-> Hlen]. rewrite !length_app, Hlen. done.
Qed.

(** Such a table has a value in every row. *)
Lemma labelled_dropna (cs : list string) (rows : list (list cell)) (pairs : list (string * list cell)) :
  labelled cs rows pairs ->
  dropna_all (Table (cs ++ [XID]) rows) = Table (cs ++ [XID]) rows.
Proof.
  intros H. unfold dropna_all. simpl. f_equal. apply filter_all.
  intros row Hrow.
  apply (Forall2_Forall_l _ (fun row : list cell => all_nan row = false))
    in H; [by rewrite (proj1 (Forall_forall _ _) H row Hrow)|].
  apply Forall_forall. intros ? _ p [-> _]. unfold all_nan.
  rewrite forallb_app. simpl. by rewrite andb_false_r.
Qed.

Lemma labelled_column (cs : list string) (rows : list (list cell)) (pairs : list (string * list cell)) :
  XID ∉ cs -> labelled cs rows pairs ->
  column (Table (cs ++ [XID]) rows) XID = Some ((fun p : string * list cell => Str p.1) <$> pairs).
Proof.
  intros Hc H. unfold column. simpl. rewrite (index_of_last _ Hc). simpl.
  apply mapM_Some_2, Forall2_fmap_r. eapply Forall2_impl; [exact H|].
  intros row p [-> Hlen]. rewrite lookup_app_r by lia.
  by rewrite Hlen, Nat.sub_diag.
Qed.

(** *** The partial frame of a direct-identifier family *)

(** Two lists that agree on a property item by item have as many
    items with it. *)
Lemma filter_length_Forall2 {A B} (P : A -> Prop) (Q : B -> Prop)
    `{!forall x, Decision (P x)} `{!forall y, Decision (Q y)} (l1 : list A) (l2 : list B) :
  Forall2 (fun a b => P a <-> Q b) l1 l2 ->
  length (filter P l1) = length (filter Q l2).
Proof.
  induction 1 as [|a b l1 l2 Hab _ IH]; [done|].
  rewrite !filter_cons. destruct (decide (P a)), (decide (Q b)); simpl; tauto || lia.
Qed.

Lemma attributed_tuples (acc : string) (disp : option string) (record : record) (db k : string) :
  attributed acc disp record db k =
    length (filter (fun rcont => attribute acc disp <$> bracket_field db rcont = Some k)
                   (tuples_of record db)).
Proof.
  unfold attributed, tuples_of.
  induction (cross_references record) as [|x refs IH]; [done|].
  rewrite !filter_cons. destruct (decide (xdb x = db)) as [Hx|Hx].
  - rewrite fmap_cons, filter_cons.
    destruct (decide (attribute acc disp <$> bracket_field db (xfields x) = Some k)).
    + rewrite decide_True by done. simpl. by rewrite IH.
    + rewrite decide_False by tauto. done.
  - rewrite decide_False by tauto. done.
Qed.

Section Family.

Variables (acc : string) (IsoIds : list string) (IsoDisplayed : option string).
Variable record : record.
Variables (db : string) (cs : list string).
Variable row_of : list string -> option (list cell).

Hypothesis family : db ∈ fst <$> XTERMS.
Hypothesis no_label : XID ∉ cs.
Hypothesis rows_of_family :
  forall rconts, xref_rows acc IsoDisplayed db rconts = mapM row_of rconts.
Hypothesis row_shape :
  forall rcont row, row_of rcont = Some row ->
    exists cells field,
      bracket_field db rcont = Some field /\
      row = cells ++ [Str (attribute acc IsoDisplayed field)] /\
      length cells = length cs.

Lemma family_rows (rconts : list (list string)) (xvals : list (list cell)) :
  mapM row_of rconts = Some xvals ->
  exists pairs,
    labelled cs xvals pairs /\
    Forall2 (fun rcont (p : string * list cell) =>
               attribute acc IsoDisplayed <$> bracket_field db rcont = Some p.1)
            rconts pairs.
Proof.
  intros H%mapM_Some_1. induction H as [|rcont row rconts xvals Hrow _ IH].
  - exists []. split; constructor.
  - destruct IH as (pairs & Hl & Ha).
    destruct (row_shape _ _ Hrow) as (cells & field & Hf & -> & Hlen).
    exists ((attribute acc IsoDisplayed field, cells) :: pairs). split.
    + by constructor.
    + constructor; [|done]. by rewrite Hf.
Qed.

Lemma absent_family_table :
  tuples_of record db = [] ->
  xterm_table acc IsoDisplayed
    (rcross_of (fst <$> XTERMS) (cross_references record)) (db, cs ++ [XID]) =
    Some (Table (cs ++ [XID]) [(fun _ => NaN) <$> cs ++ [XID]]).
Proof.
  intros Ht. unfold xterm_table. simpl. rewrite (rcross_tuples _ _ _ family), Ht. simpl.
  assert (one_row ((fun _ => NaN) <$> cs ++ [XID]) = [(fun _ => NaN) <$> cs ++ [XID]]) as ->.
  { rewrite fmap_app. by destruct ((fun _ => NaN) <$> cs). }
  unfold DataFrame. simpl. by rewrite length_fmap, Nat.eqb_refl.
Qed.

Lemma all_nan_row {A} (cols : list A) : all_nan ((fun _ => NaN) <$> cols) = true.
Proof. unfold all_nan. by induction cols. Qed.

(** A table of one row of missing values is empty once that row is
    dropped. *)
Lemma absent_table_is_empty {A} (cols : list string) (xs : list A) :
  empty (dropna_all (Table cols [(fun _ => NaN) <$> xs])) = true.
Proof.
  unfold dropna_all. simpl. rewrite filter_cons_False, filter_nil.
  - unfold empty. simpl. by destruct cols.
  - rewrite all_nan_row. simpl. tauto.
Qed.

Lemma join_xterm_family (df1 df' : frame) :
  join_xterm acc IsoIds IsoDisplayed
    (rcross_of (fst <$> XTERMS) (cross_references record)) df1 (db, cs ++ [XID]) = Some df' ->
  (df' = df1 /\ tuples_of record db = []) \/
  (exists df2, join_outer df1 df2 = Some df' /\
               xpart acc IsoDisplayed record (db, cs ++ [XID]) df2).
Proof.
  unfold join_xterm.
  destruct (decide (tuples_of record db = [])) as [Ht|Ht].
  { rewrite (absent_family_table Ht). simpl. rewrite absent_table_is_empty.
    intros [= <-]. by left. }
  unfold xterm_table. simpl. rewrite (rcross_tuples _ _ _ family).
  destruct (tuples_of record db) as [|rcont rconts] eqn:Hrconts; [done|]. simpl.
  rewrite rows_of_family.
  destruct (mapM row_of (rcont :: rconts)) as [xvals|] eqn:Hrows; [|done]. simpl.
  destruct (family_rows _ _ Hrows) as (pairs & Hl & Ha).
  rewrite (labelled_DataFrame _ _ _ Hl). simpl.
  rewrite (labelled_dropna _ _ _ Hl).
  destruct Hl as [|row p xvals' pairs' Hrow Hl]; [by apply Forall2_nil_inv_r in Ha|].
  assert (labelled cs (row :: xvals') (p :: pairs')) as Hl' by by constructor.
  unfold empty. simpl.
  destruct (cs ++ [XID]) as [|c cols] eqn:Hcols; [by destruct cs|]. rewrite <- Hcols.
  unfold column_all_nan. rewrite (labelled_column _ _ _ no_label Hl'). simpl.
  rewrite (set_index_last _ _ _ no_label Hl'). simpl.
  intros Hjoin. right. eexists. split; [exact Hjoin|].
  split; [|split; [|split]]; simpl.
  - by rewrite removelast_last.
  - by apply (labelled_rectangular _ _ _ Hl').
  - apply tuples_refers. by rewrite Hrconts.
  - intros k. rewrite attributed_tuples, Hrconts.
    unfold rows_at. rewrite length_fmap. symmetry. simpl frows.
    apply filter_length_Forall2. eapply Forall2_impl; [exact Ha|].
    intros rc q Hq. simpl. rewrite Hq. split; congruence.
Qed.

(** The round returns when every tuple of the family gives a row and
    the columns of the family are not in the frame yet. *)
Lemma join_xterm_family_returns (df1 : frame) :
  is_Some (mapM row_of (tuples_of record db)) ->
  (forall c, c ∈ fcols df1 -> c ∉ cs) ->
  is_Some (join_xterm acc IsoIds IsoDisplayed
             (rcross_of (fst <$> XTERMS) (cross_references record)) df1 (db, cs ++ [XID])).
Proof.
  intros [xvals Hrows] Hapart. unfold join_xterm.
  destruct (decide (tuples_of record db = [])) as [Ht|Ht].
  { rewrite (absent_family_table Ht). simpl. by rewrite absent_table_is_empty. }
  unfold xterm_table. simpl. rewrite (rcross_tuples _ _ _ family).
  destruct (tuples_of record db) as [|rcont rconts] eqn:Hrconts; [done|]. simpl.
  rewrite rows_of_family, Hrows. simpl.
  destruct (family_rows _ _ Hrows) as (pairs & Hl & Ha).
  rewrite (labelled_DataFrame _ _ _ Hl). simpl.
  rewrite (labelled_dropna _ _ _ Hl).
  destruct Hl as [|row p xvals' pairs' Hrow Hl]; [by apply Forall2_nil_inv_r in Ha|].
  assert (labelled cs (row :: xvals') (p :: pairs')) as Hl' by by constructor.
  unfold empty. simpl.
  destruct (cs ++ [XID]) as [|c cols] eqn:Hcols; [by destruct cs|]. rewrite <- Hcols.
  unfold column_all_nan. rewrite (labelled_column _ _ _ no_label Hl'). simpl.
  rewrite (set_index_last _ _ _ no_label Hl'). simpl.
  by apply join_outer_returns.
Qed.

End Family.

(** The rows of the three families: the cells of the family and then
    the isoform id of the bracket field. *)
Lemma ensembl_row_shape (acc : string) (IsoDisplayed : option string) (rcont : list string) (row : list cell) :
  ensembl_row acc IsoDisplayed rcont = Some row ->
  exists cells field,
    bracket_field "Ensembl" rcont = Some field /\
    row = cells ++ [Str (attribute acc IsoDisplayed field)] /\
    length cells = 3.
Proof.
  unfold ensembl_row, bracket_field. simpl.
  destruct (rcont !! 1) as [xp|]; [|done]. destruct (rcont !! 0) as [xt|]; [|done].
  destruct (rcont !! 2) as [last|]; [|done]. simpl. intros [= <-].
  by exists [Str (strip_version xp); Str (strip_version xt);
             Str (strip_version (strip_annotation last))], last.
Qed.

Lemma refseq_row_shape (acc : string) (IsoDisplayed : option string) (rcont : list string) (row : list cell) :
  refseq_row acc IsoDisplayed rcont = Some row ->
  exists cells field,
    bracket_field "RefSeq" rcont = Some field /\
    row = cells ++ [Str (attribute acc IsoDisplayed field)] /\
    length cells = 2.
Proof.
  unfold refseq_row, bracket_field. simpl.
  destruct (rcont !! 0) as [xp|]; [|done].
  destruct (rcont !! 1) as [last|]; [|done]. simpl. intros [= <-].
  by exists [Str (strip_version xp); Str (strip_version (strip_annotation last))], last.
Qed.

Lemma ccds_row_shape (acc : string) (IsoDisplayed : option string) (rcont : list string) (row : list cell) :
  ccds_row acc IsoDisplayed rcont = Some row ->
  exists cells field,
    bracket_field "CCDS" rcont = Some field /\
    row = cells ++ [Str (attribute acc IsoDisplayed field)] /\
    length cells = 1.
Proof.
  unfold ccds_row, bracket_field. simpl.
  destruct (rcont !! 0) as [xp|]; [|done].
  destruct (rcont !! 1) as [last|]; [|done]. simpl. intros [= <-].
  by exists [Str xp], last.
Qed.

Ltac in_list := refine (bool_decide_unpack _ _); vm_compute; exact I.

(** One round of the loop over [XTERMS]: the family is not joined when
    the record has no tuple of it, and is joined otherwise. *)
Lemma join_xterm_step (acc : string) (IsoIds : list string) (IsoDisplayed : option string) (record : record) (df1 df' : frame) (t : string * list string) :
  t ∈ XTERMS ->
  join_xterm acc IsoIds IsoDisplayed
    (rcross_of (fst <$> XTERMS) (cross_references record)) df1 t = Some df' ->
  (df' = df1 /\ tuples_of record t.1 = []) \/
  (exists df2, join_outer df1 df2 = Some df' /\ xpart acc IsoDisplayed record t df2).
Proof.
  unfold XTERMS at 1.
  rewrite !elem_of_cons, elem_of_nil. intros [->|[->|[->|[]]]].
  - apply (join_xterm_family acc IsoIds IsoDisplayed record "Ensembl"
             ["xref_Ensembl_protId"; "xref_Ensembl_transcId"; "xref_Ensembl_GeneId"]
             (ensembl_row acc IsoDisplayed));
      [in_list|in_list|done|apply ensembl_row_shape].
  - apply (join_xterm_family acc IsoIds IsoDisplayed record "RefSeq"
             ["xref_RefSeq_protId"; "xref_RefSeq_transcId"]
             (refseq_row acc IsoDisplayed));
      [in_list|in_list|done|apply refseq_row_shape].
  - apply (join_xterm_family acc IsoIds IsoDisplayed record "CCDS" ["xref_CCDS"]
             (ccds_row acc IsoDisplayed));
      [in_list|in_list|done|apply ccds_row_shape].
Qed.

(** A tuple of a record that is complete has the fields that are read
    of it. *)
Lemma complete_tuples (record : record) (db : string) (rcont : list string) :
  complete record -> rcont ∈ tuples_of record db -> fields_read db <= length rcont.
Proof.
  unfold complete, tuples_of. rewrite Forall_forall.
  intros Hall (x & -> & [<- Hx]%list_elem_of_filter)%list_elem_of_fmap. by apply Hall.
Qed.

Lemma rows_return (record : record) (db : string) (row_of : list string -> option (list cell)) :
  complete record ->
  (forall rcont, fields_read db <= length rcont -> is_Some (row_of rcont)) ->
  is_Some (mapM row_of (tuples_of record db)).
Proof.
  intros Hc Hrow. apply mapM_is_Some, Forall_forall. intros rcont Hin.
  apply Hrow. by apply complete_tuples with record.
Qed.

Ltac field rcont i :=
  let x := fresh "x" in
  destruct (lookup_lt_is_Some_2 rcont i) as [x ->]; [lia|].

(** One round of the loop over [XTERMS] returns for a record that is
    complete, when the columns of the family are not in the frame
    yet. *)
Lemma join_xterm_returns (acc : string) (IsoIds : list string) (IsoDisplayed : option string) (record : record) (df1 : frame) (t : string * list string) :
  t ∈ XTERMS -> complete record ->
  (forall c, c ∈ fcols df1 -> c ∉ removelast t.2) ->
  is_Some (join_xterm acc IsoIds IsoDisplayed
             (rcross_of (fst <$> XTERMS) (cross_references record)) df1 t).
Proof.
  unfold XTERMS at 1.
  rewrite !elem_of_cons, elem_of_nil. intros [->|[->|[->|[]]]] Hc Hapart.
  - apply (join_xterm_family_returns acc IsoIds IsoDisplayed record "Ensembl"
             ["xref_Ensembl_protId"; "xref_Ensembl_transcId"; "xref_Ensembl_GeneId"]
             (ensembl_row acc IsoDisplayed));
      [in_list|in_list|done|apply ensembl_row_shape| |done].
    apply rows_return; [done|]. intros rcont Hlen. change (3 <= length rcont) in Hlen. unfold ensembl_row.
    field rcont 1. field rcont 0. field rcont 2. by eexists.
  - apply (join_xterm_family_returns acc IsoIds IsoDisplayed record "RefSeq"
             ["xref_RefSeq_protId"; "xref_RefSeq_transcId"]
             (refseq_row acc IsoDisplayed));
      [in_list|in_list|done|apply refseq_row_shape| |done].
    apply rows_return; [done|]. intros rcont Hlen. change (2 <= length rcont) in Hlen. unfold refseq_row.
    field rcont 0. field rcont 1. by eexists.
  - apply (join_xterm_family_returns acc IsoIds IsoDisplayed record "CCDS" ["xref_CCDS"]
             (ccds_row acc IsoDisplayed));
      [in_list|in_list|done|apply ccds_row_shape| |done].
    apply rows_return; [done|]. intros rcont Hlen. change (2 <= length rcont) in Hlen. unfold ccds_row.
    field rcont 0. field rcont 1. by eexists.
Qed.

(** *** The partial frame of a category *)

Lemma fill_row (vals : list cell) (p i : string) :
  zip_with (fun p c : cell => if is_nan c then p else c)
           (vals ++ [Str p]) (replicate (length vals) NaN ++ [Str i]) = vals ++ [Str i].
Proof. induction vals as [|v vals IH]; [done|]. simpl. by rewrite IH. Qed.

Lemma ffill_go_spread (vals : list cell) (p : string) (ids : list string) :
  ffill_go (vals ++ [Str p])
           (zip_with app (replicate (length ids) (replicate (length vals) NaN))
                         ((fun i => [Str i]) <$> ids)) =
    (fun i => vals ++ [Str i]) <$> ids.
Proof.
  revert p. induction ids as [|i ids IH]; intros p; [done|].
  simpl. rewrite fill_row. f_equal. apply IH.
Qed.

(** The one row of a category is carried to every isoform id. *)
Lemma spread_spec (ids : list string) (cs : list string) (vals : list cell) :
  ids <> [] -> length vals = length cs -> XID ∉ cs ->
  spread ids (Table cs [vals]) = Some (Frame cs ((fun i => (i, vals)) <$> ids)).
Proof.
  intros Hids Hlen Hc. destruct ids as [|i0 ids]; [done|].
  unfold spread, concat_columns, ffill, pad. simpl tcols. simpl trows.
  rewrite length_fmap. simpl length.
  rewrite Nat.sub_0_r, Nat.sub_diag. simpl replicate. rewrite app_nil_r, <- Hlen.
  change (list_fmap string (list cell) (fun i : string => [Str i]) ids)
    with ((fun i : string => [Str i]) <$> ids).
  rewrite ffill_go_spread.
  apply set_index_last; [done|].
  change ((vals ++ [Str i0]) :: ((fun i : string => vals ++ [Str i]) <$> ids))
    with ((fun i : string => vals ++ [Str i]) <$> i0 :: ids).
  unfold labelled. apply Forall2_fmap, Forall_Forall2_diag, Forall_forall.
  intros i _. simpl. by rewrite Hlen.
Qed.

(** The table of a category that the record does not refer to is not
    joined. *)
Lemma absent_category_table (xpats : list (string * string)) :
  exists t,
    DataFrame (xpats.*1) (one_row ((fun _ => NaN) <$> xpats)) = Some t /\
    empty (dropna_all t) = true.
Proof.
  destruct xpats as [|x xs] eqn:E.
  - by exists (Table [] []).
  - rewrite <- E. exists (Table (xpats.*1) [(fun _ => NaN) <$> xpats]). split.
    + assert (one_row ((fun _ => NaN) <$> xpats) = [(fun _ => NaN) <$> xpats]) as ->
        by by rewrite E.
      unfold DataFrame. simpl. by rewrite !length_fmap, Nat.eqb_refl.
    + apply absent_table_is_empty.
Qed.

Section Category.

Variable net : nat -> string -> option string.
Variable self : creator.
Variables (acc : string) (IsoIds : list string) (record : record).
Variables (corum_json : option (list complex)) (panther_df : option (list (cell * cell))).
Variables (db : string) (xpats : list (string * string)).

Hypothesis category : db ∈ fst <$> CTERMS.
Hypothesis no_label : XID ∉ fst <$> xpats.
Hypothesis isoforms : IsoIds <> [].
Hypothesis extract_shape :
  forall w rconts w' ex,
    extract net self w db xpats rconts acc corum_json panther_df = (w', Some ex) ->
    ex.1 = fst <$> xpats /\ exists vals, ex.2 = [vals] /\ length vals = length xpats.

Lemma join_cterm_category (w w' : world) (df1 df' : frame) :
  join_cterm net self acc IsoIds
    (rcross_of (fst <$> CTERMS) (cross_references record))
    corum_json panther_df w df1 (db, xpats) = (w', Some df') ->
  df' = df1 \/
  (exists df2, join_outer df1 df2 = Some df' /\ cpart IsoIds record (db, xpats) df2).
Proof.
  unfold join_cterm, cterm_table. simpl. rewrite (rcross_tuples _ _ _ category).
  destruct (tuples_of record db) as [|rcont rconts] eqn:Hrconts; simpl.
  { destruct (absent_category_table xpats) as (t & -> & He).
    simpl. rewrite He. intros [= <- <-]. by left. }
  destruct (extract net self w db xpats (rcont :: rconts) acc corum_json panther_df)
    as [w1 [ex|]] eqn:Hex; [|by intros [= ]].
  destruct (extract_shape _ _ _ _ Hex) as (Hcols & vals & Hvals & Hlen).
  simpl. rewrite Hcols, Hvals. unfold DataFrame. simpl.
  rewrite length_fmap, Hlen, Nat.eqb_refl. simpl.
  destruct (empty (dropna_all (Table (xpats.*1) [vals]))); [intros [= <- <-]; by left|].
  rewrite spread_spec; [|done|by rewrite length_fmap|done]. simpl.
  intros [= <- Hjoin]. right. eexists. split; [exact Hjoin|].
  split; [|split; [|split]]; simpl.
  - done.
  - unfold rectangular. simpl. apply Forall_fmap, Forall_forall. intros i _. simpl.
    by rewrite length_fmap.
  - unfold labels. simpl. rewrite <- list_fmap_compose. apply list_fmap_id.
  - apply tuples_refers. by rewrite Hrconts.
Qed.

(** The round returns when the extractor of the category does and the
    columns of the category are not in the frame yet. *)
Lemma join_cterm_category_returns (w : world) (df1 : frame) :
  (tuples_of record db <> [] ->
   forall w, exists w' ex,
      extract net self w db xpats (tuples_of record db) acc corum_json panther_df =
        (w', Some ex)) ->
  (forall c, c ∈ fcols df1 -> c ∉ fst <$> xpats) ->
  exists w' df',
    join_cterm net self acc IsoIds
      (rcross_of (fst <$> CTERMS) (cross_references record))
      corum_json panther_df w df1 (db, xpats) = (w', Some df').
Proof.
  intros Hreturns Hapart.
  unfold join_cterm, cterm_table. simpl. rewrite (rcross_tuples _ _ _ category).
  destruct (tuples_of record db) as [|rcont rconts] eqn:Hrconts; simpl.
  { destruct (absent_category_table xpats) as (t & -> & He).
    simpl. rewrite He. by eexists _, _. }
  destruct (Hreturns ltac:(done) w) as (w1 & ex & Hex). rewrite Hex.
  destruct (extract_shape _ _ _ _ Hex) as (Hcols & vals & Hvals & Hlen).
  simpl. rewrite Hcols, Hvals. unfold DataFrame. simpl.
  rewrite length_fmap, Hlen, Nat.eqb_refl. simpl.
  destruct (empty (dropna_all (Table (xpats.*1) [vals]))); [by eexists _, _|].
  rewrite spread_spec; [|done|by rewrite length_fmap|done]. simpl.
  destruct (join_outer_returns df1 (Frame (xpats.*1) ((fun i => (i, vals)) <$> IsoIds)))
    as [df' ->]; [done|].
  by eexists _, _.
Qed.

End Category.

(** What an extractor returns: the columns of its category and one row
    of values. *)
Lemma extract_shape (net : nat -> string -> option string) (self : creator) (acc : string) (corum_json : option (list complex)) (panther_df : option (list (cell * cell))) (t : string * list (string * string)) (w w' : world) (rconts : list (list string)) (ex : extracted) :
  t ∈ CTERMS ->
  extract net self w t.1 t.2 rconts acc corum_json panther_df = (w', Some ex) ->
  ex.1 = fst <$> t.2 /\ exists vals, ex.2 = [vals] /\ length vals = length t.2.
Proof.
  unfold CTERMS at 1.
  rewrite !elem_of_cons, elem_of_nil. intros [->|[->|[->|[->|[->|[]]]]]];
    unfold extract; simpl.
  - unfold _extract_cat_go.
    destruct (go_groups ∅ rconts) as [rcs|]; [|done]. simpl.
    intros [= <- <-]. split; [done|]. by eexists.
  - unfold _extract_cat_kegg. simpl.
    destruct (Kegg.kegg_values _ _ w rconts) as [w2 [rcs|]]; [|done]. simpl.
    intros [= <- <-]. split; [done|]. by eexists.
  - intros [= <- <-]. split; [done|]. by eexists.
  - unfold _extract_cat_reactome. simpl.
    destruct (mapM reactome_entry rconts) as [rcs|]; [|done]. simpl.
    intros [= <- <-]. split; [done|]. by eexists.
  - unfold _extract_cat_corum. cbn [mapM].
    destruct (corum_value corum_json acc) as [rcs|]; [|done]. simpl.
    intros [= <- <-]. split; [done|]. by eexists.
Qed.

(** One round of the loop over [CTERMS]: the category is joined or
    not, and a category that is joined has its one row on every
    isoform id. *)
Lemma join_cterm_step (net : nat -> string -> option string) (self : creator) (acc : string) (IsoIds : list string) (record : record) (corum_json : option (list complex)) (panther_df : option (list (cell * cell))) (w w' : world) (df1 df' : frame) (t : string * list (string * string)) :
  t ∈ CTERMS -> IsoIds <> [] ->
  join_cterm net self acc IsoIds
    (rcross_of (fst <$> CTERMS) (cross_references record))
    corum_json panther_df w df1 t = (w', Some df') ->
  df' = df1 \/
  (exists df2, join_outer df1 df2 = Some df' /\ cpart IsoIds record t df2).
Proof.
  intros Ht Hids. destruct t as [db xpats].
  apply join_cterm_category; [|  |done|].
  - by apply (list_elem_of_fmap_2 fst) in Ht.
  - revert Ht. unfold CTERMS.
    rewrite !elem_of_cons, elem_of_nil.
    intros [[= -> ->]|[[= -> ->]|[[= -> ->]|[[= -> ->]|[[= -> ->]|[]]]]]]; in_list.
  - intros w0 rconts w1 ex. by apply (extract_shape _ _ _ _ _ (db, xpats)).
Qed.

(** The extractors that read fields outside a [try] block return when
    the tuples have these fields. *)
Lemma go_groups_returns (rcs : gmap string string) (rconts : list (list string)) :
  Forall (fun rcont => 3 <= length rcont) rconts -> is_Some (go_groups rcs rconts).
Proof.
  intros Hall. revert rcs. induction Hall as [|rcont rconts Hlen _ IH]; intros rcs.
  - by eexists.
  - simpl. unfold go_step. field rcont 1. field rcont 2. simpl.
    case_match; simpl; [|apply IH].
    field rcont 0. simpl. apply IH.
Qed.

Lemma kegg_values_returns (net : nat -> string -> option string) (dir : string) (w : world) (rconts : list (list string)) :
  Forall (fun rcont => 1 <= length rcont) rconts ->
  exists w' rcs, Kegg.kegg_values net dir w rconts = (w', Some rcs).
Proof.
  intros Hall. revert w. induction Hall as [|rcont rconts Hlen _ IH]; intros w.
  - by eexists _, _.
  - simpl. destruct rcont as [|id rcont]; [simpl in Hlen; lia|]. simpl.
    destruct (Kegg.kegg_lookup net dir w id) as [w1 rc].
    destruct (IH w1) as (w2 & rcs & ->). by eexists _, _.
Qed.

Lemma reactome_returns (rconts : list (list string)) :
  Forall (fun rcont => 1 <= length rcont) rconts -> is_Some (mapM reactome_entry rconts).
Proof.
  intros Hall. apply mapM_is_Some. eapply Forall_impl; [exact Hall|].
  intros [|id rcont] Hlen; [simpl in Hlen; lia|]. by eexists.
Qed.

Lemma corum_returns (corum_json : option (list complex)) (acc : string) :
  keyed corum_json -> is_Some (corum_value corum_json acc).
Proof.
  destruct corum_json as [[|c l]|]; [done| |done]. intros Hk.
  by rewrite (CatFacts.corum_value_filter (c :: l) acc Hk).
Qed.

Lemma extract_returns (net : nat -> string -> option string) (self : creator) (acc : string) (corum_json : option (list complex)) (panther_df : option (list (cell * cell))) (t : string * list (string * string)) (w : world) (rconts : list (list string)) :
  t ∈ CTERMS ->
  Forall (fun rcont => fields_read t.1 <= length rcont) rconts ->
  (t.1 = "CORUM" -> keyed corum_json) ->
  exists w' ex, extract net self w t.1 t.2 rconts acc corum_json panther_df = (w', Some ex).
Proof.
  unfold CTERMS at 1.
  rewrite !elem_of_cons, elem_of_nil. intros [->|[->|[->|[->|[->|[]]]]]] Hall Hk;
    unfold extract; simpl.
  - unfold _extract_cat_go.
    destruct (go_groups_returns ∅ rconts Hall) as [rcs ->]. by eexists _, _.
  - unfold _extract_cat_kegg. simpl.
    destruct (kegg_values_returns net (cached_dir_kegg self) w rconts Hall) as (w1 & rcs & ->).
    by eexists _, _.
  - by eexists _, _.
  - unfold _extract_cat_reactome. simpl.
    destruct (reactome_returns rconts Hall) as [rcs ->]. by eexists _, _.
  - unfold _extract_cat_corum. cbn [mapM].
    destruct (corum_returns corum_json acc (Hk eq_refl)) as [rcs ->]. by eexists _, _.
Qed.

(** One round of the loop over [CTERMS] returns for a record that is
    complete, when the columns of the category are not in the frame
    yet. *)
Lemma join_cterm_returns (net : nat -> string -> option string) (self : creator) (acc : string) (IsoIds : list string) (record : record) (corum_json : option (list complex)) (panther_df : option (list (cell * cell))) (w : world) (df1 : frame) (t : string * list (string * string)) :
  t ∈ CTERMS -> IsoIds <> [] -> complete record ->
  keyed corum_json \/ ~ refers_to record "CORUM" ->
  (forall c, c ∈ fcols df1 -> c ∉ fst <$> t.2) ->
  exists w' df',
    join_cterm net self acc IsoIds
      (rcross_of (fst <$> CTERMS) (cross_references record))
      corum_json panther_df w df1 t = (w', Some df').
Proof.
  intros Ht Hids Hc Hcor Hapart. destruct t as [db xpats].
  apply join_cterm_category_returns; [| |done| | |done].
  - by apply (list_elem_of_fmap_2 fst) in Ht.
  - revert Ht. unfold CTERMS.
    rewrite !elem_of_cons, elem_of_nil.
    intros [[= -> ->]|[[= -> ->]|[[= -> ->]|[[= -> ->]|[[= -> ->]|[]]]]]]; in_list.
  - intros w0 rconts w1 ex. by apply (extract_shape _ _ _ _ _ (db, xpats)).
  - intros Hne w0. apply (extract_returns _ _ _ _ _ (db, xpats)); [done| |].
    + apply Forall_forall. intros rcont Hin. by apply complete_tuples with record.
    + cbn [fst]. intros ->. destruct Hcor as [Hk|Hno]; [done|].
      destruct Hno. by apply tuples_refers.
Qed.

(** *** The table of a family that the record does not refer to *)

Lemma tuples_none (record : record) (db : string) :
  ~ refers_to record db -> tuples_of record db = [].
Proof.
  unfold refers_to, tuples_of. intros H.
  rewrite filter_none; [done|]. intros x Hx <-. apply H. by apply list_elem_of_fmap_2.
Qed.

Lemma absent_xterm_table (acc : string) (disp : option string) (record : record) (t : string * list string) :
  t ∈ XTERMS -> ~ refers_to record t.1 ->
  xterm_table acc disp (rcross_of (fst <$> XTERMS) (cross_references record)) t =
    Some (Table t.2 [(fun _ => NaN) <$> t.2]).
Proof.
  intros Ht Habsent. unfold xterm_table.
  rewrite rcross_tuples by (by apply list_elem_of_fmap_2).
  rewrite (tuples_none _ _ Habsent). simpl.
  assert (one_row ((fun _ => NaN) <$> t.2) = [(fun _ => NaN) <$> t.2]) as ->.
  { revert Ht. unfold XTERMS. rewrite !elem_of_cons, elem_of_nil.
    by intros [->|[->|[->|[]]]]. }
  unfold DataFrame. simpl. by rewrite length_fmap, Nat.eqb_refl.
Qed.

Lemma absent_cterm_table (net : nat -> string -> option string) (self : creator) (acc : string) (record : record) (corum_json : option (list complex)) (panther_df : option (list (cell * cell))) (w : world) (t : string * list (string * string)) :
  t ∈ CTERMS -> ~ refers_to record t.1 ->
  cterm_table net self acc (rcross_of (fst <$> CTERMS) (cross_references record))
    corum_json panther_df w t =
    (w, Some (Table (fst <$> t.2) [(fun _ => NaN) <$> t.2])).
Proof.
  intros Ht Habsent. unfold cterm_table.
  rewrite rcross_tuples by (by apply list_elem_of_fmap_2).
  rewrite (tuples_none _ _ Habsent). simpl.
  assert (one_row ((fun _ => NaN) <$> t.2) = [(fun _ => NaN) <$> t.2]) as ->.
  { revert Ht. unfold CTERMS. rewrite !elem_of_cons, elem_of_nil.
    by intros [->|[->|[->|[->|[->|[]]]]]]. }
  unfold DataFrame. simpl. by rewrite !length_fmap, Nat.eqb_refl.
Qed.

Lemma index_of_None (c : string) (l : list string) : c ∉ l -> index_of c l = None.
Proof.
  induction l as [|x l IH]; [done|]. intros [Hne Hc]%not_elem_of_cons. simpl.
  unfold str_eq. destruct (String.eqb_spec x c) as [->|_]; [done|]. by rewrite IH.
Qed.

End PartFacts.

(** ** The report of a record *)

Module ReportFacts.
Import Py Re Pandas Isoforms Xrefs Cats Vocabulary PandasFacts BaseFacts PartFacts Report Examples.

Lemma isoforms_head (acc : string) (r : record) (ids : list string) (disp : option string) :
  isoforms acc r = Some (ids, disp) -> exists rest, ids = acc :: rest.
Proof.
  unfold isoforms. destruct (altprod r) as [|c ?].
  - intros [= <- <-]. by eexists.
  - destruct (isoid_pairs _) as [x|]; [|done]. simpl. intros [= <- <-]. by eexists.
Qed.

Section Report.

Variable net : nat -> string -> option string.
Variable self : creator.
Variable r : record.
Variables (corum_json : option (list complex)) (panther_df : option (list (cell * cell))).

(** The steps of [_create_qreport] when it returns a frame. *)
Lemma qreport_steps (w w' : world) (df : frame) :
  _create_qreport net self w r corum_json panther_df = (w', Some df) ->
  exists acc ids disp base dfx,
    head (accessions r) = Some acc /\
    isoforms acc r = Some (ids, disp) /\
    ids <> [] /\
    base_table self r ids = Some base /\
    join_xterms acc ids disp (rcross_of (fst <$> XTERMS) (cross_references r)) base XTERMS
      = Some dfx /\
    join_cterms net self acc ids (rcross_of (fst <$> CTERMS) (cross_references r))
      corum_json panther_df w dfx CTERMS = (w', Some df).
Proof.
  unfold _create_qreport.
  destruct (head (accessions r)) as [acc|]; [|done]. cbn [mbind option_bind].
  destruct (isoforms acc r) as [[ids disp]|] eqn:Hiso; [|done]. cbn [mbind option_bind fst snd].
  destruct (base_table self r ids) as [base|] eqn:Hbase; [|done]. cbn [mbind option_bind].
  destruct (join_xterms acc ids disp _ base XTERMS) as [dfx|] eqn:Hx; [|done].
  cbn [mbind option_bind]. intros H. exists acc, ids, disp, base, dfx. repeat split; try done.
  destruct (isoforms_head _ _ _ _ Hiso) as [rest ->]. done.
Qed.

Section Loops.

Variables (acc : string) (ids : list string) (disp : option string).
Hypothesis Hids : ids <> [].

(** A property that the base table has and that every join of a
    partial frame keeps holds of the report. *)
Variable P : frame -> Prop.
Hypothesis xstep :
  forall df1 df2 df' t,
    t ∈ XTERMS -> P df1 -> join_outer df1 df2 = Some df' ->
    xpart acc disp r t df2 -> P df'.
Hypothesis cstep :
  forall df1 df2 df' t,
    t ∈ CTERMS -> P df1 -> join_outer df1 df2 = Some df' ->
    cpart ids r t df2 -> P df'.

Lemma join_xterms_keeps (terms : list (string * list string)) (df1 df : frame) :
  terms ⊆ XTERMS -> P df1 ->
  join_xterms acc ids disp (rcross_of (fst <$> XTERMS) (cross_references r)) df1 terms
    = Some df ->
  P df.
Proof.
  revert df1. induction terms as [|t terms IH]; intros df1 Hsub HP; simpl.
  - by intros [= <-].
  - destruct (join_xterm _ _ _ _ df1 t) as [df'|] eqn:Hstep; [|done]. simpl.
    apply IH; [set_solver|].
    apply join_xterm_step in Hstep as [[-> _]|(df2 & Hjoin & Hpart)]; [done| |set_solver].
    eapply xstep; [|done..]. set_solver.
Qed.

Lemma join_cterms_keeps (terms : list (string * list (string * string))) (w w' : world) (df1 df : frame) :
  terms ⊆ CTERMS -> P df1 ->
  join_cterms net self acc ids (rcross_of (fst <$> CTERMS) (cross_references r))
    corum_json panther_df w df1 terms = (w', Some df) ->
  P df.
Proof.
  revert w df1. induction terms as [|t terms IH]; intros w df1 Hsub HP; simpl.
  - by intros [= <- <-].
  - destruct (join_cterm _ _ _ _ _ _ _ w df1 t) as [w1 [df'|]] eqn:Hstep; [|done].
    apply IH; [set_solver|].
    apply join_cterm_step in Hstep as [->|(df2 & Hjoin & Hpart)]; [done| |set_solver|done].
    eapply cstep; [|done..]. set_solver.
Qed.

End Loops.

(** *** The invariant of the loops *)

Lemma columns_are_apart : columns_apart = true.
Proof. reflexivity. Qed.

Lemma family_columns_apart (f1 f2 : string * list string) (c : string) :
  f1 ∈ families -> f2 ∈ families -> c ∈ f1.2 -> c ∈ f2.2 -> f1.1 = f2.1.
Proof.
  intros H1%list_elem_of_In H2%list_elem_of_In Hc1%list_elem_of_In Hc2.
  pose proof columns_are_apart as H. unfold columns_apart in H.
  rewrite forallb_forall in H. apply H in H1 as [_ H1]%andb_true_iff.
  rewrite forallb_forall in H1. apply H1 in H2 as [H2|H2]%orb_true_iff.
  - by apply String.eqb_eq.
  - rewrite forallb_forall in H2. apply H2 in Hc1.
    apply negb_true_iff in Hc1. apply member_spec in Hc2. congruence.
Qed.

Lemma family_column_not_base (f : string * list string) (c : string) :
  f ∈ families -> c ∈ f.2 -> c ∉ XID :: base_columns.
Proof.
  intros H1%list_elem_of_In Hc%list_elem_of_In Hb%member_spec.
  pose proof columns_are_apart as H. unfold columns_apart in H.
  rewrite forallb_forall in H. apply H in H1 as [H1 _]%andb_true_iff.
  rewrite forallb_forall in H1. apply H1 in Hc. apply negb_true_iff in Hc. congruence.
Qed.

Lemma xterm_family (t : string * list string) :
  t ∈ XTERMS -> (t.1, removelast t.2) ∈ families.
Proof.
  intros Ht. unfold families. apply elem_of_app. left.
  by apply (list_elem_of_fmap_2 (fun t : string * list string => (t.1, removelast t.2))).
Qed.

Lemma cterm_family (t : string * list (string * string)) :
  t ∈ CTERMS -> (t.1, fst <$> t.2) ∈ families.
Proof.
  intros Ht. unfold families. apply elem_of_app. right.
  by apply (list_elem_of_fmap_2 (fun t : string * list (string * string) => (t.1, fst <$> t.2))).
Qed.

Lemma base_inv (ids : list string) (base : frame) :
  ids <> [] -> base_table self r ids = Some base -> report_inv r ids base.
Proof.
  intros Hids Hbase. pose proof (base_table_rectangular _ _ _ _ Hids Hbase) as Hrect.
  destruct (base_table_spec self r ids Hids) as (df & Hdf & Hc & Hl & Hrows).
  rewrite Hbase in Hdf. injection Hdf as <-.
  split; [done|]. split; [by rewrite Hl|]. split.
  - exists []. rewrite app_nil_r. split; [done|]. by intros c ?%elem_of_nil.
  - intros k row Hrow. rewrite bool_decide_eq_true_2.
    + destruct (Hrows _ _ Hrow) as (L & C & ->). simpl. eauto.
    + rewrite <- Hl. apply elem_of_labels. eauto.
Qed.

(** The join of a frame that satisfies the invariant with the partial
    frame of a family that the record refers to satisfies it. *)
Lemma join_inv (ids : list string) (fam : string * list string) (df1 df2 df' : frame) :
  fam ∈ families -> refers_to r fam.1 -> fcols df2 = fam.2 -> rectangular df2 ->
  report_inv r ids df1 -> join_outer df1 df2 = Some df' -> report_inv r ids df'.
Proof.
  intros Hfam Hrefers Hcols Hrect2 (Hrect & Hlabels & (more & Hmore & Hfams) & Hrows) Hjoin.
  assert (7 <= length (fcols df1)) as Hwide.
  { rewrite Hmore, length_app. simpl. lia. }
  split; [by eapply join_rectangular|]. split; [|split].
  - intros k Hk. eapply join_keeps_labels; eauto.
  - exists (more ++ fcols df2). rewrite (join_columns _ _ _ Hjoin), Hmore, app_assoc.
    split; [done|]. intros c [Hc|Hc]%elem_of_app; [by apply Hfams|].
    exists fam. by rewrite <- Hcols.
  - intros k row Hrow.
    apply (elem_of_join_rows _ _ _ Hjoin) in Hrow
      as [(x & y & Hx & Hy & ->)|[(x & Hx & _ & ->)|(y & Hy & Hk & ->)]].
    + rewrite take_app_le; [by apply Hrows|].
      apply (proj1 (Forall_forall _ _) Hrect) in Hx. simpl in Hx. lia.
    + rewrite take_app_le; [by apply Hrows|].
      apply (proj1 (Forall_forall _ _) Hrect) in Hx. simpl in Hx. lia.
    + rewrite bool_decide_eq_false_2 by (intros ?; by apply Hk, Hlabels).
      unfold nans. rewrite take_app_le by (rewrite length_replicate; lia).
      unfold base_cells. rewrite take_replicate. f_equal. lia.
Qed.

(** The report satisfies the invariant. *)
Lemma qreport_inv (w w' : world) (df : frame) (acc : string) (ids : list string) (disp : option string) :
  _create_qreport net self w r corum_json panther_df = (w', Some df) ->
  head (accessions r) = Some acc ->
  isoforms acc r = Some (ids, disp) ->
  report_inv r ids df.
Proof.
  intros (acc' & ids' & disp' & base & dfx & Hacc & Hiso & Hids & Hbase & Hx & Hc)%qreport_steps
    Hacc' Hiso'.
  rewrite Hacc in Hacc'. injection Hacc' as ->.
  rewrite Hiso in Hiso'. injection Hiso' as -> ->.
  assert (forall df1 df2 df' t,
            t ∈ XTERMS -> report_inv r ids df1 -> join_outer df1 df2 = Some df' ->
            xpart acc disp r t df2 -> report_inv r ids df') as xs.
  { intros df1 df2 df' t Ht HP Hjoin (Hcols & Hrect & Hrefers & _).
    by eapply (join_inv ids (t.1, removelast t.2)); [apply xterm_family|..]. }
  assert (forall df1 df2 df' t,
            t ∈ CTERMS -> report_inv r ids df1 -> join_outer df1 df2 = Some df' ->
            cpart ids r t df2 -> report_inv r ids df') as cs.
  { intros df1 df2 df' t Ht HP Hjoin (Hcols & Hrect & _ & Hrefers).
    by eapply (join_inv ids (t.1, fst <$> t.2)); [apply cterm_family|..]. }
  apply (join_cterms_keeps acc ids disp Hids _ xs cs CTERMS w w' dfx df); [done| |exact Hc].
  apply (join_xterms_keeps acc ids disp Hids _ xs cs XTERMS base dfx); [done| |exact Hx].
  by apply base_inv.
Qed.

(** *** The number of rows of an isoform *)

Lemma length_rows_at_labels (k : string) (f : frame) :
  length (rows_at k f) = length (filter (fun x => x = k) (labels f)).
Proof.
  unfold rows_at, labels. rewrite length_fmap.
  induction (frows f) as [|[k' row] rows IH]; [done|].
  rewrite fmap_cons, !filter_cons. simpl.
  destruct (decide (k' = k)); simpl; by rewrite IH.
Qed.

Lemma once_in_NoDup (l : list string) (k : string) :
  NoDup l -> k ∈ l -> length (filter (fun x => x = k) l) = 1.
Proof.
  induction 1 as [|x l Hx Hnd IH]; [by intros ?%elem_of_nil|].
  rewrite filter_cons. intros [->|Hk]%elem_of_cons.
  - rewrite decide_True by done. simpl. f_equal.
    rewrite filter_none; [done|]. by intros y Hy ->.
  - rewrite decide_False by (by intros ->). by apply IH.
Qed.

Lemma join_xterms_count (acc : string) (ids : list string) (disp : option string) (k : string) (terms : list (string * list string)) (df1 df : frame) :
  terms ⊆ XTERMS ->
  join_xterms acc ids disp (rcross_of (fst <$> XTERMS) (cross_references r)) df1 terms
    = Some df ->
  1 <= length (rows_at k df1) ->
  length (rows_at k df) =
    length (rows_at k df1) *
    foldr (fun (t : string * list string) p => (1 `max` attributed acc disp r t.1 k) * p)
          1 terms.
Proof.
  revert df1. induction terms as [|t terms IH]; intros df1 Hsub; simpl.
  - intros [= <-] _. lia.
  - destruct (join_xterm _ _ _ _ df1 t) as [df'|] eqn:Hstep; [|done]. simpl.
    intros Hrest Hone.
    assert (length (rows_at k df') =
            length (rows_at k df1) * (1 `max` attributed acc disp r t.1 k)) as Hk.
    { apply join_xterm_step in Hstep as [[-> Hnone]|(df2 & Hjoin & _ & _ & _ & Hcount)];
        [| |set_solver].
      - rewrite attributed_tuples, Hnone. simpl. lia.
      - rewrite (length_rows_at_join _ _ _ Hjoin), Hcount.
        destruct (length (rows_at k df1)) as [|m]; [lia|].
        destruct (attributed acc disp r t.1 k); simpl; lia. }
    rewrite (IH df'); [|set_solver|done|].
    + rewrite Hk. lia.
    + rewrite Hk. nia.
Qed.

Lemma join_cterms_count (acc : string) (ids : list string) (k : string) (terms : list (string * list (string * string))) (w w' : world) (df1 df : frame) :
  terms ⊆ CTERMS -> NoDup ids -> k ∈ ids ->
  join_cterms net self acc ids (rcross_of (fst <$> CTERMS) (cross_references r))
    corum_json panther_df w df1 terms = (w', Some df) ->
  1 <= length (rows_at k df1) ->
  length (rows_at k df) = length (rows_at k df1).
Proof.
  intros Hsub Hnd Hk. revert w df1 Hsub. induction terms as [|t terms IH]; intros w df1 Hsub; simpl.
  - by intros [= <- <-].
  - destruct (join_cterm _ _ _ _ _ _ _ w df1 t) as [w1 [df'|]] eqn:Hstep; [|done].
    intros Hrest Hone.
    assert (length (rows_at k df') = length (rows_at k df1)) as Hk'.
    { apply join_cterm_step in Hstep as [->|(df2 & Hjoin & _ & _ & Hl & _)];
        [done| |set_solver|by intros ->; apply elem_of_nil in Hk].
      rewrite (length_rows_at_join _ _ _ Hjoin), (length_rows_at_labels k df2), Hl.
      rewrite (once_in_NoDup _ _ Hnd Hk).
      destruct (length (rows_at k df1)); simpl; lia. }
    rewrite (IH w1 df'); [done|set_solver|done|by rewrite Hk'].
Qed.

(** *** The report is produced *)

Lemma columns_before_apart (pending : list string) (df : frame) (fam : string * list string) (c : string) :
  fam ∈ families -> fam.1 ∈ pending -> columns_before pending df ->
  c ∈ fcols df -> c ∉ fam.2.
Proof.
  intros Hfam Hp Hb Hc Hin. destruct (Hb c Hc) as [Hbase|(fam' & Hfam' & Hc' & Hout)].
  - apply (family_column_not_base _ _ Hfam Hin). by right.
  - apply Hout. by rewrite (family_columns_apart _ _ _ Hfam' Hfam Hc' Hin).
Qed.

Lemma columns_before_skip (name : string) (pending : list string) (df : frame) :
  columns_before (name :: pending) df -> columns_before pending df.
Proof.
  intros Hb c Hc. destruct (Hb c Hc) as [?|(fam & ? & ? & Hn)]; [by left|right].
  exists fam. split; [done|]. split; [done|]. by apply not_elem_of_cons in Hn as [_ ?].
Qed.

Lemma columns_before_join (pending : list string) (df1 df2 df' : frame) (fam : string * list string) :
  fam ∈ families -> fam.1 ∉ pending -> fcols df2 = fam.2 ->
  columns_before (fam.1 :: pending) df1 -> join_outer df1 df2 = Some df' ->
  columns_before pending df'.
Proof.
  intros Hfam Hout Hcols Hb Hjoin c. rewrite (join_columns _ _ _ Hjoin), elem_of_app.
  intros [Hc|Hc].
  - by apply (columns_before_skip fam.1 pending df1).
  - right. exists fam. by rewrite <- Hcols.
Qed.

(** The loop over [XTERMS] returns for a record that is complete. *)
Lemma join_xterms_returns (acc : string) (ids : list string) (disp : option string) (terms : list (string * list string)) (pending : list string) (df1 : frame) :
  terms ⊆ XTERMS -> complete r ->
  NoDup ((fst <$> terms) ++ pending) ->
  columns_before ((fst <$> terms) ++ pending) df1 ->
  exists df,
    join_xterms acc ids disp (rcross_of (fst <$> XTERMS) (cross_references r)) df1 terms
      = Some df /\
    columns_before pending df.
Proof.
  intros Hsub Hc. revert df1. induction terms as [|t rest IH]; intros df1 Hnd Hb.
  { by exists df1. }
  assert (t ∈ XTERMS) as Ht by (apply Hsub; by left).
  simpl in Hnd, Hb. apply NoDup_cons in Hnd as [Hout Hnd].
  destruct (join_xterm_returns acc ids disp r df1 t Ht Hc) as [df' Hstep].
  { intros c Hin.
    refine (columns_before_apart _ df1 (t.1, removelast t.2) c (xterm_family _ Ht) _ Hb Hin).
    by left. }
  cbn [join_xterms]. rewrite Hstep. cbn [mbind option_bind].
  apply IH; [by intros x Hx; apply Hsub; right|done|].
  apply join_xterm_step in Hstep as [[-> _]|(df2 & Hjoin & Hcols & _)]; [| |done].
  - exact (columns_before_skip t.1 _ df1 Hb).
  - exact (columns_before_join _ df1 df2 df' (t.1, removelast t.2)
             (xterm_family _ Ht) Hout Hcols Hb Hjoin).
Qed.

(** The loop over [CTERMS] returns for a record that is complete. *)
Lemma join_cterms_returns (acc : string) (ids : list string) (terms : list (string * list (string * string))) (pending : list string) (w : world) (df1 : frame) :
  terms ⊆ CTERMS -> ids <> [] -> complete r ->
  keyed corum_json \/ ~ refers_to r "CORUM" ->
  NoDup ((fst <$> terms) ++ pending) ->
  columns_before ((fst <$> terms) ++ pending) df1 ->
  exists w' df,
    join_cterms net self acc ids (rcross_of (fst <$> CTERMS) (cross_references r))
      corum_json panther_df w df1 terms = (w', Some df) /\
    columns_before pending df.
Proof.
  intros Hsub Hids Hc Hcor. revert w df1. induction terms as [|t rest IH]; intros w df1 Hnd Hb.
  { by exists w, df1. }
  assert (t ∈ CTERMS) as Ht by (apply Hsub; by left).
  simpl in Hnd, Hb. apply NoDup_cons in Hnd as [Hout Hnd].
  destruct (join_cterm_returns net self acc ids r corum_json panther_df w df1 t Ht Hids Hc Hcor)
    as (w1 & df' & Hstep).
  { intros c Hin.
    refine (columns_before_apart _ df1 (t.1, fst <$> t.2) c (cterm_family _ Ht) _ Hb Hin).
    by left. }
  cbn [join_cterms]. rewrite Hstep.
  apply IH; [by intros x Hx; apply Hsub; right|done|].
  apply join_cterm_step in Hstep as [->|(df2 & Hjoin & Hcols & _)]; [| |done|done].
  - exact (columns_before_skip t.1 _ df1 Hb).
  - exact (columns_before_join _ df1 df2 df' (t.1, fst <$> t.2)
             (cterm_family _ Ht) Hout Hcols Hb Hjoin).
Qed.

(** [_create_qreport] returns a report for every record that has an
    accession, whose alternative-products comment can be read, and
    whose cross-references have the fields that are read: the
    properties of the report below speak of a report that exists. *)
Lemma qreport_returns (w : world) (acc : string) (ids : list string) (disp : option string) :
  head (accessions r) = Some acc ->
  isoforms acc r = Some (ids, disp) ->
  complete r ->
  keyed corum_json \/ ~ refers_to r "CORUM" ->
  exists w' df, _create_qreport net self w r corum_json panther_df = (w', Some df).
Proof.
  intros Hacc Hiso Hc Hcor.
  assert (ids <> []) as Hids by by destruct (isoforms_head _ _ _ _ Hiso) as [rest ->].
  destruct (base_table_spec self r ids Hids) as (base & Hbase & Hcols & _).
  destruct (join_xterms_returns acc ids disp XTERMS (fst <$> CTERMS) base)
    as (dfx & Hx & Hbx); [done|done| | |].
  { refine (bool_decide_unpack _ _). vm_compute. exact I. }
  { intros c Hin. left. by rewrite <- Hcols. }
  destruct (join_cterms_returns acc ids CTERMS [] w dfx) as (w' & df & Hcs & _);
    [done|done|done|done| |by rewrite app_nil_r|].
  { refine (bool_decide_unpack _ _). vm_compute. exact I. }
  exists w', df. unfold _create_qreport.
  rewrite Hacc. cbn [mbind option_bind]. rewrite Hiso. cbn [mbind option_bind fst snd].
  rewrite Hbase. cbn [mbind option_bind]. rewrite Hx. exact Hcs.
Qed.

(** C1, as the code has it.  The report of a record is rectangular:
    every row has a cell, possibly missing, for every column of the
    report, which are the columns of the base table and then columns of
    families that the record refers to.  Every isoform id of the base
    table has a row.  When the isoform ids are distinct, an isoform id
    has one row for every combination of the tuples that the
    direct-identifier families attribute to it, hence exactly one row
    when no family attributes more than one tuple to it. *)
Theorem merged_rows (w w' : world) (df : frame) (acc : string) (ids : list string) (disp : option string) :
  _create_qreport net self w r corum_json panther_df = (w', Some df) ->
  head (accessions r) = Some acc ->
  isoforms acc r = Some (ids, disp) ->
  rectangular df /\
  (exists more, fcols df = base_columns ++ more /\
     forall c, c ∈ more -> exists fam, fam ∈ families /\ refers_to r fam.1 /\ c ∈ fam.2) /\
  (forall k, k ∈ ids -> rows_at k df <> []) /\
  (NoDup ids ->
   forall k, k ∈ ids ->
     length (rows_at k df) = combinations acc disp r k /\
     ((forall t, t ∈ XTERMS -> attributed acc disp r t.1 k <= 1) ->
      length (rows_at k df) = 1)).
Proof.
  intros Hrep Hacc Hiso.
  destruct (qreport_inv _ _ _ _ _ _ Hrep Hacc Hiso) as (Hrect & Hlabels & Hcols & _).
  split; [done|]. split; [done|]. split.
  { intros k Hk. rewrite rows_at_nil. intros H. by apply H, Hlabels. }
  intros Hnd k Hk.
  apply qreport_steps in Hrep
    as (acc' & ids' & disp' & base & dfx & Hacc' & Hiso' & Hids & Hbase & Hx & Hc).
  rewrite Hacc in Hacc'. injection Hacc' as <-.
  rewrite Hiso in Hiso'. injection Hiso' as <- <-.
  destruct (base_table_spec self r ids Hids) as (df0 & Hdf0 & _ & Hl & _).
  rewrite Hbase in Hdf0. injection Hdf0 as <-.
  assert (length (rows_at k base) = 1) as Hbase1.
  { by rewrite length_rows_at_labels, Hl, once_in_NoDup. }
  pose proof (join_xterms_count acc ids disp k XTERMS base dfx (reflexivity _) Hx) as Hdfx.
  rewrite Hbase1 in Hdfx. specialize (Hdfx (le_n _)).
  assert (length (rows_at k df) = combinations acc disp r k) as Hcount.
  { rewrite (join_cterms_count acc ids k CTERMS w w' dfx df); [|done..|].
    - rewrite Hdfx. unfold combinations. lia.
    - rewrite Hdfx. unfold combinations.
      clear. induction XTERMS as [|t ts IH]; simpl; lia. }
  split; [done|]. intros Hone. rewrite Hcount. unfold combinations.
  clear -Hone. induction XTERMS as [|t ts IH]; [done|]. simpl.
  rewrite IH by (intros t' Ht'; apply Hone; by right).
  assert (attributed acc disp r t.1 k <= 1) by (apply Hone; by left). lia.
Qed.

(** C10, as the code has it.  In a row of the report whose isoform id
    is one of the isoform ids of the record, the scalar columns (entry
    name, gene symbol, species, description, data class) carry the
    values of the record, the same on all these rows; in a row whose
    isoform id comes from a cross-reference only, they are missing. *)
Theorem scalar_metadata (w w' : world) (df : frame) (acc : string) (ids : list string) (disp : option string) :
  _create_qreport net self w r corum_json panther_df = (w', Some df) ->
  head (accessions r) = Some acc ->
  isoforms acc r = Some (ids, disp) ->
  forall k row, (k, row) ∈ frows df ->
  forall c v, (c, v) ∈ scalars r ->
    cell_at df row c = Some (if bool_decide (k ∈ ids) then Str v else NaN).
Proof.
  intros Hrep Hacc Hiso k row Hrow c v Hc.
  destruct (qreport_inv _ _ _ _ _ _ Hrep Hacc Hiso) as (_ & _ & (more & Hcols & _) & Hrows).
  specialize (Hrows _ _ Hrow). unfold cell_at. rewrite Hcols.
  assert (forall i, i < 7 -> row !! i = take 7 row !! i) as Htake
    by (intros i Hi; by rewrite lookup_take_lt).
  revert Hc. unfold scalars. rewrite !elem_of_cons, elem_of_nil.
  destruct (bool_decide (k ∈ ids)); simpl in Hrows.
  - destruct Hrows as (L & C & Hcells).
    intros [[= -> ->]|[[= -> ->]|[[= -> ->]|[[= -> ->]|[[= -> ->]|[]]]]]]; simpl;
      rewrite Htake, Hcells by lia; done.
  - intros [[= -> ->]|[[= -> ->]|[[= -> ->]|[[= -> ->]|[[= -> ->]|[]]]]]]; simpl;
      rewrite Htake, Hrows by lia; done.
Qed.

(** C2, as the code has it.  A family that the record does not refer
    to gives a partial table of one row of missing values.  The merger
    does not join this table: no column of the family is a column of
    the report of the record.  The columns come back when the report is
    written: the written table has all the columns of [HEADERS] in
    every row, and a missing value in the columns of the family. *)
Theorem absent_family_columns (w w' : world) (df : frame) (fam : string * list string) :
  _create_qreport net self w r corum_json panther_df = (w', Some df) ->
  fam ∈ families ->
  ~ refers_to r fam.1 ->
  (forall acc disp t, t ∈ XTERMS -> t.1 = fam.1 ->
     xterm_table acc disp (rcross_of (fst <$> XTERMS) (cross_references r)) t =
       Some (Table t.2 [(fun _ => NaN) <$> t.2])) /\
  (forall acc v t, t ∈ CTERMS -> t.1 = fam.1 ->
     cterm_table net self acc (rcross_of (fst <$> CTERMS) (cross_references r))
       corum_json panther_df v t =
       (v, Some (Table (fst <$> t.2) [(fun _ => NaN) <$> t.2]))) /\
  (forall c, c ∈ fam.2 ->
     (c ∉ fcols df) /\
     forall row i, row ∈ trows (to_file df) -> HEADERS !! i = Some c ->
       row !! i = Some NaN) /\
  tcols (to_file df) = HEADERS /\
  Forall (fun row => length row = length HEADERS) (trows (to_file df)).
Proof.
  intros Hrep Hfam Habsent.
  split; [|split; [|split; [|split]]].
  - intros acc disp t Ht Hname. apply absent_xterm_table; [done|by rewrite Hname].
  - intros acc v t Ht Hname. apply absent_cterm_table; [done|by rewrite Hname].
  - intros c Hc.
    assert (c ∉ fcols df) as Hout.
    { pose proof Hrep as (acc & ids & disp & _ & _ & Hacc & Hiso & _)%qreport_steps.
      destruct (qreport_inv _ _ _ _ _ _ Hrep Hacc Hiso) as (_ & _ & (more & Hcols & Hmore) & _).
      rewrite Hcols. intros [Hb|Hm]%elem_of_app.
      - apply (family_column_not_base _ _ Hfam Hc). by right.
      - destruct (Hmore _ Hm) as (fam' & Hfam' & Hrefers & Hc').
        apply Habsent. by rewrite (family_columns_apart _ _ _ Hfam Hfam' Hc Hc'). }
    split; [done|]. intros row i Hrowin Hi.
    unfold to_file in Hrowin. cbn [trows] in Hrowin.
    apply list_elem_of_fmap in Hrowin as ([k cells] & -> & _).
    rewrite list_lookup_fmap, Hi. cbn [fmap option_fmap option_map].
    rewrite index_of_None; [done|].
    apply not_elem_of_cons. split; [|done].
    intros ->. apply (family_column_not_base _ _ Hfam Hc). by left.
  - done.
  - unfold to_file. cbn [trows]. apply Forall_fmap, Forall_forall. intros row _.
    unfold compose. by rewrite length_fmap.
Qed.

End Report.

(** C1, witness: a record with three isoforms and cross-references of
    five families. *)
Lemma merged_rows_witness :
  let df := report_of annotated in
  let ids := ["P12345"; "P12345-2"; "P12345-3"] in
  rectangular df /\
  (exists more, fcols df = base_columns ++ more /\
     forall c, c ∈ more ->
       exists fam, fam ∈ families /\ refers_to annotated fam.1 /\ c ∈ fam.2) /\
  (forall k, k ∈ ids -> rows_at k df <> []) /\
  (NoDup ids ->
   forall k, k ∈ ids ->
     length (rows_at k df) = combinations "P12345" (Some "P12345-1") annotated k /\
     ((forall t, t ∈ XTERMS ->
         attributed "P12345" (Some "P12345-1") annotated t.1 k <= 1) ->
      length (rows_at k df) = 1)).
Proof.
  apply (merged_rows net_down self0 annotated corum0 None fresh (run annotated).1);
    vm_compute; reflexivity.
Defined.

(** C1, as the specification has it, fails: the two Ensembl tuples of
    the record carry no bracket, both are attributed to P12345, and the
    report has two rows for this isoform id; and the report has no
    column of RefSeq, to which the record does not refer. *)
Lemma two_tuples_give_two_rows :
  run two_ensembl = (fresh, Some (report_of two_ensembl)) /\
  isoforms "P12345" two_ensembl = Some (["P12345"], None) /\
  length (rows_at "P12345" (report_of two_ensembl)) = 2 /\
  ("xref_RefSeq_protId" ∉ fcols (report_of two_ensembl)).
Proof.
  repeat split; try (vm_compute; reflexivity).
  refine (bool_decide_unpack _ _). vm_compute. exact I.
Qed.

(** C2, witness: the record refers to no CCDS entry. *)
Lemma absent_family_columns_witness :
  let df := report_of annotated in
  (forall acc disp t, t ∈ XTERMS -> t.1 = "CCDS" ->
     xterm_table acc disp (rcross_of (fst <$> XTERMS) (cross_references annotated)) t =
       Some (Table t.2 [(fun _ => NaN) <$> t.2])) /\
  (forall acc v t, t ∈ CTERMS -> t.1 = "CCDS" ->
     cterm_table net_down self0 acc (rcross_of (fst <$> CTERMS) (cross_references annotated))
       corum0 None v t =
       (v, Some (Table (fst <$> t.2) [(fun _ => NaN) <$> t.2]))) /\
  (forall c, c ∈ ["xref_CCDS"] ->
     (c ∉ fcols df) /\
     forall row i, row ∈ trows (to_file df) -> HEADERS !! i = Some c ->
       row !! i = Some NaN) /\
  tcols (to_file df) = HEADERS /\
  Forall (fun row => length row = length HEADERS) (trows (to_file df)).
Proof.
  apply (absent_family_columns net_down self0 annotated corum0 None fresh (run annotated).1
           (report_of annotated) ("CCDS", ["xref_CCDS"])).
  - vm_compute. reflexivity.
  - refine (bool_decide_unpack _ _). vm_compute. exact I.
  - unfold refers_to. refine (bool_decide_unpack _ _). vm_compute. exact I.
Defined.

(** C2, as the specification has it, fails: the record has no
    cross-reference, and its report has the columns of the base table
    and no column of any family. *)
Lemma absent_family_is_not_merged :
  run bare = (fresh, Some (report_of bare)) /\
  ~ refers_to bare "Ensembl" /\
  fcols (report_of bare) = base_columns /\
  ("xref_Ensembl_protId" ∉ fcols (report_of bare)).
Proof.
  unfold refers_to. repeat split; try (vm_compute; reflexivity);
    refine (bool_decide_unpack _ _); vm_compute; exact I.
Qed.

(** C10, witness: the gene symbol on the row of the second isoform of
    a record with three isoforms. *)
Lemma scalar_metadata_witness :
  let df := report_of annotated in
  exists row,
    ("P12345-2", row) ∈ frows df /\
    cell_at df row "Gene" = Some (Str "TST1").
Proof.
  eexists. split.
  - vm_compute. right. left.
  - apply (scalar_metadata net_down self0 annotated corum0 None fresh (run annotated).1
             (report_of annotated) "P12345" ["P12345"; "P12345-2"; "P12345-3"]
             (Some "P12345-1") eq_refl eq_refl eq_refl "P12345-2" _
             ltac:(vm_compute; right; left) "Gene" "TST1"
             ltac:(vm_compute; right; left)).
Defined.

(** C10, as the specification has it, fails: the Ensembl tuple names an
    isoform that the record does not declare; the report has a row for
    it, and the entry name is missing on this row and present on the
    row of P12345. *)
Lemma foreign_row_lacks_metadata :
  let df := report_of foreign_isoform in
  run foreign_isoform = (fresh, Some df) /\
  exists row1 row2,
    ("P12345", row1) ∈ frows df /\
    ("Q99999-3", row2) ∈ frows df /\
    cell_at df row1 "xref_UniProt_Name" = Some (Str "TEST_HUMAN") /\
    cell_at df row2 "xref_UniProt_Name" = Some NaN.
Proof.
  split; [vm_compute; reflexivity|].
  eexists _, _. split; [|split; [|split]].
  - vm_compute. left.
  - vm_compute. right. left.
  - vm_compute. reflexivity.
  - vm_compute. reflexivity.
Qed.

End ReportFacts.

(** ** The cache during a run *)

Module CacheFacts.
Import Py Re Pandas Xrefs Cats Kegg Vocabulary PyFacts KeggFacts PartFacts Report Cache Examples.

Section Lookups.

Variable net : nat -> string -> option string.
Variable dir : string.

Local Abbreviation after := (after_lookups net dir).

Lemma grows_refl (ids : list string) (w : world) : grows dir ids w w.
Proof.
  split; [done|]. split.
  - exists []. split; [by rewrite app_nil_r|apply sublist_nil_l].
  - intros path Hnone [v Hv]. congruence.
Qed.

Lemma grows_app (ids1 ids2 : list string) (w w1 w2 : world) :
  grows dir ids1 w w1 -> grows dir ids2 w1 w2 -> grows dir (ids1 ++ ids2) w w2.
Proof.
  intros (Hf1 & (s1 & Hr1 & Hs1) & Hn1) (Hf2 & (s2 & Hr2 & Hs2) & Hn2).
  split; [by etrans|]. split.
  - exists (s1 ++ s2). split; [by rewrite Hr2, Hr1, app_assoc|by apply sublist_app].
  - intros path Hnone Hsome.
    destruct (files w1 !! path) as [v|] eqn:Hw1.
    + destruct (Hn1 path Hnone) as (id & Hid & Hpath); [by eexists|].
      exists id. split; [|done]. apply elem_of_app. by left.
    + destruct (Hn2 path Hw1 Hsome) as (id & Hid & Hpath).
      exists id. split; [|done]. apply elem_of_app. by right.
Qed.

Lemma grows_sublist (ids1 ids2 : list string) (w w' : world) :
  ids1 `sublist_of` ids2 -> grows dir ids1 w w' -> grows dir ids2 w w'.
Proof.
  intros Hsub (Hf & (s & Hr & Hs) & Hn). split; [done|]. split.
  - exists s. split; [done|]. by etrans.
  - intros path Hnone Hsome. destruct (Hn path Hnone Hsome) as (id & Hid & Hpath).
    exists id. split; [|done]. by apply (sublist_subseteq _ _ Hsub).
Qed.

(** The three ways in which one lookup changes the world. *)
Lemma grows_one (id : string) (w w' : world) :
  files w ⊆ files w' ->
  requests w' = requests w \/ requests w' = requests w ++ [id] ->
  (forall path, path <> cache_file dir id ".txt" -> path <> cache_file dir id ".dat" ->
     files w' !! path = files w !! path) ->
  grows dir [id] w w'.
Proof.
  intros Hsub Hreq Hother. split; [done|]. split.
  - destruct Hreq as [-> | ->].
    + exists []. split; [by rewrite app_nil_r|apply sublist_nil_l].
    + by exists [id].
  - intros path Hnone Hsome. exists id. split; [by left|].
    destruct (decide (path = cache_file dir id ".txt")) as [?|Ht]; [by left|].
    destruct (decide (path = cache_file dir id ".dat")) as [?|Hd]; [by right|].
    rewrite (Hother _ Ht Hd), Hnone in Hsome. by destruct Hsome.
Qed.

Lemma store_grows (id record : string) (w0 w : world) :
  files w !! cache_file dir id ".txt" = None ->
  grows dir [id] w0 w ->
  grows dir [id] w0 (derive_and_store w (cache_file dir id ".txt") record).1.
Proof.
  intros Hnone Hg. unfold derive_and_store.
  destruct (is_empty (derive record)); simpl; [done|].
  destruct Hg as (Hf & Hr & Hn). split; [|split].
  - etrans; [exact Hf|]. by apply insert_subseteq.
  - done.
  - intros path Hp Hsome. simpl in Hsome.
    destruct (decide (cache_file dir id ".txt" = path)) as [<-|Hne].
    + exists id. split; [by left|by left].
    + rewrite lookup_insert_ne in Hsome by done. by apply Hn.
Qed.

(** One lookup: no file of the cache is removed or changed, at most one
    request is sent, and the files that are new are the two cache files
    of the identifier. *)
Lemma lookup_grows (w : world) (id : string) :
  grows dir [id] w (kegg_lookup net dir w id).1.
Proof.
  unfold kegg_lookup.
  destruct (files w !! cache_file dir id ".txt") as [rc|] eqn:Htxt; [apply grows_refl|].
  destruct (files w !! cache_file dir id ".dat") as [record|] eqn:Hdat.
  { apply store_grows; [done|apply grows_refl]. }
  unfold kegg_get. destruct (net (length (requests w)) id) as [record|]; simpl.
  - apply store_grows.
    + simpl. rewrite lookup_insert_ne; [done|]. intros H. by apply (txt_is_not_dat dir id id).
    + apply grows_one; simpl; [by apply insert_subseteq|by right|].
      intros path _ Hd. by rewrite lookup_insert_ne.
  - apply grows_one; simpl; [done|by right|done].
Qed.

Lemma after_app (w : world) (ids1 ids2 : list string) :
  after w (ids1 ++ ids2) = after (after w ids1) ids2.
Proof. apply foldl_app. Qed.

Lemma after_grows (w : world) (ids : list string) : grows dir ids w (after w ids).
Proof.
  revert w. induction ids as [|id ids IH]; intros w; [apply grows_refl|].
  apply (grows_app [id] ids w (kegg_lookup net dir w id).1); [apply lookup_grows|apply IH].
Qed.

Lemma no_lookups (ids : list string) (w : world) :
  exists sent, sent `sublist_of` ids /\ w = after w sent.
Proof. exists []. split; [apply sublist_nil_l|done]. Qed.

(** The lookups of the tuples of a record, in their order, up to the
    first tuple without a field. *)
Lemma kegg_values_lookups (w : world) (rconts : list (list string)) :
  exists ids, ids `sublist_of` omap head rconts /\
    (kegg_values net dir w rconts).1 = after w ids.
Proof.
  revert w. induction rconts as [|rcont rconts IH]; intros w; [apply no_lookups|].
  simpl. destruct (head rcont) as [id|] eqn:Hhead; simpl.
  - destruct (kegg_lookup net dir w id) as [w1 rc] eqn:Hlookup.
    destruct (IH w1) as (ids & Hsub & Hw).
    destruct (kegg_values net dir w1 rconts) as [w2 rcs]. cbn [fst] in *.
    exists (id :: ids). split; [by apply sublist_skip|].
    unfold after_lookups. cbn [foldl]. by rewrite Hlookup.
  - apply no_lookups.
Qed.

(** *** What the cache answers *)

Lemma answers_lookup (w : world) (id v : string) :
  answers dir w id v -> kegg_lookup net dir w id = (w, Some v).
Proof.
  intros [Htxt|[-> Hraw]]; [by apply lookup_txt|by apply raw_only_lookup].
Qed.

Lemma lookup_answers (w w' : world) (id v : string) :
  kegg_lookup net dir w id = (w', Some v) -> answers dir w' id v.
Proof.
  assert (forall w0 record, files w0 !! cache_file dir id ".txt" = None ->
            files w0 !! cache_file dir id ".dat" = Some record ->
            derive_and_store w0 (cache_file dir id ".txt") record = (w', Some v) ->
            answers dir w' id v) as Hstore.
  { intros w0 record Htxt Hdat. unfold derive_and_store.
    destruct (is_empty (derive record)) eqn:He.
    - intros [= <- <-]. right. apply is_empty_true in He. rewrite He.
      split; [done|]. split; [done|]. by exists record.
    - intros [= <- <-]. left. simpl. by rewrite lookup_insert_eq. }
  unfold kegg_lookup.
  destruct (files w !! cache_file dir id ".txt") as [rc|] eqn:Htxt.
  { intros [= <- <-]. by left. }
  destruct (files w !! cache_file dir id ".dat") as [record|] eqn:Hdat.
  { by apply Hstore. }
  unfold kegg_get. destruct (net (length (requests w)) id) as [record|]; [|done].
  apply Hstore; simpl.
  - rewrite lookup_insert_ne; [done|]. intros H. by apply (txt_is_not_dat dir id id).
  - by rewrite lookup_insert_eq.
Qed.

Lemma answers_preserved (w : world) (id id' v : string) :
  answers dir w id v -> answers dir (kegg_lookup net dir w id').1 id v.
Proof.
  intros [Htxt|[-> Hraw]].
  - left. destruct (lookup_grows w id') as (Hsub & _).
    by apply (lookup_weaken _ _ _ _ Htxt).
  - right. split; [done|]. by apply raw_only_preserved.
Qed.

Lemma answers_after (w : world) (id v : string) (ids : list string) :
  answers dir w id v -> answers dir (after w ids) id v.
Proof.
  revert w. induction ids as [|id' ids IH]; intros w Hw; [done|].
  simpl. by apply IH, answers_preserved.
Qed.

Section Online.

(** KEGG answers every request. *)
Hypothesis online : forall n id, is_Some (net n id).

Lemma lookup_online (w : world) (id : string) : is_Some (kegg_lookup net dir w id).2.
Proof.
  unfold kegg_lookup, derive_and_store.
  destruct (files w !! cache_file dir id ".txt"); [by eexists|].
  destruct (files w !! cache_file dir id ".dat").
  { destruct (is_empty _); by eexists. }
  unfold kegg_get. destruct (online (length (requests w)) id) as [record ->].
  destruct (is_empty _); by eexists.
Qed.

(** The values of the tuples of a record are the same in every later
    world, and no lookup changes that world. *)
Lemma kegg_values_again (w w' : world) (rconts : list (list string)) (vs : list string) :
  kegg_values net dir w rconts = (w', Some vs) ->
  forall later,
    kegg_values net dir (after w' later) rconts = (after w' later, Some vs).
Proof.
  revert w vs. induction rconts as [|rcont rconts IH]; intros w vs.
  { simpl. by intros [= <- <-]. }
  simpl. destruct (head rcont) as [id|]; [|done].
  destruct (kegg_lookup net dir w id) as [w1 rc] eqn:Hlookup.
  destruct (lookup_online w id) as [v Hv]. rewrite Hlookup in Hv. simpl in Hv. subst rc.
  apply lookup_answers in Hlookup.
  destruct (kegg_values_lookups w1 rconts) as (ids & _ & Hids).
  destruct (kegg_values net dir w1 rconts) as [w2 [vs'|]] eqn:Hvalues; [|done].
  simpl in Hids. subst w2. simpl. intros [= <- <-] later.
  rewrite <- after_app.
  rewrite (answers_lookup _ id v) by by apply answers_after.
  rewrite after_app, (IH _ _ Hvalues). done.
Qed.

End Online.

End Lookups.

Section Pipeline.

Variable net : nat -> string -> option string.
Variable self : creator.
Variable r : record.
Variables (corum_json : option (list complex)) (panther_df : option (list (cell * cell))).

Local Abbreviation dir := (cached_dir_kegg self).
Local Abbreviation rcross := (rcross_of (fst <$> CTERMS) (cross_references r)).
Local Abbreviation after := (after_lookups net dir).

(** The extractor of KEGG with the one column of [CTERMS]. *)
Lemma extract_kegg (acc : string) (w : world) (rconts : list (list string)) :
  extract net self w "KEGG" [("cat_KEGG", "")] rconts acc corum_json panther_df =
    ((kegg_values net dir w rconts).1,
     (fun l => (["cat_KEGG"], [[joined l]])) <$> (kegg_values net dir w rconts).2).
Proof.
  unfold extract, _extract_cat_kegg. cbn [str_eq String.eqb Ascii.eqb Bool.eqb foldl].
  destruct (kegg_values net dir w rconts) as [w1 [rcs|]]; reflexivity.
Qed.

(** A round of another category does not touch the world, and what it
    returns does not depend on it. *)
Lemma cterm_table_offline (acc : string) (w w0 : world) (t : string * list (string * string)) :
  t ∈ CTERMS -> t.1 <> "KEGG" ->
  cterm_table net self acc rcross corum_json panther_df w t =
    (w, (cterm_table net self acc rcross corum_json panther_df w0 t).2).
Proof.
  unfold CTERMS at 1.
  rewrite !elem_of_cons, elem_of_nil. intros [->|[->|[->|[->|[->|[]]]]]] Hne; [|done|..];
    unfold cterm_table; cbn [fst snd]; destruct (rcross !! _); reflexivity.
Qed.

Lemma cterm_table_kegg (acc : string) (w : world) :
  cterm_table net self acc rcross corum_json panther_df w ("KEGG", [("cat_KEGG", "")]) =
    match tuples_of r "KEGG" with
    | [] => (w, Some (Table ["cat_KEGG"] [[NaN]]))
    | rcont :: rconts =>
        ((kegg_values net dir w (rcont :: rconts)).1,
         (fun l => Table ["cat_KEGG"] [[joined l]]) <$>
           (kegg_values net dir w (rcont :: rconts)).2)
    end.
Proof.
  unfold cterm_table. cbn [fst snd].
  rewrite rcross_tuples by (refine (bool_decide_unpack _ _); vm_compute; exact I).
  destruct (tuples_of r "KEGG") as [|rcont rconts]; [reflexivity|].
  cbn [nonempty]. rewrite extract_kegg.
  by destruct (kegg_values net dir w (rcont :: rconts)) as [w1 [vs|]].
Qed.

Lemma cterm_table_lookups (acc : string) (w : world) (t : string * list (string * string)) :
  t ∈ CTERMS ->
  exists sent, sent `sublist_of` round_ids r t /\
    (cterm_table net self acc rcross corum_json panther_df w t).1 = after w sent.
Proof.
  intros Ht. destruct (decide (t.1 = "KEGG")) as [Hk|Hk].
  - assert (t = ("KEGG", [("cat_KEGG", "")])) as ->.
    { revert Ht Hk. unfold CTERMS. rewrite !elem_of_cons, elem_of_nil.
      by intros [->|[->|[->|[->|[->|[]]]]]]. }
    rewrite cterm_table_kegg. unfold round_ids, kegg_ids. cbn [fst str_eq String.eqb].
    destruct (tuples_of r "KEGG") as [|rcont rconts]; [apply no_lookups|].
    apply kegg_values_lookups.
  - rewrite (cterm_table_offline acc w w t Ht Hk). apply no_lookups.
Qed.

Lemma join_cterm_world (acc : string) (ids : list string) (w : world) (df1 : frame) (t : string * list (string * string)) :
  (join_cterm net self acc ids rcross corum_json panther_df w df1 t).1 =
  (cterm_table net self acc rcross corum_json panther_df w t).1.
Proof.
  unfold join_cterm. by destruct (cterm_table _ _ _ _ _ _ _ _) as [w1 df2].
Qed.

Lemma join_cterms_lookups (acc : string) (ids : list string) (terms : list (string * list (string * string))) (w : world) (df1 : frame) :
  terms ⊆ CTERMS ->
  exists sent, sent `sublist_of` rounds_ids r terms /\
    (join_cterms net self acc ids rcross corum_json panther_df w df1 terms).1 = after w sent.
Proof.
  revert w df1. induction terms as [|t terms IH]; intros w df1 Hsub; [apply no_lookups|].
  cbn [join_cterms].
  destruct (cterm_table_lookups acc w t) as (s1 & Hs1 & Hw1); [apply Hsub; by left|].
  rewrite <- (join_cterm_world acc ids w df1 t) in Hw1.
  destruct (join_cterm net self acc ids rcross corum_json panther_df w df1 t)
    as [w1 [df'|]]; cbn [fst] in Hw1.
  - destruct (IH w1 df') as (s2 & Hs2 & Hw2); [intros x Hx; apply Hsub; by right|].
    exists (s1 ++ s2). split; [by apply sublist_app|].
    by rewrite Hw2, Hw1, after_app.
  - exists s1. split; [|done]. unfold rounds_ids. rewrite bind_cons.
    by apply sublist_inserts_r.
Qed.

(** The world that [_create_qreport] leaves is the world after lookups
    of KEGG identifiers of the record. *)
Lemma qreport_lookups (w : world) :
  exists sent, sent `sublist_of` kegg_ids r /\
    (_create_qreport net self w r corum_json panther_df).1 = after w sent.
Proof.
  unfold _create_qreport.
  destruct (_ ← head (accessions r); _) as [[[acc ids] df1]|]; [|apply no_lookups].
  destruct (join_cterms_lookups acc ids CTERMS w df1) as (sent & Hsub & Hw); [done|].
  exists sent. split; [|done].
  unfold rounds_ids, CTERMS in Hsub. simpl in Hsub. by rewrite app_nil_r in Hsub.
Qed.

(** X1.  Whatever the record and whether or not a report comes out,
    [_create_qreport] only adds to the KEGG cache: every file that was
    in the cache is still there with the text it had; the requests it
    sends are requests of KEGG identifiers of the record, in the order
    of its tuples and at most one for each tuple; and a file that is
    new is the derived-text file or the raw-response file of one of
    these identifiers. *)
Theorem report_only_adds_to_the_cache (w : world) :
  let w' := (_create_qreport net self w r corum_json panther_df).1 in
  files w ⊆ files w' /\
  (exists sent, requests w' = requests w ++ sent /\ sent `sublist_of` kegg_ids r) /\
  (forall path, files w !! path = None -> is_Some (files w' !! path) ->
     exists id, id ∈ kegg_ids r /\
       (path = cache_file dir id ".txt" \/ path = cache_file dir id ".dat")).
Proof.
  destruct (qreport_lookups w) as (sent & Hsub & Hw). cbv zeta. rewrite Hw.
  apply (grows_sublist dir sent), after_grows. done.
Qed.

Section Online.

Hypothesis online : forall n id, is_Some (net n id).

Lemma cterm_table_again (acc : string) (w w1 : world) (t : string * list (string * string)) (tb : table) :
  t ∈ CTERMS ->
  cterm_table net self acc rcross corum_json panther_df w t = (w1, Some tb) ->
  forall later,
    cterm_table net self acc rcross corum_json panther_df (after w1 later) t =
      (after w1 later, Some tb).
Proof.
  intros Ht. destruct (decide (t.1 = "KEGG")) as [Hk|Hk].
  - assert (t = ("KEGG", [("cat_KEGG", "")])) as ->.
    { revert Ht Hk. unfold CTERMS. rewrite !elem_of_cons, elem_of_nil.
      by intros [->|[->|[->|[->|[->|[]]]]]]. }
    rewrite cterm_table_kegg. intros Hrun later. rewrite cterm_table_kegg.
    destruct (tuples_of r "KEGG") as [|rcont rconts]; [by injection Hrun as <- <-|].
    destruct (kegg_values net dir w (rcont :: rconts)) as [w2 [vs|]] eqn:Hvalues;
      cbn [fst snd fmap option_fmap option_map] in Hrun; [|done].
    injection Hrun as <- <-.
    by rewrite (kegg_values_again net dir online _ _ _ _ Hvalues later).
  - intros Hrun later.
    by rewrite (cterm_table_offline acc (after w1 later) w t Ht Hk), Hrun.
Qed.

Lemma join_cterm_again (acc : string) (ids : list string) (w w1 : world) (df1 df' : frame) (t : string * list (string * string)) :
  t ∈ CTERMS ->
  join_cterm net self acc ids rcross corum_json panther_df w df1 t = (w1, Some df') ->
  forall later,
    join_cterm net self acc ids rcross corum_json panther_df (after w1 later) df1 t =
      (after w1 later, Some df').
Proof.
  intros Ht. unfold join_cterm.
  destruct (cterm_table net self acc rcross corum_json panther_df w t) as [w2 [tb|]] eqn:Htb;
    [|done].
  intros Hrun later. injection Hrun as -> Hdf.
  rewrite (cterm_table_again acc w w1 t tb Ht Htb later). f_equal. exact Hdf.
Qed.

Lemma join_cterms_again (acc : string) (ids : list string) (terms : list (string * list (string * string))) (w w' : world) (df1 df : frame) :
  terms ⊆ CTERMS ->
  join_cterms net self acc ids rcross corum_json panther_df w df1 terms = (w', Some df) ->
  forall later,
    join_cterms net self acc ids rcross corum_json panther_df (after w' later) df1 terms =
      (after w' later, Some df).
Proof.
  revert w df1. induction terms as [|t terms IH]; intros w df1 Hsub.
  { cbn [join_cterms]. by intros [= <- <-]. }
  cbn [join_cterms].
  destruct (join_cterm net self acc ids rcross corum_json panther_df w df1 t)
    as [w1 [df'|]] eqn:Hround; [|done].
  intros Hrest later.
  destruct (join_cterms_lookups acc ids terms w1 df') as (sent & _ & Hw');
    [intros x Hx; apply Hsub; by right|].
  rewrite Hrest in Hw'. cbn [fst] in Hw'. subst w'.
  rewrite <- after_app.
  rewrite (join_cterm_again acc ids w w1 df1 df' t) by (try done; apply Hsub; by left).
  rewrite after_app. apply (IH w1 df'); [intros x Hx; apply Hsub; by right|done].
Qed.

(** The report of a record is the same in every later world, and the
    run that gives it leaves that world as it is. *)
Lemma qreport_again (w w' : world) (df : frame) (later : list string) :
  _create_qreport net self w r corum_json panther_df = (w', Some df) ->
  _create_qreport net self (after w' later) r corum_json panther_df =
    (after w' later, Some df).
Proof.
  unfold _create_qreport.
  destruct (_ ← head (accessions r); _) as [[[acc ids] df1]|]; [|done].
  intros Hrun. by apply (join_cterms_again acc ids CTERMS w w' df1 df).
Qed.

End Online.

End Pipeline.

End CacheFacts.

(** ** The values of the category columns *)

Module EntryFacts.
Import Py Re Pandas Xrefs Cats Vocabulary PyFacts CatFacts Entries.

Lemma append_assoc (a b c : string) : (a +:+ b) +:+ c = a +:+ (b +:+ c).
Proof.
  induction a as [|x a IH]; [done|].
  change (String x ((a +:+ b) +:+ c) = String x (a +:+ (b +:+ c))). by rewrite IH.
Qed.

Lemma join_cons (sep x : string) (l : list string) :
  l <> [] -> join sep (x :: l) = x +:+ sep +:+ join sep l.
Proof. by destruct l. Qed.

(** *** Gene Ontology *)

Lemma go_step_kept (rcs : gmap string string) (id term evidence : string) (more : list string) :
  member (before_colon evidence) flts = true ->
  go_step rcs (id :: term :: evidence :: more) =
    Some (<[before_colon term :=
              match rcs !! before_colon term with
              | Some old => old +:+ ";" +:+ (id +:+ ">" +:+ replace_char ";" "," term +:+ "|" +:+ evidence)
              | None => id +:+ ">" +:+ replace_char ";" "," term +:+ "|" +:+ evidence
              end]> rcs).
Proof.
  intros Hkept. unfold go_step. cbn [lookup list_lookup mbind option_bind].
  rewrite Hkept. cbn [mbind option_bind]. by destruct (rcs !! before_colon term).
Qed.

Lemma go_step_dropped (rcs : gmap string string) (id term evidence : string) (more : list string) :
  member (before_colon evidence) flts = false ->
  go_step rcs (id :: term :: evidence :: more) = Some rcs.
Proof.
  intros Hkept. unfold go_step. cbn [lookup list_lookup mbind option_bind].
  by rewrite Hkept.
Qed.

Lemma go_entries_cons (g : string) (rcont : list string) (rconts : list (list string)) :
  go_entries g (rcont :: rconts) =
    (if go_kept g rcont then option_list (go_entry rcont) else []) ++ go_entries g rconts.
Proof.
  unfold go_entries. destruct (go_kept g rcont) eqn:Hk.
  - rewrite filter_cons_True by (rewrite Hk; exact I). simpl. by destruct (go_entry rcont).
  - rewrite filter_cons_False; [done|]. rewrite Hk. by intros [].
Qed.

(** The dictionary [rcs] after the loop over the tuples: every key holds
    what it held and then the entries of the tuples of its aspect that
    are kept, in their order. *)
Lemma go_groups_spec (rcs : gmap string string) (rconts : list (list string)) :
  Forall (fun rcont => 3 <= length rcont) rconts ->
  exists m, go_groups rcs rconts = Some m /\
    forall g, m !! g = merged (rcs !! g) (go_entries g rconts).
Proof.
  intros Hall. revert rcs. induction Hall as [|rcont rconts Hlen _ IH]; intros rcs.
  { exists rcs. by split. }
  destruct rcont as [|id [|term [|evidence more]]]; simpl in Hlen; try lia.
  cbn [go_groups].
  destruct (member (before_colon evidence) flts) eqn:Hkept.
  - rewrite go_step_kept by done. cbn [mbind option_bind].
    match goal with
    | |- context [go_groups ?rcs1 rconts] => destruct (IH rcs1) as (m & -> & Hm)
    end.
    exists m. split; [done|]. intros g. rewrite Hm, go_entries_cons.
    unfold go_kept. rewrite Hkept, andb_true_r. unfold str_eq.
    destruct (String.eqb_spec (before_colon term) g) as [<-|Hne].
    + rewrite lookup_insert_eq. simpl (option_list _ ++ _).
      destruct (go_entries (before_colon term) rconts) as [|e es] eqn:Hes.
      * by destruct (rcs !! before_colon term).
      * unfold merged. f_equal. rewrite (join_cons _ _ (e :: es)) by done.
        destruct (rcs !! before_colon term); [|done].
        by rewrite !append_assoc.
    + by rewrite lookup_insert_ne.
  - rewrite go_step_dropped by done. cbn [mbind option_bind].
    destruct (IH rcs) as (m & -> & Hm).
    exists m. split; [done|]. intros g. rewrite Hm, go_entries_cons.
    unfold go_kept. by rewrite Hkept, andb_false_r.
Qed.

(** X2.  The GO columns.  For tuples that have their three fields, the
    column of an aspect holds the entries [id>term|evidence] of the
    tuples of that aspect whose evidence code is one of the fifteen
    codes of [flts], in the order of the tuples and joined with
    semicolons; it is missing when there is no such tuple.  A tuple
    with any other evidence code reaches no column. *)
Theorem go_columns_hold_the_kept_terms (rconts : list (list string)) (xpats : list (string * string)) :
  Forall (fun rcont => 3 <= length rcont) rconts ->
  _extract_cat_go rconts xpats =
    Some (fst <$> xpats,
          one_row ((fun xpat : string * string => joined (go_entries xpat.2 rconts)) <$> xpats)).
Proof.
  intros Hall. unfold _extract_cat_go.
  destruct (go_groups_spec ∅ rconts Hall) as (m & -> & Hm). cbn [mbind option_bind].
  do 3 f_equal. apply list_fmap_ext. intros i xpat _. rewrite Hm, lookup_empty.
  by destruct (go_entries xpat.2 rconts).
Qed.

(** X2, witness: two terms of the aspect C with an experimental code,
    one with the code IEA, and a term of the aspect P. *)
Lemma go_columns_hold_the_kept_terms_witness :
  _extract_cat_go
    [["GO:0005634"; "C:nucleus"; "IDA:UniProtKB"];
     ["GO:0005737"; "C:cytoplasm"; "IEA:Ensembl"];
     ["GO:0006915"; "P:apoptotic process"; "IMP:UniProtKB"];
     ["GO:0005829"; "C:cytosol"; "HDA:UniProtKB"]]
    [("cat_GO_C", "C"); ("cat_GO_F", "F"); ("cat_GO_P", "P")] =
    Some (["cat_GO_C"; "cat_GO_F"; "cat_GO_P"],
          [[Str "GO:0005634>C:nucleus|IDA:UniProtKB;GO:0005829>C:cytosol|HDA:UniProtKB";
            NaN;
            Str "GO:0006915>P:apoptotic process|IMP:UniProtKB"]]).
Proof.
  apply (go_columns_hold_the_kept_terms
           [["GO:0005634"; "C:nucleus"; "IDA:UniProtKB"];
            ["GO:0005737"; "C:cytoplasm"; "IEA:Ensembl"];
            ["GO:0006915"; "P:apoptotic process"; "IMP:UniProtKB"];
            ["GO:0005829"; "C:cytosol"; "HDA:UniProtKB"]]
           [("cat_GO_C", "C"); ("cat_GO_F", "F"); ("cat_GO_P", "P")]).
  repeat constructor.
Defined.

(** *** Values that split back into their entries *)

Section Split.

Variable sep : ascii.

Local Abbreviation free := (all_chars (fun c => negb (ceq c sep))).

Lemma split_free (s : string) : free s = true -> split sep s = [s].
Proof.
  induction s as [|c s IH]; [done|]. simpl. intros [Hc Hs]%andb_true_iff.
  apply negb_true_iff in Hc. by rewrite Hc, IH.
Qed.

Lemma split_app_sep (a b : string) :
  free a = true -> split sep (a +:+ String sep b) = a :: split sep b.
Proof.
  induction a as [|c a IH].
  - intros _. change (split sep (String sep b) = "" :: split sep b). simpl.
    unfold ceq. by rewrite Ascii.eqb_refl.
  - simpl. intros [Hc Ha]%andb_true_iff. apply negb_true_iff in Hc.
    change (split sep (String c (a +:+ String sep b)) = String c a :: split sep b).
    simpl. by rewrite Hc, IH.
Qed.

(** [sep.join(l).split(sep)] is [l] when no text of [l] has the
    separator in it. *)
Lemma split_join (l : list string) :
  l <> [] -> Forall (fun s => free s = true) l ->
  split sep (join (String sep "") l) = l.
Proof.
  intros Hl Hall. induction Hall as [|s l Hs Hall IH]; [done|].
  destruct l as [|s' l]; [by apply split_free|].
  rewrite join_cons by done.
  change (String sep "" +:+ join (String sep "") (s' :: l))
    with (String sep (join (String sep "") (s' :: l))).
  rewrite split_app_sep by done. by rewrite IH.
Qed.

Lemma free_app (a b : string) : free (a +:+ b) = free a && free b.
Proof.
  induction a as [|c a IH]; [done|].
  change (free (String c (a +:+ b)) = free (String c a) && free b).
  simpl. by rewrite IH, andb_assoc.
Qed.

End Split.

Lemma join_not_empty (sep x : string) (l : list string) :
  is_empty x = false -> is_empty (join sep (x :: l)) = false.
Proof. destruct l as [|y l]; [done|]. by destruct x. Qed.

Lemma mapM_const {A B} (y : B) (l : list A) :
  mapM (fun _ : A => Some y) l = Some ((fun _ => y) <$> l).
Proof. induction l as [|x l IH]; [done|]. simpl. by rewrite IH. Qed.

Lemma reactome_entries (rconts : list (list string)) :
  Forall (fun rcont => exists id, head rcont = Some id /\ plain id) rconts ->
  mapM reactome_entry rconts = Some (omap reactome_entry rconts) /\
  Forall plain (omap reactome_entry rconts) /\
  length (omap reactome_entry rconts) = length rconts.
Proof.
  intros Hall. induction Hall as [|rcont rconts (id & Hid & Hplain) _ (IH & IHp & IHl)];
    [done|].
  assert (reactome_entry rcont =
            Some (id +:+ ">" +:+ replace_char ";" ","
                    (strip_period (strip_qualifier (join "|" (tail rcont)))))) as Hentry
    by (unfold reactome_entry; by rewrite Hid).
  assert (omap reactome_entry (rcont :: rconts) =
            (id +:+ ">" +:+ replace_char ";" ","
               (strip_period (strip_qualifier (join "|" (tail rcont)))))
            :: omap reactome_entry rconts) as ->
    by (change (omap reactome_entry (rcont :: rconts))
          with (match reactome_entry rcont with
                | Some y => y :: omap reactome_entry rconts
                | None => omap reactome_entry rconts
                end); by rewrite Hentry).
  split; [|split].
  - cbn [mapM]. rewrite Hentry, IH. done.
  - constructor; [|done]. unfold plain in *.
    by rewrite !free_app, Hplain, replace_char_free.
  - simpl. by rewrite IHl.
Qed.

(** X3.  The Reactome column.  When the record has Reactome tuples and
    the identifier of none has a semicolon in it, the value of the
    column is one text that splits at its semicolons into one entry for
    every tuple, in the order of the tuples: the one semicolon that a
    description had was replaced before the entries were joined. *)
Theorem reactome_value_splits_back (rconts : list (list string)) (xpats : list (string * string)) :
  rconts <> [] ->
  Forall (fun rcont => exists id, head rcont = Some id /\ plain id) rconts ->
  exists v,
    _extract_cat_reactome rconts xpats =
      Some (fst <$> xpats, one_row ((fun _ => Str v) <$> xpats)) /\
    split ";" v = omap reactome_entry rconts /\
    length (split ";" v) = length rconts.
Proof.
  intros Hne Hall. destruct (reactome_entries rconts Hall) as (Hes & Hplain & Hlen).
  assert (omap reactome_entry rconts <> []) as Hne'.
  { intros H. rewrite H in Hlen. by destruct rconts. }
  exists (join ";" (omap reactome_entry rconts)).
  assert (split ";" (join ";" (omap reactome_entry rconts)) = omap reactome_entry rconts)
    as Hsplit by by apply split_join.
  split; [|split; [done|by rewrite Hsplit]].
  unfold _extract_cat_reactome. rewrite Hes. cbn [fmap option_fmap option_map].
  rewrite mapM_const. cbn [mbind option_bind]. do 3 f_equal.
  apply list_fmap_ext. intros i x _. unfold joined.
  by destruct (omap reactome_entry rconts).
Qed.

(** X3, witness: two pathways, one with a semicolon in its name. *)
Lemma reactome_value_splits_back_witness :
  exists v,
    _extract_cat_reactome
      [["R-HSA-109582"; "Hemostasis."]; ["R-HSA-114608"; "Platelet degranulation; alpha"]]
      [("cat_Reactome", "")] =
      Some (["cat_Reactome"], [[Str v]]) /\
    split ";" v = ["R-HSA-109582>Hemostasis"; "R-HSA-114608>Platelet degranulation, alpha"] /\
    length (split ";" v) = 2.
Proof.
  apply (reactome_value_splits_back
           [["R-HSA-109582"; "Hemostasis."]; ["R-HSA-114608"; "Platelet degranulation; alpha"]]
           [("cat_Reactome", "")]); [done|].
  repeat constructor; eexists; (split; [reflexivity|reflexivity]).
Defined.

Lemma filter_cons_bool {A} (f : A -> bool) (x : A) (l : list A) :
  filter (fun c => Is_true (f c)) (x :: l) =
  if f x then x :: filter (fun c => Is_true (f c)) l else filter (fun c => Is_true (f c)) l.
Proof.
  rewrite filter_cons. by destruct (f x) eqn:Hx; case_decide.
Qed.

Lemma corum_entries (complexes : list complex) (acc : string) :
  Forall (fun c => is_Some (subunits c)) complexes ->
  omap corum_entry (filter (fun c => Is_true (default false (corum_member acc c))) complexes)
  = corum_text <$> filter (fun c => Is_true (corum_shown acc c)) complexes.
Proof.
  induction complexes as [|[oid oname ou] l IH]; intros Hk; [done|].
  apply Forall_cons in Hk as [[u Hu] Hk]. cbn [subunits] in Hu. subst ou.
  specialize (IH Hk).
  rewrite (filter_cons_bool (fun c => default false (corum_member acc c))),
          (filter_cons_bool (corum_shown acc)).
  unfold corum_member at 1, corum_shown at 1.
  cbn [subunits ComplexID ComplexName fmap option_fmap option_map default].
  destruct (contains acc u), oid as [id|], oname as [name|]; try done;
    cbn [omap list_omap corum_entry corum_text ComplexID ComplexName mbind option_bind
         fmap list_fmap default];
    by rewrite <- IH.
Qed.

(** X4.  The CORUM column.  In a complex table of which every object
    has its subunits, when a complex whose subunit string contains the
    accession has an identifier and a name, the value of the column
    splits at its semicolons into the entries [compID_<id>>name] of
    exactly the complexes whose subunit string contains the accession
    and that have an identifier and a name, in the order of the table,
    whatever the names of the complexes are: a semicolon of a name was
    replaced, and a complex that lacks its identifier or its name is
    left out. *)
Theorem corum_value_splits_back (complexes : list complex) (acc : string) (xpats : list (string * string)) :
  Forall (fun c => is_Some (subunits c)) complexes ->
  filter (fun c => Is_true (corum_shown acc c)) complexes <> [] ->
  exists v,
    _extract_cat_corum (Some complexes) xpats acc =
      Some (fst <$> xpats, one_row ((fun _ => Str v) <$> xpats)) /\
    split ";" v =
      corum_text <$> filter (fun c => Is_true (corum_shown acc c)) complexes.
Proof.
  intros Hk Hne.
  exists (join ";" (corum_text <$> filter (fun c => Is_true (corum_shown acc c)) complexes)).
  unfold _extract_cat_corum.
  rewrite (corum_value_filter complexes acc Hk), (corum_entries complexes acc Hk).
  destruct (filter (fun c => Is_true (corum_shown acc c)) complexes) as [|c kept];
    [done|].
  split.
  - cbn [fmap option_fmap option_map]. rewrite mapM_const. cbn [mbind option_bind].
    do 3 f_equal. apply list_fmap_ext. intros i x _.
    unfold or_nan. by rewrite fmap_cons, join_not_empty.
  - apply split_join; [done|].
    apply Forall_fmap, Forall_forall. intros c' _. by apply replace_char_free.
Qed.

(** X4, witness: two complexes of P12345, one with a semicolon in its
    name, a complex of P12345 without a name, and a complex of another
    protein. *)
Lemma corum_value_splits_back_witness :
  exists v,
    _extract_cat_corum
      (Some [Complex (Some 7%Z) (Some "Test;Complex") (Some "P12345;Q99999");
             Complex (Some 8%Z) (Some "Other") (Some "Q99999");
             Complex (Some 6%Z) None (Some "P12345");
             Complex (Some 9%Z) (Some "Third") (Some "O00000;P12345")])
      [("cat_CORUM", "")] "P12345" =
      Some (["cat_CORUM"], [[Str v]]) /\
    split ";" v = ["compID_7>Test,Complex"; "compID_9>Third"].
Proof.
  apply (corum_value_splits_back
           [Complex (Some 7%Z) (Some "Test;Complex") (Some "P12345;Q99999");
            Complex (Some 8%Z) (Some "Other") (Some "Q99999");
            Complex (Some 6%Z) None (Some "P12345");
            Complex (Some 9%Z) (Some "Third") (Some "O00000;P12345")]
           "P12345" [("cat_CORUM", "")]).
  - repeat constructor; by eexists.
  - vm_compute. discriminate.
Defined.

End EntryFacts.

(** ** The rows of the report *)

Module RowFacts.
Import Py Re Pandas Isoforms Xrefs Cats Vocabulary PandasFacts BaseFacts PartFacts Report ReportFacts Examples Terms.

Section Rows.

Variable net : nat -> string -> option string.
Variable self : creator.
Variable r : record.
Variables (corum_json : option (list complex)) (panther_df : option (list (cell * cell))).

(** A property of the base table that every join of a partial frame
    keeps is a property of the report. *)
Lemma qreport_keeps (P : frame -> Prop) (w w' : world) (df : frame) (acc : string) (ids : list string) (disp : option string) :
  _create_qreport net self w r corum_json panther_df = (w', Some df) ->
  head (accessions r) = Some acc ->
  isoforms acc r = Some (ids, disp) ->
  (forall base, base_table self r ids = Some base -> P base) ->
  (forall df1 df2 df' t,
     t ∈ XTERMS -> P df1 -> join_outer df1 df2 = Some df' ->
     xpart acc disp r t df2 -> P df') ->
  (forall df1 df2 df' t,
     t ∈ CTERMS -> P df1 -> join_outer df1 df2 = Some df' ->
     cpart ids r t df2 -> P df') ->
  P df.
Proof.
  intros (acc' & ids' & disp' & base & dfx & Hacc & Hiso & Hids & Hbase & Hx & Hc)%qreport_steps
    Hacc' Hiso' Hb xs cs.
  rewrite Hacc in Hacc'. injection Hacc' as ->.
  rewrite Hiso in Hiso'. injection Hiso' as -> ->.
  apply (join_cterms_keeps net self r corum_json panther_df acc ids disp Hids P xs cs
           CTERMS w w' dfx df); [done| |exact Hc].
  apply (join_xterms_keeps r acc ids disp Hids P xs cs XTERMS base dfx); [done| |exact Hx].
  by apply Hb.
Qed.

Lemma join_label (l r' f : frame) (k : string) :
  join_outer l r' = Some f -> k ∈ labels f -> k ∈ labels l \/ k ∈ labels r'.
Proof.
  intros Hjoin [row Hrow]%elem_of_labels.
  destruct (elem_of_join_rows l r' f Hjoin k row Hrow)
    as [(x & y & Hx & _)|[(x & Hx & _)|(y & Hy & _)]].
  - left. apply elem_of_labels. eauto.
  - left. apply elem_of_labels. eauto.
  - right. apply elem_of_labels. eauto.
Qed.

(** X5.  Every row of the report has a source: its label is an isoform
    id of the record, or the isoform id to which a tuple of Ensembl,
    RefSeq or CCDS of the record is attributed.  The categories add no
    label of their own. *)
Theorem report_rows_have_a_source (w w' : world) (df : frame) (acc : string) (ids : list string) (disp : option string) :
  _create_qreport net self w r corum_json panther_df = (w', Some df) ->
  head (accessions r) = Some acc ->
  isoforms acc r = Some (ids, disp) ->
  forall k row, (k, row) ∈ frows df ->
    k ∈ ids \/ exists t, t ∈ XTERMS /\ 0 < attributed acc disp r t.1 k.
Proof.
  intros Hrep Hacc Hiso k row Hrow.
  assert (k ∈ labels df) as Hk by (apply elem_of_labels; eauto).
  clear row Hrow. revert k Hk.
  apply (qreport_keeps
           (fun df => forall k, k ∈ labels df ->
              k ∈ ids \/ exists t, t ∈ XTERMS /\ 0 < attributed acc disp r t.1 k)
           w w' df acc ids disp Hrep Hacc Hiso).
  - intros base Hbase k Hk. left.
    assert (ids <> []) as Hids by by destruct (isoforms_head _ _ _ _ Hiso) as [rest ->].
    destruct (base_table_spec self r ids Hids) as (df0 & Hdf0 & _ & Hl & _).
    rewrite Hbase in Hdf0. injection Hdf0 as <-. by rewrite <- Hl.
  - intros df1 df2 df' t Ht IH Hjoin (_ & _ & _ & Hcount) k Hk.
    destruct (join_label _ _ _ _ Hjoin Hk) as [H1|H2]; [by apply IH|].
    right. exists t. split; [done|]. rewrite <- Hcount.
    destruct (rows_at k df2) eqn:E; [by apply rows_at_nil in E|simpl; lia].
  - intros df1 df2 df' t Ht IH Hjoin (_ & _ & Hl & _) k Hk.
    destruct (join_label _ _ _ _ Hjoin Hk) as [H1|H2]; [by apply IH|].
    left. by rewrite <- Hl.
Qed.

End Rows.

(** X5, witness: the row that the report of a record has for an
    isoform of another protein comes from its Ensembl tuple. *)
Lemma report_rows_have_a_source_witness :
  exists row,
    ("Q99999-3", row) ∈ frows (report_of foreign_isoform) /\
    ("Q99999-3" ∈ ["P12345"] \/
     exists t, t ∈ XTERMS /\ 0 < attributed "P12345" None foreign_isoform t.1 "Q99999-3").
Proof.
  eexists. split.
  - vm_compute. right. left.
  - apply (report_rows_have_a_source net_down self0 foreign_isoform corum0 None fresh
             (run foreign_isoform).1 (report_of foreign_isoform) "P12345" ["P12345"] None
             eq_refl eq_refl eq_refl "Q99999-3" _ ltac:(vm_compute; right; left)).
Defined.

(** *** The cells of a joined row *)

Lemma index_of_Some (c : string) (l : list string) (i : nat) :
  index_of c l = Some i -> l !! i = Some c.
Proof.
  revert i. induction l as [|x l IH]; intros i; [done|]. simpl. unfold str_eq.
  destruct (String.eqb_spec x c) as [->|_]; [by intros [= <-]|].
  destruct (index_of c l) as [j|]; [|done]. intros [= <-]. by apply IH.
Qed.

Lemma index_of_elem (c : string) (l : list string) : c ∈ l -> is_Some (index_of c l).
Proof.
  intros Hc. destruct (index_of c l) eqn:E; [by eexists|].
  exfalso. revert Hc E. induction l as [|x l IH]; [by intros ?%elem_of_nil|].
  simpl. unfold str_eq. destruct (String.eqb_spec x c) as [->|Hne]; [done|].
  intros [->|Hc]%elem_of_cons; [done|]. destruct (index_of c l); [done|]. by intros _; apply IH.
Qed.

Lemma index_of_app_l (c : string) (l1 l2 : list string) :
  c ∈ l1 -> index_of c (l1 ++ l2) = index_of c l1.
Proof.
  induction l1 as [|x l1 IH]; [by intros ?%elem_of_nil|]. simpl. unfold str_eq.
  destruct (String.eqb_spec x c) as [->|Hne]; [done|].
  intros [->|Hc]%elem_of_cons; [done|]. by rewrite IH.
Qed.

Lemma index_of_app_r (c : string) (l1 l2 : list string) :
  c ∉ l1 -> index_of c (l1 ++ l2) = (fun i => length l1 + i) <$> index_of c l2.
Proof.
  induction l1 as [|x l1 IH]; intros Hc.
  - simpl. by destruct (index_of c l2).
  - apply not_elem_of_cons in Hc as [Hne Hc]. simpl. unfold str_eq.
    destruct (String.eqb_spec x c) as [->|_]; [done|]. rewrite IH by done.
    by destruct (index_of c l2).
Qed.

Lemma join_apart (l r' f : frame) (c : string) :
  join_outer l r' = Some f -> c ∈ fcols l -> c ∉ fcols r'.
Proof.
  unfold join_outer. destruct (overlap l r') eqn:E; [done|]. intros _ Hl Hr.
  apply not_true_iff_false in E. apply E. unfold overlap.
  apply existsb_exists. exists c. split; [by apply list_elem_of_In|by apply member_spec].
Qed.

Section Cells.

Variables (l r' f : frame).
Hypothesis Hjoin : join_outer l r' = Some f.

Lemma cell_at_left (x y : list cell) (c : string) :
  c ∈ fcols l -> length x = length (fcols l) ->
  cell_at f (x ++ y) c = cell_at l x c.
Proof.
  intros Hc Hlen. unfold cell_at. rewrite (join_columns l r' f Hjoin), index_of_app_l by done.
  destruct (index_of_elem c _ Hc) as [i Hi]. rewrite Hi. simpl.
  apply index_of_Some, lookup_lt_Some in Hi. by rewrite lookup_app_l by lia.
Qed.

Lemma cell_at_right (x y : list cell) (c : string) :
  c ∉ fcols l -> length x = length (fcols l) ->
  cell_at f (x ++ y) c = cell_at r' y c.
Proof.
  intros Hc Hlen. unfold cell_at. rewrite (join_columns l r' f Hjoin), index_of_app_r by done.
  destruct (index_of c (fcols r')) as [i|]; [|done]. simpl.
  rewrite lookup_app_r by lia. f_equal. lia.
Qed.

End Cells.

Lemma cell_at_nans (l : frame) (c : string) :
  c ∈ fcols l -> cell_at l (nans l) c = Some NaN.
Proof.
  intros Hc. unfold cell_at, nans. destruct (index_of_elem c _ Hc) as [i Hi]. rewrite Hi.
  simpl. apply index_of_Some, lookup_lt_Some in Hi. by apply lookup_replicate_2.
Qed.

(** *** The values of the categories *)

Section Categories.

Variable net : nat -> string -> option string.
Variable self : creator.
Variable r : record.
Variables (corum_json : option (list complex)) (panther_df : option (list (cell * cell))).
Variables (acc : string) (ids : list string) (disp : option string).
Hypothesis Hids : ids <> [].

Local Abbreviation rcross := (rcross_of (fst <$> CTERMS) (cross_references r)).

(** One round of the loop over [CTERMS]: the frame that is joined has
    the one row of the category on every isoform id. *)
Lemma join_cterm_spread (w w' : world) (df1 df' : frame) (t : string * list (string * string)) :
  t ∈ CTERMS ->
  join_cterm net self acc ids rcross corum_json panther_df w df1 t = (w', Some df') ->
  df' = df1 \/
  exists vals, length vals = length t.2 /\
    join_outer df1 (spread_frame ids t vals) = Some df'.
Proof.
  intros Ht.
  assert (XID ∉ fst <$> t.2) as Hlabel.
  { revert Ht. unfold CTERMS. rewrite !elem_of_cons, elem_of_nil.
    intros [->|[->|[->|[->|[->|[]]]]]]; in_list. }
  assert (forall w rconts w' ex,
            extract net self w t.1 t.2 rconts acc corum_json panther_df = (w', Some ex) ->
            ex.1 = fst <$> t.2 /\ exists vals, ex.2 = [vals] /\ length vals = length t.2)
    as Hshape by (intros; by eapply extract_shape).
  apply (list_elem_of_fmap_2 fst) in Ht.
  destruct t as [db xpats]. cbn [fst snd] in *. unfold spread_frame. cbn [snd].
  unfold join_cterm, cterm_table. simpl. rewrite (rcross_tuples _ _ _ Ht).
  destruct (tuples_of r db) as [|rcont rconts] eqn:Hrconts; simpl.
  { destruct (absent_category_table xpats) as (tb & -> & He).
    simpl. rewrite He. intros [= <- <-]. by left. }
  destruct (extract net self w db xpats (rcont :: rconts) acc corum_json panther_df)
    as [w1 [ex|]] eqn:Hex; [|by intros [= ]].
  destruct (Hshape _ _ _ _ Hex) as (Hcols & vals & Hvals & Hlen).
  simpl. rewrite Hcols, Hvals. unfold DataFrame. simpl.
  rewrite length_fmap, Hlen, Nat.eqb_refl. simpl.
  destruct (empty (dropna_all (Table (xpats.*1) [vals]))); [intros [= <- <-]; by left|].
  rewrite spread_spec; [|done|by rewrite length_fmap|done]. simpl.
  intros [= <- Hjoin]. right. by exists vals.
Qed.

(** The two loops keep what the base table has and every join keeps. *)
Lemma join_xterms_keep (P : frame -> Prop) (terms : list (string * list string)) (df1 df : frame) :
  (forall df1 df2 df' t,
     t ∈ XTERMS -> P df1 -> join_outer df1 df2 = Some df' ->
     xpart acc disp r t df2 -> P df') ->
  terms ⊆ XTERMS -> P df1 ->
  join_xterms acc ids disp (rcross_of (fst <$> XTERMS) (cross_references r)) df1 terms = Some df ->
  P df.
Proof.
  intros xs. revert df1. induction terms as [|t terms IH]; intros df1 Hsub HP.
  { cbn [join_xterms]. by intros [= <-]. }
  cbn [join_xterms].
  destruct (join_xterm acc ids disp _ df1 t) as [df'|] eqn:Hstep; [|done].
  cbn [mbind option_bind]. apply IH; [intros x Hx; apply Hsub; by right|].
  apply join_xterm_step in Hstep as [[-> _]|(df2 & Hjoin & Hpart)];
    [done| |apply Hsub; by left].
  apply (xs df1 df2 df' t); [apply Hsub; by left|done..].
Qed.

Lemma join_cterms_keep (P : frame -> Prop) (terms : list (string * list (string * string))) (w w' : world) (df1 df : frame) :
  (forall df1 df' t vals,
     t ∈ CTERMS -> P df1 -> length vals = length t.2 ->
     join_outer df1 (spread_frame ids t vals) = Some df' -> P df') ->
  terms ⊆ CTERMS -> P df1 ->
  join_cterms net self acc ids rcross corum_json panther_df w df1 terms = (w', Some df) ->
  P df.
Proof.
  intros cs. revert w df1. induction terms as [|t terms IH]; intros w df1 Hsub HP.
  { cbn [join_cterms]. by intros [= <- <-]. }
  cbn [join_cterms].
  destruct (join_cterm net self acc ids rcross corum_json panther_df w df1 t)
    as [w1 [df'|]] eqn:Hstep; [|done].
  apply IH; [intros x Hx; apply Hsub; by right|].
  apply join_cterm_spread in Hstep as [->|(vals & Hlen & Hjoin)];
    [done| |apply Hsub; by left].
  apply (cs df1 df' t vals); [apply Hsub; by left|done..].
Qed.

Lemma xref_columns_are_no_categories (t : string * list string) (c : string) :
  t ∈ XTERMS -> c ∈ removelast t.2 -> c ∉ category_columns.
Proof.
  unfold XTERMS. rewrite !elem_of_cons, elem_of_nil. intros [->|[->|[->|[]]]]; simpl;
    rewrite !elem_of_cons, elem_of_nil; intros H; repeat destruct H as [->|H]; try done;
    in_list.
Qed.

Lemma base_columns_are_no_categories (c : string) :
  c ∈ base_columns -> c ∉ category_columns.
Proof.
  unfold base_columns. rewrite !elem_of_cons, elem_of_nil.
  intros H; repeat destruct H as [->|H]; try done; in_list.
Qed.

Lemma rectangular_row (df : frame) (k : string) (row : list cell) :
  rectangular df -> (k, row) ∈ frows df -> length row = length (fcols df).
Proof. unfold rectangular. rewrite Forall_forall. intros H Hrow. by apply (H (k, row)). Qed.

(** What the two loops keep: on the rows of the isoforms of the record
    a column of a category has one value, and on the other rows it has
    none. *)
Lemma per_record_base (base : frame) :
  base_table self r ids = Some base ->
  rectangular base /\ (forall k, k ∈ ids -> k ∈ labels base) /\
  forall c, c ∈ fcols base -> c ∈ category_columns ->
    exists v, forall k row, (k, row) ∈ frows base ->
      cell_at base row c = Some (if bool_decide (k ∈ ids) then v else NaN).
Proof.
  intros Hbase. pose proof (base_table_rectangular _ _ _ _ Hids Hbase) as Hrect.
  destruct (base_table_spec self r ids Hids) as (df0 & Hdf0 & Hc & Hl & _).
  rewrite Hbase in Hdf0. injection Hdf0 as <-.
  split; [done|]. split; [by rewrite Hl|].
  intros c Hin Hcat. rewrite Hc in Hin. by apply base_columns_are_no_categories in Hin.
Qed.

Lemma per_record_join (df1 df2 df' : frame) :
  join_outer df1 df2 = Some df' ->
  rectangular df2 ->
  (forall c, c ∈ fcols df2 -> c ∈ category_columns ->
     exists v, forall k row, (k, row) ∈ frows df2 -> k ∈ ids /\ cell_at df2 row c = Some v) ->
  (forall k, k ∈ ids -> k ∉ labels df2 -> forall c, c ∈ fcols df2 -> c ∉ category_columns) ->
  (rectangular df1 /\ (forall k, k ∈ ids -> k ∈ labels df1) /\
   forall c, c ∈ fcols df1 -> c ∈ category_columns ->
     exists v, forall k row, (k, row) ∈ frows df1 ->
       cell_at df1 row c = Some (if bool_decide (k ∈ ids) then v else NaN)) ->
  (rectangular df' /\ (forall k, k ∈ ids -> k ∈ labels df') /\
   forall c, c ∈ fcols df' -> c ∈ category_columns ->
     exists v, forall k row, (k, row) ∈ frows df' ->
       cell_at df' row c = Some (if bool_decide (k ∈ ids) then v else NaN)).
Proof.
  intros Hjoin Hrect2 Hnew Hmissing (Hrect1 & Hlabels & Hold).
  split; [by apply (join_rectangular df1 df2 df')|].
  split; [intros k Hk; by apply (join_keeps_labels df1 df2 df' Hjoin), Hlabels|].
  intros c Hc Hcat. rewrite (join_columns df1 df2 df' Hjoin) in Hc.
  destruct (decide (c ∈ fcols df1)) as [Hc1|Hc1].
  - destruct (Hold c Hc1 Hcat) as [v Hv]. exists v. intros k row Hrow.
    apply (elem_of_join_rows df1 df2 df' Hjoin) in Hrow
      as [(x & y & Hx & Hy & ->)|[(x & Hx & _ & ->)|(y & Hy & Hk & ->)]].
    + rewrite (cell_at_left df1 df2 df' Hjoin) by (try done; by eapply rectangular_row).
      by apply Hv.
    + rewrite (cell_at_left df1 df2 df' Hjoin) by (try done; by eapply rectangular_row).
      by apply Hv.
    + rewrite (cell_at_left df1 df2 df' Hjoin)
        by (try done; unfold nans; by rewrite length_replicate).
      rewrite cell_at_nans by done. rewrite bool_decide_eq_false_2; [done|].
      intros Hin. by apply Hk, Hlabels.
  - apply elem_of_app in Hc as [Hc|Hc2]; [done|].
    destruct (Hnew c Hc2 Hcat) as [v Hv]. exists v. intros k row Hrow.
    apply (elem_of_join_rows df1 df2 df' Hjoin) in Hrow
      as [(x & y & Hx & Hy & ->)|[(x & Hx & Hk & ->)|(y & Hy & Hk & ->)]].
    + rewrite (cell_at_right df1 df2 df' Hjoin) by (try done; by eapply rectangular_row).
      destruct (Hv _ _ Hy) as [Hin ->]. by rewrite bool_decide_eq_true_2.
    + rewrite (cell_at_right df1 df2 df' Hjoin) by (try done; by eapply rectangular_row).
      rewrite cell_at_nans by done. rewrite bool_decide_eq_false_2; [done|].
      intros Hin. by apply (Hmissing k Hin Hk c Hc2).
    + destruct (Hv _ _ Hy) as [Hin _]. by destruct Hk; apply Hlabels.
Qed.

End Categories.

Section PerRecord.

Variable net : nat -> string -> option string.
Variable self : creator.
Variable r : record.
Variables (corum_json : option (list complex)) (panther_df : option (list (cell * cell))).

(** X6.  The categories are values of the record, not of an isoform: a
    column of GO, KEGG, PANTHER, Reactome or CORUM that the report has
    carries one and the same value on every row of an isoform of the
    record, and a missing value on every row that a cross-reference
    added for another isoform id. *)
Theorem category_values_are_per_record (w w' : world) (df : frame) (acc : string) (ids : list string) (disp : option string) :
  _create_qreport net self w r corum_json panther_df = (w', Some df) ->
  head (accessions r) = Some acc ->
  isoforms acc r = Some (ids, disp) ->
  forall c, c ∈ fcols df -> c ∈ category_columns ->
    exists v, forall k row, (k, row) ∈ frows df ->
      cell_at df row c = Some (if bool_decide (k ∈ ids) then v else NaN).
Proof.
  intros (acc' & ids' & disp' & base & dfx & Hacc & Hiso & Hids & Hbase & Hx & Hc)%qreport_steps
    Hacc' Hiso'.
  rewrite Hacc in Hacc'. injection Hacc' as ->.
  rewrite Hiso in Hiso'. injection Hiso' as -> ->.
  apply (join_cterms_keep net self r corum_json panther_df acc ids Hids
           (fun df => rectangular df /\ (forall k, k ∈ ids -> k ∈ labels df) /\
              forall c, c ∈ fcols df -> c ∈ category_columns ->
                exists v, forall k row, (k, row) ∈ frows df ->
                  cell_at df row c = Some (if bool_decide (k ∈ ids) then v else NaN))
           CTERMS w w' dfx df); [|done| |exact Hc].
  - intros df1 df' t vals Ht HP Hlen Hjoin.
    apply (per_record_join ids df1 (spread_frame ids t vals) df' Hjoin); [| | |done].
    + unfold rectangular, spread_frame. simpl. apply Forall_fmap, Forall_forall.
      intros i _. simpl. by rewrite length_fmap.
    + intros c Hcol _. destruct (index_of_elem c _ Hcol) as [j Hj].
      pose proof (index_of_Some _ _ _ Hj) as Hlt%lookup_lt_Some.
      simpl in Hlt. rewrite length_fmap, <- Hlen in Hlt.
      destruct (lookup_lt_is_Some_2 vals j Hlt) as [v Hv]. exists v.
      intros k row (i & [= -> ->] & Hi)%list_elem_of_fmap. split; [done|].
      unfold cell_at. simpl in Hj |- *. by rewrite Hj.
    + intros k Hk Hnot. exfalso. apply Hnot. unfold labels, spread_frame. simpl.
      rewrite <- list_fmap_compose. by rewrite list_fmap_id.
  - apply (join_xterms_keep r acc ids disp
             (fun df => rectangular df /\ (forall k, k ∈ ids -> k ∈ labels df) /\
                forall c, c ∈ fcols df -> c ∈ category_columns ->
                  exists v, forall k row, (k, row) ∈ frows df ->
                    cell_at df row c = Some (if bool_decide (k ∈ ids) then v else NaN))
             XTERMS base dfx); [|done| |exact Hx].
    + intros df1 df2 df' t Ht HP Hjoin (Hcols & Hrect & _ & _).
      apply (per_record_join ids df1 df2 df' Hjoin); [done| | |done].
      * intros c Hcol Hcat. rewrite Hcols in Hcol.
        by destruct (xref_columns_are_no_categories t c Ht Hcol).
      * intros k _ _ c Hcol. rewrite Hcols in Hcol.
        by apply (xref_columns_are_no_categories t).
    + by apply (per_record_base self r ids Hids).
Qed.

End PerRecord.

(** X6, witness: the GO column of the function on the row of the
    second isoform of a record with three isoforms. *)
Lemma category_values_are_per_record_witness :
  exists v, forall k row, (k, row) ∈ frows (report_of annotated) ->
    cell_at (report_of annotated) row "cat_GO_F" =
      Some (if bool_decide (k ∈ ["P12345"; "P12345-2"; "P12345-3"]) then v else NaN).
Proof.
  apply (category_values_are_per_record net_down self0 annotated corum0 None fresh
           (run annotated).1 (report_of annotated) "P12345"
           ["P12345"; "P12345-2"; "P12345-3"] (Some "P12345-1") eq_refl eq_refl eq_refl
           "cat_GO_F"); in_list.
Defined.

End RowFacts.

(** ** The FASTA side table *)

Module FastaFacts.
Import Py Isoforms Pandas Vocabulary PyFacts PandasFacts BaseFacts EntryFacts Report Fasta.

Local Abbreviation nl := (String newline "").

Lemma startswith_gt (d : ascii) (s : string) : startswith ">" (String d s) = ceq d ">".
Proof.
  unfold startswith, ceq.
  change (String.prefix ">" (String d s))
    with (if ascii_dec ">" d then String.prefix "" s else false).
  destruct (ascii_dec ">" d) as [<-|Hne].
  - by destruct s.
  - symmetry. apply Ascii.eqb_neq. congruence.
Qed.

Lemma startswith_gt_app (a z : string) :
  startswith ">" a = false -> startswith ">" z = false -> startswith ">" (a +:+ z) = false.
Proof.
  destruct a as [|d a]; [by intros _|]. intros H _.
  change (startswith ">" (String d (a +:+ z)) = false). by rewrite startswith_gt in *.
Qed.

(** *** The pieces of the text *)

Lemma split_entries_cons (c : ascii) (s : string) :
  ceq c newline && startswith ">" s = false ->
  split_entries (String c s) =
    match split_entries s with
    | [] => [String c ""]
    | h :: t => String c h :: t
    end.
Proof.
  intros H. cbn [split_entries]. destruct (ceq c newline); [|done].
  destruct s as [|d s]; [done|]. rewrite startswith_gt in H. simpl in H. by rewrite H.
Qed.

Lemma sep_free_cons (c : ascii) (s : string) :
  sep_free (String c s) = true ->
  ceq c newline && startswith ">" s = false /\ sep_free s = true.
Proof. simpl. intros [H ?]%andb_true_iff. by apply negb_true_iff in H. Qed.

Lemma split_entries_free (s : string) : sep_free s = true -> split_entries s = [s].
Proof.
  induction s as [|c s IH]; [done|]. intros [Hc Hs]%sep_free_cons.
  by rewrite split_entries_cons, IH.
Qed.

Lemma split_entries_sep (a b : string) :
  sep_free a = true -> split_entries (a +:+ entry_sep +:+ b) = a :: split_entries b.
Proof.
  induction a as [|c a IH].
  - intros _. change (split_entries (String newline (String ">" b)) = "" :: split_entries b).
    cbn [split_entries]. unfold ceq. by rewrite !Ascii.eqb_refl.
  - intros [Hc Ha]%sep_free_cons.
    change (split_entries (String c (a +:+ entry_sep +:+ b)) = String c a :: split_entries b).
    rewrite split_entries_cons, IH; [done|done|].
    destruct (ceq c newline); [|done]. rewrite andb_true_l in *.
    destruct a as [|d a].
    + change (startswith ">" (String newline (String ">" b)) = false).
      by rewrite startswith_gt.
    + change (startswith ">" (String d (a +:+ entry_sep +:+ b)) = false).
      by rewrite startswith_gt in *.
Qed.

Lemma sep_free_app (a z : string) :
  all_chars (fun c => negb (ceq c newline)) a = true -> sep_free (a +:+ z) = sep_free z.
Proof.
  induction a as [|c a IH]; [done|]. simpl. intros [Hc Ha]%andb_true_iff.
  change (sep_free (String c (a +:+ z)) = sep_free z). simpl.
  apply negb_true_iff in Hc. by rewrite Hc, IH.
Qed.

(** Lines that are joined with newlines, and a tail after them. *)
Lemma lines_free (ls : list string) (tail : string) :
  Forall line ls -> sep_free tail = true -> startswith ">" tail = false ->
  sep_free (join nl ls +:+ tail) = true /\ startswith ">" (join nl ls +:+ tail) = false.
Proof.
  intros Hall Htail Hgt. induction Hall as [|l ls [Hl Hl'] Hall IH]; [done|].
  destruct ls as [|l' ls].
  - simpl. rewrite sep_free_app by done. split; [done|by apply startswith_gt_app].
  - rewrite join_cons by done. rewrite !append_assoc. destruct IH as [IH1 IH2].
    split.
    + rewrite sep_free_app by done.
      change (sep_free (String newline (join nl (l' :: ls) +:+ tail)) = true).
      cbn [sep_free]. rewrite IH2, IH1. by rewrite andb_false_r.
    + apply startswith_gt_app; [done|].
      change (startswith ">" (String newline (join nl (l' :: ls) +:+ tail)) = false).
      by rewrite startswith_gt.
Qed.

Lemma append_nil_r (a : string) : a +:+ "" = a.
Proof.
  induction a as [|c a IH]; [done|]. change (String c (a +:+ "") = String c a).
  by rewrite IH.
Qed.

Lemma join_snoc_empty (ls : list string) :
  ls <> [] -> join nl ls +:+ nl = join nl (ls ++ [""]).
Proof.
  induction ls as [|l ls IH]; [done|]. intros _. destruct ls as [|l' ls]; [done|].
  rewrite join_cons by done. rewrite !append_assoc, IH by done.
  by rewrite <- (join_cons nl l ((l' :: ls) ++ [""])).
Qed.

Lemma length_join_empty (ls : list string) :
  String.length (join "" ls) = sum_list (String.length <$> ls).
Proof.
  induction ls as [|l ls IH]; [done|]. destruct ls as [|l' ls]; [simpl; lia|].
  rewrite join_cons by done. rewrite !length_append, IH. simpl. lia.
Qed.

Lemma entry_lines_plain (a : string) :
  startswith ">" a = false -> entry_lines a = split newline a.
Proof.
  destruct a as [|d a]; [done|]. rewrite startswith_gt. unfold entry_lines. by intros ->.
Qed.

(** The pair of a header and the lines of a sequence, with or without
    the empty line that follows the last newline of the text. *)
Lemma index_entry_lines (acc : string) (e : string * list string) (tail : list string) :
  split "|" e.1 !! 1 = Some acc ->
  tail = [] \/ tail = [""] ->
  index_entry (e.1 :: e.2 ++ tail) = Some (indexed acc e).
Proof.
  intros Hacc Htail. unfold index_entry, indexed, residues. rewrite Hacc.
  cbn [mbind option_bind]. do 4 f_equal. rewrite length_join_empty, fmap_app, sum_list_with_app.
  destruct Htail as [-> | ->]; simpl; lia.
Qed.

Lemma lines_split (ls : list string) :
  ls <> [] -> Forall line ls -> split newline (join nl ls) = ls.
Proof.
  intros Hne Hall. apply split_join; [done|].
  eapply Forall_impl; [exact Hall|]. by intros l [? _].
Qed.

(** The text of a FASTA file after its first [>]: its pieces give the
    pairs of the entries, in their order. *)
Lemma pieces (accs : list string) (es : list (string * list string)) :
  Forall2 entry_of accs es -> es <> [] ->
  exists T, fasta_text es = String ">" T /\
    mapM index_entry (filter (fun c => 1 < length c) (entry_lines <$> split_entries T)) =
      Some (zip_with indexed accs es) /\
    exists h t, split_entries T = h :: t /\ startswith ">" h = false.
Proof.
  intros Hall. induction Hall as [|acc e accs es (Hh & Hacc & Hne & Hlines) Hall IH]; [done|].
  intros _.
  assert (Forall line (e.1 :: e.2)) as Hls by by constructor.
  assert (fasta_text (e :: es) =
            String ">" ((join nl (e.1 :: e.2) +:+ nl) +:+ fasta_text es)) as Htext.
  { change (fasta_text (e :: es)) with (entry_text e +:+ fasta_text es).
    unfold entry_text.
    change (">" +:+ join nl (e.1 :: e.2) +:+ nl)
      with (String ">" (join nl (e.1 :: e.2) +:+ nl)). done. }
  destruct es as [|e' es].
  - exists (join nl (e.1 :: e.2) +:+ nl). rewrite Htext. simpl fasta_text.
    rewrite append_nil_r. split; [done|].
    destruct (lines_free (e.1 :: e.2) nl Hls) as [Hfree Hgt]; [done|done|].
    rewrite (split_entries_free _ Hfree). split; [|by eauto].
    cbn [fmap list_fmap].
    rewrite (entry_lines_plain _ Hgt), join_snoc_empty by done.
    rewrite lines_split;
      [|done|apply Forall_app; split; [done|by repeat constructor]].
    apply Forall2_length in Hall. destruct accs; [|done].
    rewrite filter_cons_True by (simpl; rewrite length_app; simpl; lia).
    rewrite filter_nil. cbn [mapM]. change ((e.1 :: e.2) ++ [""]) with (e.1 :: e.2 ++ [""]).
    rewrite (index_entry_lines acc) by auto. done.
  - destruct IH as (T' & HT' & Hpairs & h & t & Hsplit & Hgt'); [done|].
    exists (join nl (e.1 :: e.2) +:+ entry_sep +:+ T'). rewrite Htext, HT'.
    split.
    { f_equal. rewrite !append_assoc. done. }
    destruct (lines_free (e.1 :: e.2) "" Hls) as [Hfree Hgt]; [done|done|].
    rewrite append_nil_r in Hfree, Hgt.
    rewrite (split_entries_sep _ _ Hfree). split; [|by eauto].
    cbn [fmap list_fmap].
    rewrite (entry_lines_plain _ Hgt), lines_split by done.
    rewrite filter_cons_True by (destruct (e.2); [done|simpl; lia]).
    destruct accs as [|acc' accs]; [by apply Forall2_length in Hall|].
    cbn [mapM zip_with]. rewrite <- (app_nil_r e.2) at 1.
    rewrite (index_entry_lines acc) by auto. cbn [mbind option_bind].
    change (list_fmap string (list string) entry_lines (split_entries T'))
      with (entry_lines <$> split_entries T').
    rewrite Hpairs. done.
Qed.

(** *** The dictionary *)

Lemma dict_snoc {A} (l : list (string * A)) (p : string * A) :
  dict (l ++ [p]) = <[p.1 := p.2]> (dict l).
Proof. unfold dict. by rewrite foldl_app. Qed.

Lemma dict_lookup_None {A} (l : list (string * A)) (k : string) :
  k ∉ fst <$> l -> dict l !! k = None.
Proof.
  induction l as [|[k' v] l IH] using rev_ind; [done|].
  rewrite fmap_app, not_elem_of_app, dict_snoc. simpl. intros [Hl Hp].
  rewrite lookup_insert_ne; [by apply IH|]. intros ->. apply Hp. by left.
Qed.

(** A key holds the value of its last pair. *)
Lemma dict_lookup_last {A} (l1 l2 : list (string * A)) (k : string) (v : A) :
  k ∉ fst <$> l2 -> dict (l1 ++ (k, v) :: l2) !! k = Some v.
Proof.
  induction l2 as [|[k' v'] l2 IH] using rev_ind; intros Hk.
  - rewrite dict_snoc. apply lookup_insert_eq.
  - rewrite fmap_app, not_elem_of_app in Hk. destruct Hk as [Hl Hp].
    change (l1 ++ (k, v) :: l2 ++ [(k', v')]) with (l1 ++ ((k, v) :: l2) ++ [(k', v')]).
    rewrite app_assoc, dict_snoc, lookup_insert_ne; [by apply IH|].
    simpl. intros ->. apply Hp. by left.
Qed.

Lemma fst_indexed (accs : list string) (es : list (string * list string)) :
  length accs = length es -> fst <$> zip_with indexed accs es = accs.
Proof.
  revert es. induction accs as [|acc accs IH]; intros [|e es] Hlen; try done.
  simpl. f_equal. apply IH. simpl in Hlen. lia.
Qed.

(** X7.  The side table of a FASTA file.  For the text of a file whose
    entries have a header [db|accession|...] and one line of sequence
    at least, [download_raw_dbs] builds a table that holds, for the
    accession of every entry, the header line with its [>] and the
    number of characters of the lines of the sequence; an accession
    that the file gives twice holds what its last entry says, and the
    table has no other key. *)
Theorem fasta_table_of_a_fasta_file (accs : list string) (es : list (string * list string)) :
  Forall2 entry_of accs es ->
  exists m, db_fasta_seqio_of (fasta_text es) = Some m /\
    (forall acc, acc ∉ accs -> m !! acc = None) /\
    (forall j acc e, accs !! j = Some acc -> es !! j = Some e ->
       acc ∉ drop (S j) accs ->
       m !! acc = Some (Fasta (">" +:+ e.1) (residues e))).
Proof.
  intros Hall. pose proof (Forall2_length _ _ _ Hall) as Hlen.
  exists (dict (zip_with indexed accs es)). split; [|split].
  - destruct es as [|e es]; [by destruct accs|].
    destruct (pieces accs (e :: es) Hall) as (T & -> & Hpairs & h & t & Hsplit & Hgt);
      [done|].
    unfold db_fasta_seqio_of. rewrite split_entries_cons by done.
    rewrite Hsplit in Hpairs |- *. cbn [fmap list_fmap] in Hpairs |- *.
    assert (entry_lines (String ">" h) = entry_lines h) as ->.
    { rewrite (entry_lines_plain h Hgt). unfold entry_lines, ceq.
      by rewrite Ascii.eqb_refl. }
    by rewrite Hpairs.
  - intros acc Hacc. apply dict_lookup_None. by rewrite fst_indexed.
  - intros j acc e Hj He Hlast.
    assert (zip_with indexed accs es !! j = Some (indexed acc e)) as Hpair
      by (rewrite lookup_zip_with, Hj; simpl; by rewrite He).
    rewrite <- (take_drop_middle _ _ _ Hpair). apply dict_lookup_last.
    rewrite zip_with_drop, fst_indexed; [done|]. rewrite !length_drop. lia.
Qed.

(** X7, witness: a file of two entries, the second with a sequence of
    two lines. *)
Lemma fasta_table_of_a_fasta_file_witness :
  exists m,
    db_fasta_seqio_of
      (fasta_text [("sp|P12345|TEST_HUMAN Test protein", ["MKTAYIAK"]);
                   ("sp|P12345-2|TEST_HUMAN Isoform 2", ["MKTAY"; "IAK"])]) = Some m /\
    (forall acc, acc ∉ ["P12345"; "P12345-2"] -> m !! acc = None) /\
    (forall j acc e,
       ["P12345"; "P12345-2"] !! j = Some acc ->
       [("sp|P12345|TEST_HUMAN Test protein", ["MKTAYIAK"]);
        ("sp|P12345-2|TEST_HUMAN Isoform 2", ["MKTAY"; "IAK"])] !! j = Some e ->
       acc ∉ drop (S j) ["P12345"; "P12345-2"] ->
       m !! acc = Some (Fasta (">" +:+ e.1) (residues e))).
Proof.
  apply (fasta_table_of_a_fasta_file ["P12345"; "P12345-2"]
           [("sp|P12345|TEST_HUMAN Test protein", ["MKTAYIAK"]);
            ("sp|P12345-2|TEST_HUMAN Isoform 2", ["MKTAY"; "IAK"])]).
  repeat constructor; try done.
Defined.

(** *** The base table *)

(** The rows of the base table: the values of the record, and the
    length and the header of each isoform as numpy arrays hold them. *)
Lemma base_table_rows (self : creator) (r : record) (ids : list string) :
  ids <> [] ->
  base_table self r ids =
    Some (Frame base_columns
            ((fun j => (default "" (ids !! j),
                        [Str (entry_name r); Str (Parser.gene_of r);
                         Str (Parser.species_of r);
                         default NaN (np_array (lengths_of (db_fasta_seqio self) ids) !! j);
                         Str (Parser.dsc_of r);
                         default NaN (np_array (comms_of (db_fasta_seqio self) ids) !! j);
                         Str (data_class r)])) <$> seq 0 (length ids))).
Proof.
  intros Hids. unfold base_table.
  set (Cs := comms_of _ _). set (Ls := lengths_of _ _).
  assert (length Cs = length ids) as HCs by (unfold Cs, comms_of; by rewrite length_fmap).
  assert (length Ls = length ids) as HLs by (unfold Ls, lengths_of; by rewrite length_fmap).
  cbn -[np_array replicate].
  rewrite !app_nil_r, Nat.add_0_r, !length_fmap, np_array_strings.
  rewrite rows_of_arrays_spec.
  2:{ repeat apply Forall_cons_2; try apply Forall_nil_2;
        rewrite ?length_replicate, ?length_np_array, ?length_fmap; done. }
  destruct (length ids) as [|m] eqn:Hn; [by destruct ids|].
  rewrite <- Hn. cbn -[np_array replicate seq].
  rewrite (mapM_fmap_seq _ _
             (fun j => (default "" (ids !! j),
                        [Str (entry_name r); Str (Parser.gene_of r);
                         Str (Parser.species_of r); default NaN (np_array Ls !! j);
                         Str (Parser.dsc_of r); default NaN (np_array Cs !! j);
                         Str (data_class r)]))).
  2:{ intros j Hj. cbn. rewrite list_lookup_fmap, !lookup_replicate_2 by done.
      destruct (ids !! j) as [i|] eqn:E; [done|]. apply lookup_ge_None in E. lia. }
  reflexivity.
Qed.

Lemma np_array_comms (fasta : gmap string fasta_entry) (ids : list string) :
  np_array (comms_of fasta ids) = comms_of fasta ids.
Proof.
  unfold np_array. destruct (existsb is_str (comms_of fasta ids)); [|done].
  unfold comms_of. rewrite <- list_fmap_compose. apply list_fmap_ext.
  intros j i _. simpl. by destruct (fasta !! i).
Qed.

Lemma np_array_lengths (fasta : gmap string fasta_entry) (ids : list string) :
  np_array (lengths_of fasta ids) =
    if bool_decide (Forall (fun i => is_Some (fasta !! i)) ids)
    then lengths_of fasta ids
    else cell_str <$> lengths_of fasta ids.
Proof.
  unfold np_array. case_bool_decide as Hall.
  - destruct (existsb is_str (lengths_of fasta ids)) eqn:E; [|done].
    apply existsb_exists in E as (c & Hc%list_elem_of_In & Hstr).
    unfold lengths_of in Hc. apply list_elem_of_fmap in Hc as (i & -> & Hi).
    rewrite Forall_forall in Hall. destruct (Hall i Hi) as [e He].
    by rewrite He in Hstr.
  - destruct (existsb is_str (lengths_of fasta ids)) eqn:E; [done|].
    exfalso. apply Hall, Forall_forall. intros i Hi.
    destruct (fasta !! i) as [e|] eqn:Hfasta; [by eexists|].
    apply not_true_iff_false in E. destruct E. apply existsb_exists.
    exists (Str ""). split; [|done]. apply list_elem_of_In.
    unfold lengths_of. apply list_elem_of_fmap. exists i. by rewrite Hfasta.
Qed.

(** X8.  The length and the header line in the base table.  The row of
    an isoform id that the FASTA side table knows carries the header
    line of its entry, and the length of its sequence: as a number when
    the table knows every isoform id of the record, and as a text when
    it lacks one of them.  The row of an isoform id that the table does
    not know carries two empty texts. *)
Theorem base_rows_take_length_and_header (self : creator) (r : record) (ids : list string) :
  ids <> [] ->
  exists df1, base_table self r ids = Some df1 /\
    forall j i, ids !! j = Some i ->
      exists row, frows df1 !! j = Some (i, row) /\
        match db_fasta_seqio self !! i with
        | Some e =>
            cell_at df1 row "Comment_Line" = Some (Str (comm e)) /\
            cell_at df1 row "Length" =
              Some (if bool_decide (Forall (fun i' => is_Some (db_fasta_seqio self !! i')) ids)
                    then Int (len e) else Str (str_of_int (len e)))
        | None =>
            cell_at df1 row "Comment_Line" = Some (Str "") /\
            cell_at df1 row "Length" = Some (Str "")
        end.
Proof.
  intros Hids. eexists. split; [by apply base_table_rows|].
  intros j i Hj. pose proof (lookup_lt_Some _ _ _ Hj) as Hlt.
  eexists. split.
  { cbn [frows]. rewrite list_lookup_fmap, lookup_seq_lt by done. simpl. by rewrite Hj. }
  unfold cell_at. cbn [fcols base_columns index_of str_eq String.eqb Ascii.eqb Bool.eqb
                        fmap option_fmap option_map mbind option_bind lookup list_lookup].
  rewrite np_array_comms, np_array_lengths.
  assert (comms_of (db_fasta_seqio self) ids !! j =
            Some (match db_fasta_seqio self !! i with
                  | Some e => Str (comm e) | None => Str "" end)) as ->
    by (unfold comms_of; by rewrite list_lookup_fmap, Hj).
  assert (lengths_of (db_fasta_seqio self) ids !! j =
            Some (match db_fasta_seqio self !! i with
                  | Some e => Int (len e) | None => Str "" end)) as Hl
    by (unfold lengths_of; by rewrite list_lookup_fmap, Hj).
  case_bool_decide as Hall.
  - rewrite Hl. rewrite Forall_forall in Hall.
    destruct (Hall i) as [e ->]; [by eapply list_elem_of_lookup_2|]. done.
  - rewrite list_lookup_fmap, Hl. by destruct (db_fasta_seqio self !! i).
Qed.

(** X8, witness: the canonical sequence is in the side table, the two
    isoforms are not, and the length of the canonical sequence is a
    text. *)
Lemma base_rows_take_length_and_header_witness :
  exists df1, base_table Examples.self0 Examples.two_variants ["P12345"; "P12345-2"; "P12345-3"] = Some df1 /\
    exists row, frows df1 !! 0 = Some ("P12345", row) /\
      cell_at df1 row "Comment_Line" = Some (Str ">sp|P12345|TEST_HUMAN Test protein") /\
      cell_at df1 row "Length" = Some (Str "120").
Proof.
  destruct (base_rows_take_length_and_header Examples.self0 Examples.two_variants
              ["P12345"; "P12345-2"; "P12345-3"] ltac:(done)) as (df1 & Hdf1 & Hrows).
  exists df1. split; [exact Hdf1|]. exact (Hrows 0 "P12345" eq_refl).
Defined.

End FastaFacts.

(** ** The sequences that [_remove_duplicates] keeps *)

Module DuplicateFacts.
Import Py PandasFacts Duplicates.

Local Abbreviation rec := (string * string)%type.

Lemma filter_other (k : string) (l : list rec) :
  k ∉ fst <$> l -> filter (fun r : rec => r.1 <> k) l = l.
Proof.
  intros Hk. apply filter_all. intros r Hr Heq. apply Hk. rewrite <- Heq.
  by apply (list_elem_of_fmap_2 fst).
Qed.

Lemma filter_same_none (k : string) (l : list rec) :
  k ∉ fst <$> l -> filter (fun r : rec => r.1 = k) l = [].
Proof.
  intros Hk. apply filter_none. intros r Hr Heq. apply Hk. rewrite <- Heq.
  by apply (list_elem_of_fmap_2 fst).
Qed.

Lemma record_of_here (S R : list rec) (i s : string) :
  i ∉ fst <$> S -> record_of (S ++ (i, s) :: R) i = Some s.
Proof.
  intros Hi. unfold record_of. rewrite filter_app, filter_same_none by done.
  by rewrite filter_cons_True.
Qed.

Lemma del_here (S R : list rec) (i s : string) :
  i ∉ fst <$> S -> i ∉ fst <$> R -> del (S ++ (i, s) :: R) i = Some (S ++ R).
Proof.
  intros HS HR. unfold del. rewrite bool_decide_eq_true_2.
  - rewrite filter_app, filter_cons_False by (simpl; tauto).
    by rewrite !filter_other.
  - rewrite fmap_app, elem_of_app. right. by left.
Qed.

Lemma del_before (S R : list rec) (i j s : string) :
  j ∈ fst <$> S -> j <> i -> j ∉ fst <$> R ->
  del (S ++ (i, s) :: R) j =
    Some (filter (fun r : rec => r.1 <> j) S ++ (i, s) :: R).
Proof.
  intros HS Hne HR. unfold del. rewrite bool_decide_eq_true_2.
  - rewrite filter_app, filter_cons_True by (simpl; congruence).
    by rewrite (filter_other j R).
  - rewrite fmap_app, elem_of_app. by left.
Qed.

Lemma ids_of_sublist (S P : list rec) (k : string) :
  S `sublist_of` P -> k ∈ fst <$> S -> k ∈ fst <$> P.
Proof. intros Hsub. apply sublist_subseteq. by apply fmap_sublist. Qed.

Lemma unique_id (l : list rec) (i s s' : string) :
  NoDup (fst <$> l) -> (i, s) ∈ l -> (i, s') ∈ l -> s = s'.
Proof.
  induction l as [|[k v] l IH]; intros Hnd H1 H2; [by apply elem_of_nil in H1|].
  simpl in Hnd. apply NoDup_cons in Hnd as [Hk Hnd].
  apply elem_of_cons in H1 as [H1|H1], H2 as [H2|H2].
  - congruence.
  - injection H1 as -> ->. destruct Hk. by apply (list_elem_of_fmap_2 fst _ (k, s')).
  - injection H2 as -> ->. destruct Hk. by apply (list_elem_of_fmap_2 fst _ (k, s)).
  - by apply IH.
Qed.

Lemma reached_nil : reached [] [] ∅.
Proof.
  split; [done|]. split; [|split; [constructor|]].
  - intros s i. rewrite lookup_empty. split; [done|]. by intros ?%elem_of_nil.
  - by intros i' s ?%elem_of_nil.
Qed.

Lemma kept_seq (P S : list rec) (seqs : gmap string string) (i s : string) :
  reached P S seqs -> (i, s) ∈ S -> seqs !! s = Some i.
Proof. intros (_ & Hmap & _) Hin. by apply Hmap. Qed.

(** One round of the loop: the record [(i, s)] follows the visited
    records [P], of which [S] are kept, and [R] is still to come. *)
Lemma step (P S R : list rec) (seqs : gmap string string) (i s : string) :
  NoDup (fst <$> (P ++ (i, s) :: R)) ->
  reached P S seqs ->
  exists S' seqs',
    dedup_step true (Some (S ++ (i, s) :: R, seqs)) i = Some (S' ++ R, seqs') /\
    reached (P ++ [(i, s)]) S' seqs'.
Proof.
  intros Hnd Hre. pose proof Hre as (Hsub & Hmap & Hseq & Hvis).
  rewrite fmap_app, fmap_cons in Hnd. apply NoDup_app in Hnd as (HP & Hdis & HR).
  apply NoDup_cons in HR as [HiR HR]. simpl in HiR.
  assert (HiP : i ∉ fst <$> P).
  { intros Hin. apply (Hdis _ Hin). by left. }
  assert (HiS : i ∉ fst <$> S) by (intros Hin; apply HiP; by eapply ids_of_sublist).
  assert (HS : NoDup (fst <$> S)).
  { eapply sublist_NoDup; [exact HP|]. by apply fmap_sublist. }
  unfold dedup_step. cbn [mbind option_bind fst snd].
  rewrite (record_of_here _ _ _ _ HiS). cbn [mbind option_bind].
  destruct (seqs !! s) as [j|] eqn:Hj.
  - apply Hmap in Hj as HjS.
    assert (Hjid : j ∈ fst <$> S) by (by apply (list_elem_of_fmap_2 fst _ (j, s))).
    unfold sorted_pair. destruct (String.leb j i) eqn:Hle; cbn [fst snd].
    + exists S, seqs. rewrite (del_here _ _ _ _ HiS HiR). cbn [mbind option_bind].
      rewrite insert_id by done. split; [done|].
      split; [by apply sublist_inserts_r|]. split; [done|]. split; [done|].
      intros i' s' [Hin|[= -> ->]%list_elem_of_singleton]%elem_of_app; [by apply Hvis|].
      exists j. split; [done|]. unfold String.le. by rewrite Hle.
    + assert (Hji : j <> i) by (by intros ->).
      assert (HjR : j ∉ fst <$> R).
      { intros Hin. apply (Hdis j); [by eapply ids_of_sublist|by right]. }
      rewrite (del_before _ _ _ _ _ Hjid Hji HjR). cbn [mbind option_bind].
      exists (filter (fun r : rec => r.1 <> j) S ++ [(i, s)]), (<[s := i]> seqs).
      split; [by rewrite <- app_assoc|].
      assert (Hij : String.le i j).
      { destruct (total String.le i j) as [|Hc]; [done|].
        unfold String.le in Hc. by rewrite Hle in Hc. }
      split; [apply sublist_app; [|done]; etrans; [apply sublist_filter|done]|].
      split; [|split].
      * intros s' i'. rewrite elem_of_app, list_elem_of_filter, list_elem_of_singleton.
        destruct (decide (s' = s)) as [->|Hs].
        -- rewrite lookup_insert_eq. split; [intros [= <-]; by right|].
           intros [[Hne Hin]|[= ->]]; [|done].
           apply Hmap in Hin. simpl in Hne. congruence.
        -- rewrite lookup_insert_ne by done. rewrite Hmap.
           split; [|intros [[_ ?]|[= _ ?]]; done].
           intros Hin. left. split; [|done]. simpl. intros ->.
           apply Hs. by eapply unique_id.
      * rewrite fmap_app. apply NoDup_app. split; [|split].
        -- eapply sublist_NoDup; [exact Hseq|]. apply fmap_sublist, sublist_filter.
        -- intros s' ([i' s''] & -> & [Hne Hin]%list_elem_of_filter)%list_elem_of_fmap.
           simpl. intros ->%list_elem_of_singleton.
           apply Hmap in Hin. simpl in Hne. congruence.
        -- apply NoDup_singleton.
      * intros i' s' [Hin|[= -> ->]%list_elem_of_singleton]%elem_of_app; [|exists i; split; [|done]].
        -- destruct (Hvis _ _ Hin) as (k & Hk & Hle').
           destruct (decide (k = j)) as [->|Hkj].
           ++ assert (s' = s) as -> by (by eapply unique_id).
              exists i. split; [apply elem_of_app; right; by left|]. by etrans.
           ++ exists k. split; [|done]. apply elem_of_app. left.
              by apply list_elem_of_filter.
        -- apply elem_of_app. right. by left.
  - exists (S ++ [(i, s)]), (<[s := i]> seqs).
    split; [by rewrite <- app_assoc|].
    split; [by apply sublist_app|]. split; [|split].
    + intros s' i'. rewrite elem_of_app, list_elem_of_singleton.
      destruct (decide (s' = s)) as [->|Hs].
      * rewrite lookup_insert_eq. split; [intros [= <-]; by right|].
        intros [Hin|[= ->]]; [|done]. apply Hmap in Hin. congruence.
      * rewrite lookup_insert_ne by done. rewrite Hmap.
        split; [by left|]. by intros [?|[= _ ?]].
    + rewrite fmap_app. apply NoDup_app. split; [done|]. split; [|apply NoDup_singleton].
      intros s' ([i' s''] & -> & Hin)%list_elem_of_fmap. simpl.
      intros ->%list_elem_of_singleton. apply Hmap in Hin. congruence.
    + intros i' s' [Hin|[= -> ->]%list_elem_of_singleton]%elem_of_app.
      * destruct (Hvis _ _ Hin) as (k & Hk & Hle'). exists k. split; [|done].
        apply elem_of_app. by left.
      * exists i. split; [|done]. apply elem_of_app. right. by left.
Qed.

(** The whole loop over the records [R] that follow [P]. *)
Lemma loop (R P S : list rec) (seqs : gmap string string) :
  NoDup (fst <$> (P ++ R)) ->
  reached P S seqs ->
  exists S' seqs',
    foldl (dedup_step true) (Some (S ++ R, seqs)) (fst <$> R) = Some (S', seqs') /\
    reached (P ++ R) S' seqs'.
Proof.
  revert P S seqs. induction R as [|[i s] R IH]; intros P S seqs Hnd Hre.
  - exists S, seqs. by rewrite !app_nil_r.
  - destruct (step P S R seqs i s Hnd Hre) as (S1 & seqs1 & Hstep & Hre1).
    rewrite fmap_cons. cbn [foldl fst]. rewrite Hstep.
    rewrite (cons_middle _ P R), app_assoc in Hnd |- *. by apply IH.
Qed.

Lemma dedup_reaches (precords : list rec) :
  NoDup (fst <$> precords) ->
  exists kept seqs,
    _remove_duplicates precords true = Some (Some kept) /\
    reached precords kept seqs.
Proof.
  intros Hnd. destruct (loop precords [] [] ∅ Hnd reached_nil) as (S' & seqs' & Hrun & Hre).
  exists S', seqs'. split; [|done]. unfold _remove_duplicates, to_dict.
  rewrite bool_decide_eq_true_2 by done. cbn [mbind option_bind].
  simpl in Hrun. by rewrite Hrun.
Qed.

Lemma sublist_all {A} (l k : list A) :
  l `sublist_of` k -> length k <= length l -> l = k.
Proof.
  induction 1 as [|x l k Hsub IH|x l k Hsub IH]; intros Hlen; [done|..].
  - f_equal. apply IH. simpl in Hlen. lia.
  - apply sublist_length in Hsub. simpl in Hlen. lia.
Qed.

(** X9. [_remove_duplicates] on records of distinct ids, with an
    [outfile], does not raise; the records it writes are records of
    the input, in their order; no two of them have one sequence; and
    the sequence of every record of the input is written, under an id
    that is not greater than the id of that record: of the records
    that share a sequence, the one of the smallest id is kept. *)
Theorem duplicates_keep_the_smallest_id (precords : list rec) :
  NoDup (fst <$> precords) ->
  exists kept,
    _remove_duplicates precords true = Some (Some kept) /\
    kept `sublist_of` precords /\
    NoDup (snd <$> kept) /\
    forall i s, (i, s) ∈ precords -> exists k, (k, s) ∈ kept /\ String.le k i.
Proof.
  intros Hnd. destruct (dedup_reaches precords Hnd) as (kept & seqs & Hrun & Hsub & _ & Hseq & Hvis).
  by exists kept.
Qed.

Lemma duplicates_keep_the_smallest_id_witness :
  exists kept,
    _remove_duplicates [("sp|B", "MKV"); ("sp|A", "MKV"); ("sp|C", "MAL")] true = Some (Some kept) /\
    kept `sublist_of` [("sp|B", "MKV"); ("sp|A", "MKV"); ("sp|C", "MAL")] /\
    NoDup (snd <$> kept) /\
    forall i s, (i, s) ∈ [("sp|B", "MKV"); ("sp|A", "MKV"); ("sp|C", "MAL")] ->
      exists k, (k, s) ∈ kept /\ String.le k i.
Proof.
  apply (duplicates_keep_the_smallest_id [("sp|B", "MKV"); ("sp|A", "MKV"); ("sp|C", "MAL")]).
  apply (bool_decide_unpack _). vm_compute. reflexivity.
Defined.

Lemma unchanged (precords : list rec) :
  NoDup (fst <$> precords) -> NoDup (snd <$> precords) ->
  _remove_duplicates precords true = Some (Some precords).
Proof.
  intros Hnd Hseq. destruct (dedup_reaches precords Hnd) as (kept & seqs & Hrun & Hsub & _ & _ & Hvis).
  rewrite Hrun. do 2 f_equal. apply sublist_all; [done|].
  apply submseteq_length, NoDup_submseteq.
  { by apply (NoDup_fmap_1 snd). }
  intros [i s] Hin. destruct (Hvis _ _ Hin) as (k & Hk & _).
  assert (k = i) as ->; [|done].
  apply (sublist_subseteq _ _ Hsub) in Hk as Hk'.
  clear -Hseq Hin Hk'. induction precords as [|[a b] l IH]; [by apply elem_of_nil in Hin|].
  simpl in Hseq. apply NoDup_cons in Hseq as [Hb Hseq].
  apply elem_of_cons in Hin as [Hin|Hin], Hk' as [Hk'|Hk'].
  - congruence.
  - injection Hin as -> ->. destruct Hb. by apply (list_elem_of_fmap_2 snd _ (k, b)).
  - injection Hk' as -> ->. destruct Hb. by apply (list_elem_of_fmap_2 snd _ (i, b)).
  - by apply IH.
Qed.

(** X10. A file of distinct ids in which no two records have one
    sequence is written back as it is: the same records, in the same
    order. *)
Theorem duplicates_free_file_is_unchanged (precords : list rec) :
  NoDup (fst <$> precords) -> NoDup (snd <$> precords) ->
  _remove_duplicates precords true = Some (Some precords).
Proof. apply unchanged. Qed.

Lemma duplicates_free_file_is_unchanged_witness :
  _remove_duplicates [("sp|B", "MKV"); ("sp|A", "MKA"); ("sp|C", "MAL")] true
  = Some (Some [("sp|B", "MKV"); ("sp|A", "MKA"); ("sp|C", "MAL")]).
Proof.
  apply (duplicates_free_file_is_unchanged [("sp|B", "MKV"); ("sp|A", "MKA"); ("sp|C", "MAL")]);
    apply (bool_decide_unpack _); vm_compute; reflexivity.
Defined.

(** X11. Removing the duplicates of a file from which they were
    removed changes nothing: [_remove_duplicates] on the records that
    it wrote writes the same records. *)
Theorem duplicates_are_removed_once (precords kept : list rec) :
  _remove_duplicates precords true = Some (Some kept) ->
  _remove_duplicates kept true = Some (Some kept).
Proof.
  intros Hrun. assert (Hnd : NoDup (fst <$> precords)).
  { unfold _remove_duplicates, to_dict in Hrun. by case_bool_decide. }
  destruct (dedup_reaches precords Hnd) as (kept' & seqs & Hrun' & Hsub & _ & Hseq & _).
  rewrite Hrun in Hrun'. injection Hrun' as <-.
  apply unchanged; [|done]. eapply sublist_NoDup; [exact Hnd|]. by apply fmap_sublist.
Qed.

Lemma duplicates_are_removed_once_witness :
  _remove_duplicates [("sp|A", "MKV"); ("sp|C", "MAL")] true
  = Some (Some [("sp|A", "MKV"); ("sp|C", "MAL")]).
Proof.
  apply (duplicates_are_removed_once [("sp|B", "MKV"); ("sp|A", "MKV"); ("sp|C", "MAL")]).
  vm_compute. reflexivity.
Defined.

End DuplicateFacts.

(** ** The report of all the records *)

Module ReportsFacts.
Import Py Pandas Reports PandasFacts.

Lemma written_rows (cols : list string) (rows : list (string * list cell)) :
  written (Frame cols rows) =
  (fun row : string * list cell =>
     (fun h => match index_of h (XID :: cols) with
               | Some i => default NaN ((Str row.1 :: row.2) !! i)
               | None => NaN
               end) <$> HEADERS) <$> rows.
Proof. done. Qed.

Lemma written_app (cols : list string) (a b : list (string * list cell)) :
  written (Frame cols (a ++ b)) = written (Frame cols a) ++ written (Frame cols b).
Proof. by rewrite !written_rows, fmap_app. Qed.

Lemma index_of_label (h : string) (cols : list string) :
  index_of h (XID :: cols) = if str_eq XID h then Some 0 else S <$> index_of h cols.
Proof. done. Qed.

(** The cells that are written of a row do not depend on the columns
    under which the row was put. *)
Lemma written_realign (cols : list string) (df : frame) (rows : list (string * list cell)) :
  (forall c, c ∈ fcols df -> c ∈ cols) ->
  written (Frame cols (realign cols df <$> rows)) = written (Frame (fcols df) rows).
Proof.
  intros Hcov. rewrite !written_rows, <- list_fmap_compose.
  apply list_fmap_ext. intros _ [k row] _. apply list_fmap_ext. intros _ h _.
  cbn [compose]. rewrite !index_of_label. destruct (str_eq XID h); [done|].
  unfold realign. cbn [fst snd].
  destruct (index_of h cols) as [j|] eqn:Hj; cbn [fmap option_fmap option_map].
  - apply RowFacts.index_of_Some in Hj.
    change ((Str k :: ?l) !! S j) with (l !! j).
    rewrite list_lookup_fmap, Hj. cbn [fmap option_fmap option_map default].
    by destruct (index_of h (fcols df)).
  - destruct (index_of h (fcols df)) as [i|] eqn:Hi; [|done].
    apply RowFacts.index_of_Some, list_elem_of_lookup_2, Hcov in Hi.
    apply RowFacts.index_of_elem in Hi as [? Hi]. congruence.
Qed.

Lemma written_reindex (cols : list string) (df : frame) (rows : list (string * list cell)) :
  (forall c, c ∈ fcols df -> c ∈ cols) ->
  reindex cols df = Some rows ->
  written (Frame cols rows) = written df.
Proof.
  intros Hcov. unfold reindex. case_bool_decide as Heq.
  - intros [= <-]. rewrite <- Heq. by destruct df.
  - case_bool_decide; [|done]. intros [= <-].
    rewrite written_realign by done. by destruct df.
Qed.

Lemma written_mapM (cols : list string) (dfs : list frame) (rows : list (list (string * list cell))) :
  (forall df c, df ∈ dfs -> c ∈ fcols df -> c ∈ cols) ->
  mapM (reindex cols) dfs = Some rows ->
  written (Frame cols (mjoin rows)) = dfs ≫= written.
Proof.
  revert rows. induction dfs as [|df dfs IH]; intros rows Hcov Hrows.
  - by injection Hrows as <-.
  - cbn [mapM] in Hrows.
    destruct (reindex cols df) as [r|] eqn:Hr; [|done].
    destruct (mapM (reindex cols) dfs) as [rs|] eqn:Hrs; [|done].
    injection Hrows as <-. cbn [mjoin list_join mbind list_bind].
    rewrite written_app. f_equal.
    + apply written_reindex; [|done]. intros c. apply Hcov. by left.
    + apply IH; [|done]. intros d c Hd. apply Hcov. by right.
Qed.

Lemma elem_of_first_seen (c : string) (l : list string) : c ∈ first_seen l <-> c ∈ l.
Proof. unfold first_seen. by rewrite elem_of_reverse, elem_of_remove_dups, elem_of_reverse. Qed.

Section Order.

Variable order : list string -> list string.
Hypothesis order_keeps : forall l c, c ∈ l -> c ∈ order l.

Lemma combined_covers (dfs : list frame) (df : frame) (c : string) :
  df ∈ dfs -> c ∈ fcols df -> c ∈ combined order dfs.
Proof.
  destruct dfs as [|df0 rest]; [by intros ?%elem_of_nil|]. intros Hdf Hc.
  unfold combined. destruct (forallb _ rest) eqn:Hall.
  - apply elem_of_cons in Hdf as [->|Hdf]; [done|].
    rewrite forallb_forall in Hall. apply list_elem_of_In, Hall in Hdf.
    apply bool_decide_eq_true in Hdf. by rewrite <- Hdf.
  - apply order_keeps, elem_of_first_seen, list_elem_of_bind. by exists df.
Qed.

Lemma written_concat (dfs : list frame) (ddf : frame) :
  concat order dfs = Some ddf -> written ddf = dfs ≫= written.
Proof.
  unfold concat. destruct dfs as [|df0 rest]; [done|].
  cbv zeta. destruct (mapM _ _) as [rows|] eqn:Hrows; [|done]. intros [= <-].
  apply written_mapM; [|done]. intros df c. apply combined_covers.
Qed.

End Order.

Lemma join_distinct (l r f : frame) :
  join_outer l r = Some f -> NoDup (fcols l) -> NoDup (fcols r) -> NoDup (fcols f).
Proof.
  unfold join_outer. destruct (overlap l r) eqn:Ho; [done|]. intros [= <-] Hl Hr.
  cbn [fcols]. apply NoDup_app. split; [done|]. split; [|done].
  intros c Hc Hcr. apply not_true_iff_false in Ho. apply Ho.
  apply existsb_exists. exists c. split; [by apply list_elem_of_In|]. by apply member_spec.
Qed.

Section Create.

Variable net : nat -> string -> option string.
Variable self : creator.
Variable order : list string -> list string.
Variable corum_json : option (list complex).
Variable panther_df : option (list (cell * cell)).

Local Abbreviation dir := (cached_dir_kegg self).
Local Abbreviation after := (Examples.after_lookups net dir).
Local Abbreviation report w r := (Report._create_qreport net self w r corum_json panther_df).
Local Abbreviation all w rs := (reports net self w rs corum_json panther_df).
Local Abbreviation whole w rs := (create_qreport net self order w rs corum_json panther_df).

(** No two columns of the report of a record have one name. *)
Lemma report_columns_distinct (w w' : world) (r : record) (df : frame) :
  report w r = (w', Some df) -> NoDup (fcols df).
Proof.
  intros Hrun.
  destruct (ReportFacts.qreport_steps _ _ _ _ _ _ _ _ Hrun)
    as (acc & ids & disp & base & dfx & Hacc & Hiso & Hne & Hbase & _).
  apply (RowFacts.qreport_keeps net self r corum_json panther_df
           (fun f => NoDup (fcols f)) w w' df acc ids disp Hrun Hacc Hiso).
  - intros b Hb. destruct (BaseFacts.base_table_spec self r ids Hne) as (df1 & Hdf1 & Hcols & _).
    rewrite Hb in Hdf1. injection Hdf1 as <-. rewrite Hcols.
    apply (bool_decide_unpack _). vm_compute. reflexivity.
  - intros df1 df2 df' t Ht HP Hj (Hc & _). eapply join_distinct; [done..|]. rewrite Hc.
    repeat (apply elem_of_cons in Ht as [->|Ht]);
      [apply (bool_decide_unpack _); vm_compute; reflexivity..|by apply elem_of_nil in Ht].
  - intros df1 df2 df' t Ht HP Hj (Hc & _). eapply join_distinct; [done..|]. rewrite Hc.
    repeat (apply elem_of_cons in Ht as [->|Ht]);
      [apply (bool_decide_unpack _); vm_compute; reflexivity..|by apply elem_of_nil in Ht].
Qed.

Lemma reports_cons (w : world) (r : record) (rest : list record) :
  all w (r :: rest) =
  match report w r with
  | (w, Some df) =>
      match all w rest with
      | (w, Some ddf) => (w, Some (df :: ddf))
      | (w, None) => (w, None)
      end
  | (w, None) => (w, None)
  end.
Proof. done. Qed.

Lemma reports_inv (w w' : world) (r : record) (rest : list record) (dfs : list frame) :
  all w (r :: rest) = (w', Some dfs) ->
  exists w1 df ddf,
    report w r = (w1, Some df) /\ all w1 rest = (w', Some ddf) /\ dfs = df :: ddf.
Proof.
  rewrite reports_cons. destruct (report w r) as [w1 [df|]] eqn:Hr; [|done].
  destruct (all w1 rest) as [w2 [ddf|]] eqn:Hrest; [|done].
  intros [= <- <-]. by exists w1, df, ddf.
Qed.

Lemma reports_distinct (records : list record) (w w' : world) (dfs : list frame) :
  all w records = (w', Some dfs) -> Forall (fun df => NoDup (fcols df)) dfs.
Proof.
  revert w dfs. induction records as [|r rest IH]; intros w dfs Hrun.
  - injection Hrun as _ <-. constructor.
  - apply reports_inv in Hrun as (w1 & df & ddf & Hr & Hrest & ->).
    constructor; [by eapply report_columns_distinct|by eapply IH].
Qed.

Lemma reports_length (records : list record) (w w' : world) (dfs : list frame) :
  all w records = (w', Some dfs) -> length dfs = length records.
Proof.
  revert w dfs. induction records as [|r rest IH]; intros w dfs Hrun.
  - by injection Hrun as _ <-.
  - apply reports_inv in Hrun as (w1 & df & ddf & Hr & Hrest & ->).
    simpl. f_equal. by eapply IH.
Qed.

Lemma reports_return (records : list record) (w : world) :
  Forall readable records -> Forall Vocabulary.complete records ->
  Forall (corum_safe corum_json) records ->
  exists w' dfs, all w records = (w', Some dfs).
Proof.
  revert w. induction records as [|r rest IH]; intros w Hread Hcomp Hsafe;
    [by exists w, []|].
  apply Forall_cons in Hread as [(acc & Hacc & [[ids disp] Hiso]) Hread].
  apply Forall_cons in Hcomp as [Hc Hcomp].
  apply Forall_cons in Hsafe as [Hs Hsafe].
  destruct (ReportFacts.qreport_returns net self r corum_json panther_df w acc ids disp
              Hacc Hiso Hc Hs) as (w1 & df & Hr).
  destruct (IH w1 Hread Hcomp Hsafe) as (w2 & ddf & Hrest).
  exists w2, (df :: ddf). by rewrite reports_cons, Hr, Hrest.
Qed.

Lemma concat_returns (dfs : list frame) :
  dfs <> [] -> Forall (fun df => NoDup (fcols df)) dfs -> is_Some (concat order dfs).
Proof.
  intros Hne Hnd. unfold concat. destruct dfs as [|df0 rest]; [done|]. cbv zeta.
  assert (is_Some (mapM (reindex (combined order (df0 :: rest))) (df0 :: rest))) as [rows ->]; [|done].
  apply mapM_is_Some. eapply Forall_impl; [exact Hnd|]. intros df Hdf. cbn [compose].
  unfold reindex. case_bool_decide; [done|]. by rewrite bool_decide_eq_true_2.
Qed.

Lemma whole_inv (w w' : world) (records : list record) (ddf : frame) :
  whole w records = (w', Some ddf) ->
  exists dfs, all w records = (w', Some dfs) /\ concat order dfs = Some ddf.
Proof.
  unfold create_qreport. destruct (all w records) as [w1 [dfs|]] eqn:Hrun; [|done].
  cbn [mbind option_bind]. intros [= <- Hc]. by exists dfs.
Qed.

Lemma reports_lookups (records : list record) (w : world) :
  exists sent, (all w records).1 = after w sent.
Proof.
  revert w. induction records as [|r rest IH]; intros w; [by exists []|].
  rewrite reports_cons.
  destruct (CacheFacts.qreport_lookups net self r corum_json panther_df w) as (s1 & _ & H1).
  destruct (report w r) as [w1 [df|]] eqn:Hr; cbn [fst] in H1; [|by exists s1].
  destruct (IH w1) as (s2 & H2).
  exists (s1 ++ s2). rewrite CacheFacts.after_app, <- H1, <- H2.
  by destruct (all w1 rest) as [w2 [ddf|]].
Qed.

Section Order.

Hypothesis order_keeps : forall l c, c ∈ l -> c ∈ order l.

(** X12. The file of the whole run is written record by record: when
    [create_qreport] returns a report, [to_file] writes of it, for
    the records in their order, one line for every line that it
    writes of the report of each record alone, with the same cell
    under every column other than [Length], whatever the order in
    which [pd.concat] puts the columns of reports that differ in their
    columns.  Nothing is said of [Length]: its numbers may be written
    as floats in the whole report and as integers in the report of a
    record. *)
Theorem whole_report_is_written_record_by_record (w w' : world) (records : list record) (ddf : frame) :
  whole w records = (w', Some ddf) ->
  exists dfs,
    all w records = (w', Some dfs) /\
    length dfs = length records /\
    tcols (Report.to_file ddf) = HEADERS /\
    Forall2 same_text (trows (Report.to_file ddf)) (dfs ≫= written).
Proof.
  intros (dfs & Hrun & Hc)%whole_inv. exists dfs. split; [done|].
  split; [by eapply reports_length|]. split; [done|].
  fold (written ddf). rewrite (written_concat order order_keeps dfs ddf Hc).
  apply Forall_Forall2_diag, Forall_forall. by intros line _.
Qed.

End Order.

Section Online.

Hypothesis online : forall n id, is_Some (net n id).

Lemma reports_again (records : list record) (w w' : world) (dfs : list frame) (later : list string) :
  all w records = (w', Some dfs) ->
  all (after w' later) records = (after w' later, Some dfs).
Proof.
  revert w dfs. induction records as [|r rest IH]; intros w dfs Hrun.
  - by injection Hrun as _ <-.
  - apply reports_inv in Hrun as (w1 & df & ddf & Hr & Hrest & ->).
    destruct (reports_lookups rest w1) as (sent & Hsent).
    rewrite Hrest in Hsent. cbn [fst] in Hsent.
    rewrite reports_cons.
    pose proof (CacheFacts.qreport_again net self r corum_json panther_df online
                  w w1 df (sent ++ later) Hr) as Hagain.
    rewrite CacheFacts.after_app, <- Hsent in Hagain. rewrite Hagain.
    by rewrite (IH _ _ Hrest).
Qed.

(** X14. When KEGG answers every request, a second run is served
    from the cache: from the world that a run of [create_qreport] has
    left, a run over the same records returns the same report and
    leaves that world as it is, so that it sends no request and
    writes no cache file. *)
Theorem second_run_is_served_from_the_cache (w w' : world) (records : list record) (ddf : frame) :
  whole w records = (w', Some ddf) -> whole w' records = (w', Some ddf).
Proof.
  intros (dfs & Hrun & Hc)%whole_inv. unfold create_qreport.
  pose proof (reports_again records w w' dfs [] Hrun) as Hagain.
  cbn [Examples.after_lookups foldl] in Hagain. rewrite Hagain.
  cbn [mbind option_bind]. by rewrite Hc.
Qed.

End Online.

End Create.

Lemma whole_report_is_written_record_by_record_witness :
  exists dfs,
    reports net_pathway Examples.self0 Examples.fresh [with_kegg; second] None None
      = (example_run.1, Some dfs) /\
    length dfs = length [with_kegg; second] /\
    tcols (Report.to_file example_report) = HEADERS /\
    Forall2 same_text (trows (Report.to_file example_report)) (dfs ≫= written).
Proof.
  apply (whole_report_is_written_record_by_record net_pathway Examples.self0 (fun l => l)
           None None (fun l c H => H) Examples.fresh example_run.1 [with_kegg; second]
           example_report).
  vm_compute. reflexivity.
Defined.

Lemma second_run_is_served_from_the_cache_witness :
  create_qreport net_pathway Examples.self0 (fun l => l) example_run.1
                 [with_kegg; second] None None
  = (example_run.1, Some example_report).
Proof.
  apply (second_run_is_served_from_the_cache net_pathway Examples.self0 (fun l => l)
           None None (fun n id => mk_is_Some _ _ eq_refl) Examples.fresh example_run.1
           [with_kegg; second] example_report).
  vm_compute. reflexivity.
Defined.

End ReportsFacts.

(** ** The text that is derived from a KEGG entry *)

Module FlatFacts.
Import Py Re Kegg Flat.

Local Abbreviation nl := (String newline "").
Local Abbreviation no_space := (fun c => negb (is_space c)).

Lemma app_cons (c : ascii) (s t : string) : String c s +:+ t = String c (s +:+ t).
Proof. done. Qed.

Lemma all_chars_app (p : ascii -> bool) (a b : string) :
  all_chars p (a +:+ b) = all_chars p a && all_chars p b.
Proof.
  induction a as [|c a IH]; [done|]. rewrite app_cons. simpl.
  by rewrite IH, andb_assoc.
Qed.

Lemma all_chars_impl (p q : ascii -> bool) (s : string) :
  (forall c, p c = true -> q c = true) -> all_chars p s = true -> all_chars q s = true.
Proof.
  intros Hpq. induction s as [|c s IH]; [done|]. simpl.
  intros [Hc Hs]%andb_true_iff. by rewrite (Hpq c Hc), IH.
Qed.

Lemma take_while_app (p : ascii -> bool) (a b : string) :
  all_chars p a = true -> take_while p (a +:+ b) = a +:+ take_while p b.
Proof.
  induction a as [|c a IH]; [done|]. rewrite !app_cons. simpl.
  intros [Hc Ha]%andb_true_iff. by rewrite Hc, IH.
Qed.

Lemma drop_while_app (p : ascii -> bool) (a b : string) :
  all_chars p a = true -> drop_while p (a +:+ b) = drop_while p b.
Proof.
  induction a as [|c a IH]; [done|]. rewrite !app_cons. simpl.
  intros [Hc Ha]%andb_true_iff. by rewrite Hc, IH.
Qed.

Lemma rstrip_app (a n : string) :
  n <> "" -> rstrip n = n -> rstrip (a +:+ n) = a +:+ n.
Proof.
  intros Hne Hn. assert (Hns : all_chars is_space n = false).
  { destruct n as [|c n]; [done|]. cbn [rstrip] in Hn.
    by destruct (all_chars is_space (String c n)). }
  induction a as [|c a IH]; [done|]. rewrite !app_cons. cbn [rstrip].
  rewrite <- app_cons, all_chars_app, Hns, andb_false_r, app_cons. by rewrite IH.
Qed.

Lemma newline_is_space (c : ascii) : is_space c = false -> ceq c newline = false.
Proof.
  intros Hc. destruct (ceq c newline) eqn:Heq; [|done].
  apply Ascii.eqb_eq in Heq as ->. done.
Qed.

Lemma blank_space (s : string) : blank s -> all_chars is_space s = true.
Proof. apply all_chars_impl. by intros c [? _]%andb_true_iff. Qed.

Lemma blank_inline (s : string) : blank s -> inline s.
Proof. apply all_chars_impl. by intros c [_ ?]%andb_true_iff. Qed.

Lemma word_inline (s : string) : word s -> inline s.
Proof.
  intros [_ Hs]. revert Hs. apply all_chars_impl. intros c Hc.
  apply negb_true_iff in Hc. apply negb_true_iff. by apply newline_is_space.
Qed.

Lemma body_inline (p : pathway) : well_formed p -> inline (body p).
Proof.
  intros (_ & Hid & Hgap & _ & _ & _ & _ & Hname). unfold inline, body.
  rewrite !all_chars_app. fold (inline (pid p)) (inline (gap p)) (inline (pname p)).
  by rewrite (word_inline _ Hid), (blank_inline _ Hgap), Hname.
Qed.

Lemma first_line_inline (p : pathway) : well_formed p -> inline (first_line p).
Proof.
  intros Hp. pose proof Hp as (Hpad & _). unfold inline, first_line.
  rewrite !all_chars_app. fold (inline (pad p)) (inline (body p)).
  by rewrite (blank_inline _ Hpad), (body_inline _ Hp).
Qed.

Lemma next_line_inline (p : pathway) : well_formed p -> inline (next_line p).
Proof.
  intros Hp. pose proof Hp as (Hpad & _). unfold inline, next_line.
  rewrite !all_chars_app. fold (inline (pad p)) (inline (body p)).
  by rewrite (blank_inline _ Hpad), (body_inline _ Hp).
Qed.

(** *** The entry of one line *)

Lemma lstrip_body (p : pathway) : well_formed p -> lstrip (body p) = body p.
Proof.
  intros (_ & [Hne Hid] & _). unfold body. destruct (pid p) as [|c i]; [done|].
  rewrite app_cons. unfold lstrip. simpl in Hid |- *.
  apply andb_true_iff in Hid as [Hc _]. apply negb_true_iff in Hc. by rewrite Hc.
Qed.

Lemma strip_body (p : pathway) : well_formed p -> strip (body p) = body p.
Proof.
  intros Hp. unfold strip. rewrite (lstrip_body p Hp).
  destruct Hp as (_ & _ & _ & _ & Hne & _ & Hr & _). unfold body.
  rewrite <- EntryFacts.append_assoc. by apply rstrip_app.
Qed.

Lemma entry_body (p : pathway) : well_formed p -> entry (body p) = item p +:+ ";".
Proof.
  intros (_ & [_ Hid] & Hgap & Hgne & _ & Hl & _). unfold entry, body, item. cbv zeta.
  rewrite (take_while_app no_space), (drop_while_app no_space) by done.
  destruct (gap p) as [|c g] eqn:Hg; [done|]. rewrite <- Hg in *.
  assert (Hsp : all_chars is_space (gap p) = true) by (by apply blank_space).
  assert (take_while no_space (gap p +:+ pname p) = "") as ->.
  { rewrite Hg in Hsp |- *. rewrite app_cons. simpl in Hsp |- *.
    apply andb_true_iff in Hsp as [-> _]. done. }
  assert (drop_while no_space (gap p +:+ pname p) = gap p +:+ pname p) as ->.
  { rewrite Hg in Hsp |- *. rewrite app_cons. simpl in Hsp |- *.
    apply andb_true_iff in Hsp as [-> _]. done. }
  unfold lstrip in *. rewrite (drop_while_app is_space) by done. rewrite Hl.
  by rewrite FastaFacts.append_nil_r, !EntryFacts.append_assoc.
Qed.

Lemma sub_blank (pad s : string) :
  blank pad -> sub_pathway_go 0 true (pad +:+ s) = sub_pathway_go 0 true s.
Proof.
  intros Hpad%blank_space. induction pad as [|c pad IH]; [done|].
  rewrite app_cons. simpl in Hpad. apply andb_true_iff in Hpad as [Hc Hpad].
  cbn [sub_pathway_go]. rewrite Hc. cbn [andb]. by apply IH.
Qed.

Lemma sub_free (s : string) :
  contains "PATHWAY" s = false -> sub_pathway_go 0 false s = s.
Proof.
  induction s as [|c s IH]; [done|]. cbn [contains sub_pathway_go andb].
  intros [Hc Hs]%orb_false_iff. by rewrite Hc, IH.
Qed.

Lemma startswith_app (p s : string) : startswith p (p +:+ s) = true.
Proof.
  unfold startswith. induction p as [|a p IH]; [by destruct s|].
  rewrite app_cons. cbn [String.prefix]. by destruct (ascii_dec a a).
Qed.

Lemma sub_word (s : string) :
  sub_pathway_go 0 false ("PATHWAY" +:+ s) = sub_pathway_go 0 true s.
Proof.
  change ("PATHWAY" +:+ s) with (String "P" ("ATHWAY" +:+ s)).
  cbn [sub_pathway_go andb].
  change (String "P" ("ATHWAY" +:+ s)) with ("PATHWAY" +:+ s).
  by rewrite startswith_app.
Qed.

Lemma sub_first (p : pathway) :
  well_formed p -> contains "PATHWAY" (body p) = false ->
  sub_pathway (first_line p) = body p.
Proof.
  intros Hp Hfree. pose proof Hp as (Hpad & [Hne Hid] & _).
  unfold sub_pathway, first_line. rewrite sub_word.
  rewrite sub_blank by done. rewrite <- (sub_free (body p) Hfree) at 2.
  unfold body in *. destruct (pid p) as [|c i]; [done|]. rewrite app_cons.
  simpl in Hid. apply andb_true_iff in Hid as [Hc _]. apply negb_true_iff in Hc.
  cbn [sub_pathway_go]. by rewrite Hc.
Qed.

Lemma first_entry (p : pathway) :
  well_formed p -> contains "PATHWAY" (body p) = false ->
  entry (strip (sub_pathway (first_line p))) = item p +:+ ";".
Proof. intros Hp Hfree. by rewrite sub_first, strip_body, entry_body. Qed.

Lemma next_entry (p : pathway) :
  well_formed p -> entry (strip (lstrip (next_line p))) = item p +:+ ";".
Proof.
  intros Hp. pose proof Hp as (Hpad%blank_space & _).
  assert (lstrip (next_line p) = lstrip (pad p +:+ body p)) as -> by done.
  unfold lstrip at 1. rewrite (drop_while_app is_space) by done.
  fold (lstrip (body p)). by rewrite lstrip_body, strip_body, entry_body.
Qed.

(** *** The loop over the lines of the block *)

Lemma join_shift (x y : string) (l : list string) :
  join ";" ((x +:+ ";" +:+ y) :: l) = join ";" (x :: y :: l).
Proof.
  rewrite (EntryFacts.join_cons ";" x (y :: l)) by done.
  destruct l as [|z l]; [done|].
  rewrite !(EntryFacts.join_cons ";" _ (z :: l)) by done.
  by rewrite !EntryFacts.append_assoc.
Qed.

Lemma lines_after (after : list string) (rc : string) :
  (forall a, head after = Some a ->
     startswith " " a = false /\ startswith "PATHWAY" a = false) ->
  pathway_lines after rc = rc.
Proof.
  destruct after as [|a after]; [done|]. intros Ha.
  destruct (Ha a eq_refl) as [Hs Hp]. cbn [pathway_lines]. by rewrite Hp, Hs.
Qed.

Lemma lines_next (ps : list pathway) (after : list string) (x : string) :
  Forall well_formed ps ->
  (forall a, head after = Some a ->
     startswith " " a = false /\ startswith "PATHWAY" a = false) ->
  pathway_lines ((next_line <$> ps) ++ after) (x +:+ ";") =
    join ";" (x :: (item <$> ps)) +:+ ";".
Proof.
  intros Hps Hafter. revert x. induction Hps as [|p ps Hp _ IH]; intros x.
  - by apply lines_after.
  - cbn [fmap list_fmap app pathway_lines].
    assert (startswith "PATHWAY" (next_line p) = false) as -> by done.
    assert (startswith " " (next_line p) = true) as -> by apply (startswith_app " ").
    rewrite (next_entry p Hp), <- EntryFacts.append_assoc.
    rewrite (EntryFacts.append_assoc x ";" (item p)), IH. by rewrite join_shift.
Qed.

Lemma lines_block (p : pathway) (ps : list pathway) (after : list string) :
  Forall well_formed (p :: ps) ->
  contains "PATHWAY" (body p) = false ->
  (forall a, head after = Some a ->
     startswith " " a = false /\ startswith "PATHWAY" a = false) ->
  pathway_lines (first_line p :: (next_line <$> ps) ++ after) "" =
    join ";" (item <$> p :: ps) +:+ ";".
Proof.
  intros [Hp Hps]%Forall_cons Hfree Hafter. cbn [pathway_lines].
  unfold first_line at 1. rewrite startswith_app, (first_entry p Hp Hfree).
  change ("" +:+ ?s) with s. by apply lines_next.
Qed.

(** *** The search of the block *)

Lemma ci_prefix_line (p l X : string) :
  all_chars (fun a => negb (ci_eq a newline)) p = true ->
  ci_prefix p l = false -> ci_prefix p (l +:+ String newline X) = false.
Proof.
  revert l. induction p as [|a p IH]; intros l Hp Hl; [done|].
  simpl in Hp. apply andb_true_iff in Hp as [Ha Hp]. apply negb_true_iff in Ha.
  destruct l as [|b l].
  - change (ci_eq a newline && ci_prefix p X = false). by rewrite Ha.
  - rewrite app_cons. cbn [ci_prefix] in Hl |- *.
    apply andb_false_iff in Hl as [Hl|Hl]; [by rewrite Hl|].
    rewrite (IH l Hp Hl). apply andb_false_r.
Qed.

Lemma search_skip_line (l X : string) :
  search_pathway l = None ->
  search_pathway (l +:+ String newline X) = search_pathway X.
Proof.
  induction l as [|c l IH]; intros Hl; [done|].
  cbn [search_pathway] in Hl.
  destruct (ci_prefix "PATHWAY" (String c l)) eqn:Hc; [done|].
  pose proof (ci_prefix_line "PATHWAY" (String c l) X eq_refl Hc) as Hc'.
  rewrite app_cons in Hc' |- *. cbn [search_pathway]. rewrite Hc'. by apply IH.
Qed.

Lemma search_before (before rest : list string) (L : string) :
  Forall (fun l => search_pathway l = None) before ->
  search_pathway (entry_text (before ++ L :: rest)) = search_pathway (entry_text (L :: rest)).
Proof.
  induction 1 as [|l before Hl _ IH]; [done|]. cbn [app]. unfold entry_text in *.
  rewrite EntryFacts.join_cons by (by destruct before).
  change (nl +:+ ?x) with (String newline x). by rewrite search_skip_line.
Qed.

Lemma search_first (p : pathway) (rest : list string) :
  search_pathway (entry_text (first_line p :: rest)) = Some (entry_text (first_line p :: rest)).
Proof.
  assert (exists t, entry_text (first_line p :: rest) = "PATHWAY" +:+ t) as [t ->].
  { unfold entry_text, first_line. destruct rest as [|r rest]; [by eexists|].
    rewrite EntryFacts.join_cons by done. rewrite EntryFacts.append_assoc. by eexists. }
  done.
Qed.

Lemma strip_last (x : string) : strip_last_semicolon (x +:+ ";") = x.
Proof.
  induction x as [|c x IH]; [done|]. rewrite app_cons. cbn [strip_last_semicolon].
  assert (is_empty (x +:+ ";") || str_eq (x +:+ ";") nl = false) as ->.
  { destruct x as [|d [|e x]]; [done|..]; rewrite ?app_cons;
      unfold str_eq; cbn [is_empty orb String.eqb]; apply andb_false_r. }
  by rewrite andb_false_r, IH.
Qed.

Lemma join_items_not_empty (p : pathway) (ps : list pathway) :
  join ";" (item <$> p :: ps) +:+ ";" <> "".
Proof. by destruct (join ";" (item <$> p :: ps)). Qed.

(** The text that is derived from an entry with a well-formed block. *)
Lemma derive_block (before after : list string) (p : pathway) (ps : list pathway) :
  Forall (fun l => search_pathway l = None) before ->
  Forall well_formed (p :: ps) ->
  contains "PATHWAY" (body p) = false ->
  Forall inline after ->
  (forall a, head after = Some a ->
     startswith " " a = false /\ startswith "PATHWAY" a = false) ->
  derive (entry_text (entry_lines before p ps after)) = join ";" (item <$> p :: ps) +:+ ";".
Proof.
  intros Hbefore Hps Hfree Hin Hafter. unfold derive, entry_lines.
  pose proof (search_before before ((next_line <$> ps) ++ after) (first_line p) Hbefore) as Hs.
  rewrite search_first in Hs.
  destruct (is_empty _) eqn:He.
  { apply PyFacts.is_empty_true in He. by rewrite He in Hs. }
  rewrite Hs. unfold entry_text at 1.
  rewrite (EntryFacts.split_join newline) by first
    [ done
    | apply Forall_cons in Hps as [Hp Hps]; constructor; [by apply first_line_inline|];
      apply Forall_app; split; [|done];
      apply Forall_fmap; eapply Forall_impl; [exact Hps|]; apply next_line_inline ].
  by apply lines_block.
Qed.

Section Lookup.

Variable net : nat -> string -> option string.
Variable dir : string.

(** X15. A KEGG identifier that the cache does not know and whose
    entry has a well-formed PATHWAY block gives the pathways of the
    block: when no line before the block has the word of the key in
    any case of letters, the line after the block starts neither with
    a blank nor with the key, and every pathway line is an identifier,
    white space and a name without white space at its ends, the
    lookup returns the texts identifier>name of the pathways, in
    their order and joined with ';', and writes this text to the
    derived-text file. *)
Theorem kegg_text_of_a_pathway_block (w : world) (id : string) (before after : list string) (p : pathway) (ps : list pathway) :
  files w !! cache_file dir id ".txt" = None ->
  files w !! cache_file dir id ".dat" = None ->
  net (length (requests w)) id = Some (entry_text (entry_lines before p ps after)) ->
  Forall (fun l => search_pathway l = None) before ->
  Forall well_formed (p :: ps) ->
  contains "PATHWAY" (body p) = false ->
  Forall inline after ->
  (forall a, head after = Some a ->
     startswith " " a = false /\ startswith "PATHWAY" a = false) ->
  (kegg_lookup net dir w id).2 = Some (join ";" (item <$> p :: ps)) /\
  files (kegg_lookup net dir w id).1 !! cache_file dir id ".txt"
    = Some (join ";" (item <$> p :: ps)).
Proof.
  intros Htxt Hdat Hnet Hbefore Hps Hfree Hin Hafter.
  rewrite (KeggFacts.lookup_fetch net dir w id _ Htxt Hdat Hnet).
  pose proof (derive_block before after p ps Hbefore Hps Hfree Hin Hafter) as Hd.
  rewrite KeggFacts.store_text by (rewrite Hd; apply join_items_not_empty).
  rewrite Hd, strip_last. cbn [fst snd write files]. split; [done|].
  apply lookup_insert_eq.
Qed.

End Lookup.

Lemma kegg_text_of_a_pathway_block_witness :
  (kegg_lookup net_akt1 "cached/human/kegg" Examples.fresh "hsa:207").2
    = Some "hsa04010>MAPK signaling pathway;hsa04151>PI3K-Akt signaling pathway" /\
  files (kegg_lookup net_akt1 "cached/human/kegg" Examples.fresh "hsa:207").1
    !! cache_file "cached/human/kegg" "hsa:207" ".txt"
    = Some "hsa04010>MAPK signaling pathway;hsa04151>PI3K-Akt signaling pathway".
Proof.
  apply (kegg_text_of_a_pathway_block net_akt1 "cached/human/kegg" Examples.fresh "hsa:207"
           ["ENTRY       207               CDS       T01001";
            "SYMBOL      AKT1, AKT, PKB"]
           ["BRITE       KEGG Orthology (KO) [BR:hsa00001]"; "///"; ""]
           (Pathway "     " "hsa04010" "  " "MAPK signaling pathway")
           [Pathway "           " "hsa04151" "  " "PI3K-Akt signaling pathway"]).
  - reflexivity.
  - reflexivity.
  - reflexivity.
  - repeat constructor.
  - repeat constructor; try done; vm_compute; reflexivity.
  - vm_compute. reflexivity.
  - repeat constructor.
  - intros a [= <-]. split; vm_compute; reflexivity.
Defined.

(** *** The word of the key in small letters *)

Lemma search_found (s b : string) :
  search_pathway s = Some b -> ci_prefix "PATHWAY" b = true.
Proof.
  induction s as [|c s IH]; [done|]. cbn [search_pathway].
  destruct (ci_prefix "PATHWAY" (String c s)) eqn:Hc; [by intros [= <-]|done].
Qed.

Lemma split_first (sep : ascii) (s : string) :
  exists m ms r, split sep s = m :: ms /\ s = m +:+ r.
Proof.
  induction s as [|c s (m & ms & r & Hs & Hr)]; [by exists "", [], ""|].
  cbn [split]. destruct (ceq c sep).
  - by exists "", (split sep s), (String c s).
  - rewrite Hs. exists (String c m), ms, r. by rewrite app_cons, <- Hr.
Qed.

Lemma startswith_mono (p m r : string) :
  startswith p m = true -> startswith p (m +:+ r) = true.
Proof.
  unfold startswith. revert m. induction p as [|a p IH]; intros m; [by destruct (m +:+ r)|].
  destruct m as [|b m]; [done|]. rewrite app_cons. cbn [String.prefix].
  destruct (ascii_dec a b); [apply IH|done].
Qed.

(** X16. The block is searched in any case of letters but read in
    capital letters only: when the first occurrence of the word
    PATHWAY in the response, in any case of letters, is not in
    capital letters, no text is derived, whatever PATHWAY block
    follows it. *)
Theorem pathway_word_in_small_letters_hides_the_block (record block : string) :
  search_pathway record = Some block ->
  startswith "PATHWAY" block = false ->
  derive record = "".
Proof.
  intros Hs Hcap. unfold derive. destruct (is_empty record); [done|]. rewrite Hs.
  apply search_found in Hs. destruct block as [|c b]; [done|].
  cbn [ci_prefix] in Hs. apply andb_true_iff in Hs as [Hc _].
  destruct (split_first newline b) as (m & ms & r & Hsplit & Hb).
  cbn [split]. destruct (ceq c newline) eqn:Hnl.
  { apply Ascii.eqb_eq in Hnl as ->. done. }
  rewrite Hsplit. cbn [pathway_lines].
  destruct (startswith "PATHWAY" (String c m)) eqn:Hm.
  { apply (startswith_mono _ _ r) in Hm. rewrite app_cons, <- Hb in Hm. congruence. }
  assert (startswith " " (String c m) = false) as ->; [|done].
  unfold startswith. cbn [String.prefix]. destruct (ascii_dec " " c) as [<-|]; done.
Qed.

Lemma pathway_word_in_small_letters_hides_the_block_witness : derive regulator = "".
Proof.
  apply (pathway_word_in_small_letters_hides_the_block regulator
           (default "" (search_pathway regulator))); vm_compute; reflexivity.
Defined.

End FlatFacts.

(** ** The report of a record in the file *)

Module FileFacts.
Import Py Pandas Reports Vocabulary PandasFacts.

Lemma family_columns_are_headers (fam : string * list string) (c : string) :
  fam ∈ families -> c ∈ fam.2 -> c ∈ HEADERS /\ c <> XID.
Proof.
  intros Hfam Hc.
  assert (forallb (fun f : string * list string =>
            forallb (fun c => member c HEADERS && negb (str_eq c XID)) f.2) families = true)
    as Hall by (vm_compute; reflexivity).
  rewrite forallb_forall in Hall. apply list_elem_of_In, Hall in Hfam.
  rewrite forallb_forall in Hfam. apply list_elem_of_In, Hfam in Hc.
  apply andb_true_iff in Hc as [Hm Hx]. split; [by apply member_spec|].
  intros ->. by rewrite String.eqb_refl in Hx.
Qed.

Lemma base_columns_are_headers (c : string) :
  c ∈ base_columns -> c ∈ HEADERS /\ c <> XID.
Proof.
  intros Hc.
  assert (forallb (fun c => member c HEADERS && negb (str_eq c XID)) base_columns = true)
    as Hall by (vm_compute; reflexivity).
  rewrite forallb_forall in Hall. apply list_elem_of_In, Hall in Hc.
  apply andb_true_iff in Hc as [Hm Hx]. split; [by apply member_spec|].
  intros ->. by rewrite String.eqb_refl in Hx.
Qed.

Section File.

Variable net : nat -> string -> option string.
Variable self : creator.
Variable corum_json : option (list complex).
Variable panther_df : option (list (cell * cell)).

(** X17. The file loses nothing of the report of a record: every
    column of the report is a column of [HEADERS] other than the
    label, and the line that [to_file] writes of a row holds the
    label of the row under [Protein] and, under every column of the
    report, the cell that the row has in this column. *)
Theorem file_keeps_every_cell_of_a_report (w w' : world) (r : record) (df : frame) :
  Report._create_qreport net self w r corum_json panther_df = (w', Some df) ->
  forall i k row, frows df !! i = Some (k, row) ->
  exists line,
    written df !! i = Some line /\
    (exists j, HEADERS !! j = Some XID /\ line !! j = Some (Str k)) /\
    forall c, c ∈ fcols df ->
      exists j v, HEADERS !! j = Some c /\ cell_at df row c = Some v /\ line !! j = Some v.
Proof.
  intros Hrun i k row Hi.
  destruct (ReportFacts.qreport_steps _ _ _ _ _ _ _ _ Hrun)
    as (acc & ids & disp & _ & _ & Hacc & Hiso & _).
  destruct (ReportFacts.qreport_inv net self r corum_json panther_df w w' df acc ids disp
              Hrun Hacc Hiso) as (Hrect & _ & (more & Hcols & Hmore) & _).
  assert (Hlen : length row = length (fcols df)).
  { apply (RowFacts.rectangular_row df k row Hrect). by eapply list_elem_of_lookup_2. }
  destruct df as [cols rows]. cbn [fcols frows] in *.
  rewrite ReportsFacts.written_rows, list_lookup_fmap, Hi. cbn [fmap option_fmap option_map].
  eexists. split; [done|]. split.
  - exists 1. split; [done|]. by rewrite list_lookup_fmap.
  - intros c Hc.
    assert (c ∈ HEADERS /\ c <> XID) as [Hh Hx].
    { rewrite Hcols in Hc. apply elem_of_app in Hc as [Hc|Hc].
      - by apply base_columns_are_headers.
      - destruct (Hmore c Hc) as (fam & Hfam & _ & Hin).
        by eapply family_columns_are_headers. }
    apply list_elem_of_lookup_1 in Hh as [j Hj].
    destruct (RowFacts.index_of_elem c cols Hc) as [n Hn].
    assert (is_Some (row !! n)) as [v Hv].
    { apply lookup_lt_is_Some. rewrite Hlen.
      apply RowFacts.index_of_Some in Hn. by eapply lookup_lt_Some. }
    exists j, v. split; [done|]. split.
    + unfold cell_at. cbn [fcols]. by rewrite Hn.
    + rewrite list_lookup_fmap, Hj. cbn [fmap option_fmap option_map fst snd].
      rewrite ReportsFacts.index_of_label.
      destruct (str_eq XID c) eqn:Heq; [by apply String.eqb_eq in Heq|].
      rewrite Hn. cbn [fmap option_fmap option_map]. 
      change ((Str k :: row) !! S n) with (row !! n). by rewrite Hv.
Qed.

End File.

Lemma file_keeps_every_cell_of_a_report_witness :
  exists line,
    written first_report !! 0 = Some line /\
    (exists j, HEADERS !! j = Some XID /\ line !! j = Some (Str "P12345")) /\
    forall c, c ∈ fcols first_report ->
      exists j v, HEADERS !! j = Some c /\ cell_at first_report first_row c = Some v /\
        line !! j = Some v.
Proof.
  refine (file_keeps_every_cell_of_a_report net_pathway Examples.self0 None None
            Examples.fresh first_run.1 with_kegg first_report _ 0 "P12345" first_row _).
  - vm_compute. reflexivity.
  - vm_compute. reflexivity.
Defined.

End FileFacts.

(** ** The scalar fields of a record *)

Module ParserFacts.
Import Py Parser.







End ParserFacts.

(** ** A run without KEGG *)

Module OfflineFacts.
Import Py Pandas Kegg Cats Report Vocabulary Cache PandasFacts.

Section Down.

Variable net : nat -> string -> option string.
Variable self : creator.
Variable r : record.
Variable corum_json : option (list complex).
Variable panther_df : option (list (cell * cell)).

Hypothesis down : forall n id, net n id = None.

Local Abbreviation dir := (cached_dir_kegg self).
Local Abbreviation rcross := (Xrefs.rcross_of (fst <$> CTERMS) (cross_references r)).

(** The cache has no file of the identifiers [ids]. *)
Local Abbreviation unknown ids w :=
  (forall id, id ∈ ids ->
     files w !! cache_file dir id ".txt" = None /\
     files w !! cache_file dir id ".dat" = None).

Lemma kegg_values_down (rconts : list (list string)) (w w' : world) (o : option (list string)) :
  unknown (omap head rconts) w ->
  kegg_values net dir w rconts = (w', o) ->
  files w' = files w /\
  (o = None \/ (o = Some [] /\ requests w' = requests w ++ omap head rconts)).
Proof.
  revert w w' o. induction rconts as [|rcont rconts IH]; intros w w' o Hun Hrun.
  - injection Hrun as <- <-. split; [done|]. right. by rewrite app_nil_r.
  - cbn [kegg_values] in Hrun. destruct (head rcont) as [id|] eqn:Hid.
    2:{ injection Hrun as <- <-. split; [done|]. by left. }
    assert (Hin : id ∈ omap head (rcont :: rconts)).
    { cbn [omap list_omap]. rewrite Hid. by left. }
    destruct (Hun id Hin) as [Htxt Hdat].
    rewrite (KeggFacts.lookup_failed net dir w id Htxt Hdat (down _ _)) in Hrun.
    destruct (kegg_values net dir _ rconts) as [w2 rcs] eqn:Hrest.
    injection Hrun as <- <-.
    apply IH in Hrest as [Hfiles Ho].
    + split; [done|]. destruct Ho as [->|[-> Hreq]]; [by left|]. right. split; [done|].
      rewrite Hreq. cbn [requests omap list_omap]. rewrite Hid. by rewrite <- app_assoc.
    + intros id' Hid'. cbn [files]. apply Hun. cbn [omap list_omap]. rewrite Hid. by right.
Qed.

Section Rounds.

Variables (acc : string) (ids : list string).
Hypothesis some_id : ids <> [].

Local Abbreviation round := (join_cterm net self acc ids rcross corum_json panther_df).
Local Abbreviation rounds := (join_cterms net self acc ids rcross corum_json panther_df).

Lemma round_offline (t : string * list (string * string)) (w w' : world) (df1 df' : frame) :
  t ∈ CTERMS -> t.1 <> "KEGG" ->
  round w df1 t = (w', Some df') ->
  w' = w /\ ("cat_KEGG" ∉ fcols df1 -> "cat_KEGG" ∉ fcols df').
Proof.
  intros Ht Hk Hrun. split.
  - pose proof (CacheFacts.join_cterm_world net self r corum_json panther_df acc ids w df1 t) as Hw.
    rewrite Hrun, (CacheFacts.cterm_table_offline net self r corum_json panther_df acc w w t Ht Hk) in Hw.
    done.
  - intros Hno.
    destruct (RowFacts.join_cterm_spread net self r corum_json panther_df acc ids some_id
                w w' df1 df' t Ht Hrun) as [->|(vals & _ & Hjoin)]; [done|].
    rewrite (join_columns _ _ _ Hjoin). cbn [Terms.spread_frame fcols].
    intros [Hc|Hc]%elem_of_app; [done|].
    repeat (apply elem_of_cons in Ht as [->|Ht]);
      [..|by apply elem_of_nil in Ht]; try done;
      cbn [fmap list_fmap fst snd] in Hc;
      repeat (apply elem_of_cons in Hc as [Hc|Hc]; [done|]);
      by apply elem_of_nil in Hc.
Qed.

Lemma round_down (w w' : world) (df1 df' : frame) :
  unknown (kegg_ids r) w ->
  round w df1 ("KEGG", [("cat_KEGG", "")]) = (w', Some df') ->
  df' = df1 /\ files w' = files w /\ requests w' = requests w ++ kegg_ids r.
Proof.
  intros Hun. unfold join_cterm.
  rewrite (CacheFacts.cterm_table_kegg net self r corum_json panther_df acc w).
  unfold kegg_ids in *. destruct (tuples_of r "KEGG") as [|rcont rconts].
  - intros [= <- <-]. by rewrite app_nil_r.
  - destruct (kegg_values net dir w (rcont :: rconts)) as [w2 o] eqn:Hv.
    apply kegg_values_down in Hv as [Hfiles [->|[-> Hreq]]]; [done| |done].
    cbn [fst snd fmap option_fmap option_map mbind option_bind].
    by intros [= <- <-].
Qed.

Lemma rounds_down (terms : list (string * list (string * string))) (w w' : world) (df1 df : frame) :
  terms ⊆ CTERMS ->
  unknown (kegg_ids r) w ->
  "cat_KEGG" ∉ fcols df1 ->
  rounds w df1 terms = (w', Some df) ->
  ("cat_KEGG" ∉ fcols df) /\ files w' = files w /\
  requests w' = requests w ++ rounds_ids r terms.
Proof.
  revert w df1. induction terms as [|t terms IH]; intros w df1 Hsub Hun Hno Hrun.
  - injection Hrun as <- <-. by rewrite app_nil_r.
  - cbn [join_cterms] in Hrun. destruct (round w df1 t) as [w1 [dfa|]] eqn:Ht; [|done].
    assert (Hin : t ∈ CTERMS) by (apply Hsub; by left).
    assert (Hrest : terms ⊆ CTERMS) by (intros x Hx; apply Hsub; by right).
    unfold rounds_ids. cbn [mbind list_bind]. fold (rounds_ids r terms). unfold round_ids at 1.
    destruct (str_eq t.1 "KEGG") eqn:Hk.
    + assert (t = ("KEGG", [("cat_KEGG", "")])) as ->.
      { repeat (apply elem_of_cons in Hin as [->|Hin]); [done..|by apply elem_of_nil in Hin]. }
      apply round_down in Ht as (-> & Hf & Hr); [|done].
      destruct (IH w1 df1 Hrest) as (Hc & Hf' & Hr'); [by rewrite Hf|done|done|].
      split; [done|]. split; [by rewrite Hf'|]. by rewrite Hr', Hr, <- app_assoc.
    + assert (t.1 <> "KEGG") as Hne by (intros Heq; by rewrite Heq in Hk).
      apply round_offline in Ht as [-> Hcols]; [|done|done].
      by apply (IH w dfa Hrest Hun (Hcols Hno)).
Qed.

End Rounds.

(** X19. When KEGG is unreachable, the report goes without it: for
    a cache that has no file of the KEGG identifiers of the record and
    a network on which every request raises, a report that
    [_create_qreport] returns has no column [cat_KEGG]; the run has
    sent one request for every KEGG tuple, in the order of the tuples,
    and has written no file, so that a later run asks again. *)
Theorem unreachable_kegg_leaves_the_column_out (w w' : world) (df : frame) :
  unknown (kegg_ids r) w ->
  _create_qreport net self w r corum_json panther_df = (w', Some df) ->
  ("cat_KEGG" ∉ fcols df) /\ files w' = files w /\
  requests w' = requests w ++ kegg_ids r.
Proof.
  intros Hun Hrun.
  destruct (ReportFacts.qreport_steps _ _ _ _ _ _ _ _ Hrun)
    as (acc & ids & disp & base & dfx & Hacc & Hiso & Hne & Hbase & Hx & Hc).
  assert (Hcat : "cat_KEGG" ∈ Terms.category_columns).
  { apply (bool_decide_unpack _). vm_compute. reflexivity. }
  assert (Hdfx : "cat_KEGG" ∉ fcols dfx).
  { apply (RowFacts.join_xterms_keep r acc ids disp (fun f => "cat_KEGG" ∉ fcols f)
             XTERMS base dfx); [|done| |done].
    - intros df2 df3 df' t Ht Hno Hjoin (Hcols & _).
      rewrite (join_columns _ _ _ Hjoin), Hcols. intros [?|Hin]%elem_of_app; [done|].
      by apply (RowFacts.xref_columns_are_no_categories t "cat_KEGG" Ht Hin).
    - destruct (BaseFacts.base_table_spec self r ids Hne) as (df1 & Hdf1 & Hcols & _).
      rewrite Hbase in Hdf1. injection Hdf1 as <-. rewrite Hcols. intros Hin.
      by apply (RowFacts.base_columns_are_no_categories "cat_KEGG" Hin). }
  destruct (rounds_down acc ids Hne CTERMS w w' dfx df) as (Hno & Hf & Hr); [done..|].
  split; [done|]. split; [done|]. rewrite Hr. unfold rounds_ids. cbn [mbind list_bind CTERMS].
  unfold round_ids. cbn [fst str_eq String.eqb Ascii.eqb Bool.eqb]. by rewrite app_nil_r.
Qed.

End Down.

Lemma unreachable_kegg_leaves_the_column_out_witness :
  ("cat_KEGG" ∉ fcols Reports.offline_report) /\
  files Reports.offline_run.1 = files Examples.fresh /\
  requests Reports.offline_run.1 = requests Examples.fresh ++ kegg_ids Reports.with_kegg.
Proof.
  apply (unreachable_kegg_leaves_the_column_out Examples.net_down Examples.self0
           Reports.with_kegg None None (fun _ _ => eq_refl) Examples.fresh
           Reports.offline_run.1 Reports.offline_report).
  - intros id _. split; apply lookup_empty.
  - vm_compute. reflexivity.
Defined.

End OfflineFacts.

(** ** A run on a warm cache *)

Module WarmFacts.
Import Py Pandas Kegg Cats Report Reports Vocabulary Cache PandasFacts.

Section Warm.

Variables net1 net2 : nat -> string -> option string.
Variable self : creator.
Variable corum_json : option (list complex).
Variable panther_df : option (list (cell * cell)).

Local Abbreviation dir := (cached_dir_kegg self).

(** The cache answers the lookup of every identifier of [ids]. *)
Local Abbreviation known ids w := (forall id, id ∈ ids -> exists v, answers dir w id v).

Lemma kegg_values_warm (rconts : list (list string)) (w : world) :
  known (omap head rconts) w ->
  kegg_values net1 dir w rconts = kegg_values net2 dir w rconts /\
  (kegg_values net1 dir w rconts).1 = w.
Proof.
  induction rconts as [|rcont rconts IH]; intros Hk; [done|].
  cbn [kegg_values]. destruct (head rcont) as [id|] eqn:Hid; [|done].
  destruct (Hk id) as [v Hv]; [cbn [omap list_omap]; rewrite Hid; by left|].
  rewrite !(CacheFacts.answers_lookup _ dir w id v Hv).
  destruct IH as [Heq Hw]; [intros i Hi; apply Hk; cbn [omap list_omap]; rewrite Hid; by right|].
  rewrite <- Heq. by destruct (kegg_values net1 dir w rconts).
Qed.

Section Record.

Variable r : record.

Local Abbreviation rcross := (Xrefs.rcross_of (fst <$> CTERMS) (cross_references r)).

Lemma cterm_table_warm (acc : string) (w : world) (t : string * list (string * string)) :
  t ∈ CTERMS -> known (kegg_ids r) w ->
  cterm_table net1 self acc rcross corum_json panther_df w t =
    cterm_table net2 self acc rcross corum_json panther_df w t /\
  (cterm_table net1 self acc rcross corum_json panther_df w t).1 = w.
Proof.
  intros Ht Hk. destruct (decide (t.1 = "KEGG")) as [Heq|Hne].
  - assert (t = ("KEGG", [("cat_KEGG", "")])) as ->.
    { repeat (apply elem_of_cons in Ht as [->|Ht]); [done..|by apply elem_of_nil in Ht]. }
    rewrite !CacheFacts.cterm_table_kegg. unfold kegg_ids in Hk.
    destruct (tuples_of r "KEGG") as [|rcont rconts]; [done|].
    destruct (kegg_values_warm (rcont :: rconts) w Hk) as [-> ->]. done.
  - repeat (apply elem_of_cons in Ht as [->|Ht]); [..|by apply elem_of_nil in Ht];
      try done; unfold cterm_table; cbn [fst snd]; by destruct (rcross !! _).
Qed.

Lemma join_cterms_warm (acc : string) (ids : list string) (terms : list (string * list (string * string))) (w : world) (df1 : frame) :
  terms ⊆ CTERMS -> known (kegg_ids r) w ->
  join_cterms net1 self acc ids rcross corum_json panther_df w df1 terms =
    join_cterms net2 self acc ids rcross corum_json panther_df w df1 terms /\
  (join_cterms net1 self acc ids rcross corum_json panther_df w df1 terms).1 = w.
Proof.
  intros Hsub Hk. revert df1. induction terms as [|t terms IH]; intros df1; [done|].
  cbn [join_cterms]. unfold join_cterm.
  destruct (cterm_table_warm acc w t) as [Heq Hw]; [apply Hsub; by left|done|].
  rewrite <- Heq.
  destruct (cterm_table net1 self acc rcross corum_json panther_df w t) as [w1 tb].
  cbn [fst] in Hw. subst w1.
  destruct (tb ≫= _) as [df'|]; [|done].
  apply IH. intros x Hx. apply Hsub. by right.
Qed.

Lemma qreport_warm (w : world) :
  known (kegg_ids r) w ->
  _create_qreport net1 self w r corum_json panther_df =
    _create_qreport net2 self w r corum_json panther_df /\
  (_create_qreport net1 self w r corum_json panther_df).1 = w.
Proof.
  intros Hk. unfold _create_qreport.
  destruct (_ ← head (accessions r); _) as [[[acc ids] df1]|]; [|done].
  by apply join_cterms_warm.
Qed.

End Record.

Lemma reports_warm (records : list record) (w : world) :
  (forall r, r ∈ records -> known (kegg_ids r) w) ->
  reports net1 self w records corum_json panther_df =
    reports net2 self w records corum_json panther_df /\
  (reports net1 self w records corum_json panther_df).1 = w.
Proof.
  induction records as [|r records IH]; intros Hk; [done|]. cbn [reports].
  destruct (qreport_warm r w) as [Heq Hw]; [apply Hk; by left|]. rewrite <- Heq.
  destruct (_create_qreport net1 self w r corum_json panther_df) as [w1 [df|]];
    cbn [fst] in Hw; subst w1; [|done].
  destruct IH as [Heq' Hw']; [intros x Hx; apply Hk; by right|]. rewrite <- Heq'.
  destruct (reports net1 self w records corum_json panther_df) as [w2 [ddf|]];
    cbn [fst] in Hw'; by subst w2.
Qed.

(** X20. A run on a warm cache needs no network: when the cache
    answers the lookup of every KEGG identifier of every record, by
    its derived-text file or by a raw response without a pathway,
    [create_qreport] returns the same on every network, and it leaves
    the world as it is: it sends no request and writes no file. *)
Theorem warm_cache_needs_no_network (order : list string -> list string) (records : list record) (w : world) :
  (forall r, r ∈ records -> known (kegg_ids r) w) ->
  create_qreport net1 self order w records corum_json panther_df =
    create_qreport net2 self order w records corum_json panther_df /\
  (create_qreport net1 self order w records corum_json panther_df).1 = w.
Proof.
  intros Hk. unfold create_qreport. destruct (reports_warm records w Hk) as [Heq Hw].
  rewrite <- Heq.
  by destruct (reports net1 self w records corum_json panther_df) as [w1 ddf].
Qed.

End Warm.

Lemma warm_cache_needs_no_network_witness :
  create_qreport Examples.net_down Examples.self0 (fun l => l) example_run.1
                 [with_kegg; second] None None =
    create_qreport net_pathway Examples.self0 (fun l => l) example_run.1
                   [with_kegg; second] None None /\
  (create_qreport Examples.net_down Examples.self0 (fun l => l) example_run.1
                  [with_kegg; second] None None).1 = example_run.1.
Proof.
  apply (warm_cache_needs_no_network Examples.net_down net_pathway Examples.self0 None None
           (fun l => l) [with_kegg; second] example_run.1).
  intros r Hr id Hid. exists "hsa04110>Cell cycle". left.
  apply elem_of_cons in Hr as [->|Hr].
  - apply list_elem_of_singleton in Hid as ->. vm_compute. reflexivity.
  - apply list_elem_of_singleton in Hr as ->. by apply elem_of_nil in Hid.
Defined.

End WarmFacts.

(** ** The records of which a report is made *)

Module FailureFacts.
Import Py Pandas Xrefs Kegg Cats Report Reports Vocabulary PandasFacts.

Lemma ensembl_fields (acc : string) (disp : option string) (rcont : list string) :
  is_Some (ensembl_row acc disp rcont) -> 3 <= length rcont.
Proof. destruct rcont as [|a [|b [|c l]]]; intros [? ?]; try done. simpl. lia. Qed.

Lemma refseq_fields (acc : string) (disp : option string) (rcont : list string) :
  is_Some (refseq_row acc disp rcont) -> 2 <= length rcont.
Proof. destruct rcont as [|a [|b l]]; intros [? ?]; try done. simpl. lia. Qed.

Lemma ccds_fields (acc : string) (disp : option string) (rcont : list string) :
  is_Some (ccds_row acc disp rcont) -> 2 <= length rcont.
Proof. destruct rcont as [|a [|b l]]; intros [? ?]; try done. simpl. lia. Qed.

Lemma go_groups_fields (rconts : list (list string)) (rcs : gmap string string) :
  is_Some (go_groups rcs rconts) -> Forall (fun rc => 3 <= length rc) rconts.
Proof.
  revert rcs. induction rconts as [|rc rconts IH]; intros rcs Hs; [constructor|].
  cbn [go_groups] in Hs. destruct (go_step rcs rc) as [rcs'|] eqn:Hstep;
    [|by apply is_Some_None in Hs].
  constructor; [|by apply (IH rcs')].
  destruct rc as [|a [|b [|c l]]]; try done. simpl. lia.
Qed.

Lemma kegg_values_fields (net : nat -> string -> option string) (dir : string) (rconts : list (list string)) (w : world) :
  is_Some (kegg_values net dir w rconts).2 -> Forall (fun rc => 1 <= length rc) rconts.
Proof.
  revert w. induction rconts as [|rc rconts IH]; intros w Hs; [constructor|].
  cbn [kegg_values] in Hs. destruct rc as [|id l]; [by apply is_Some_None in Hs|].
  constructor; [simpl; lia|]. cbn [head] in Hs.
  destruct (kegg_lookup net dir w id) as [w1 rc].
  destruct (kegg_values net dir w1 rconts) as [w2 rcs] eqn:Hrest.
  apply (IH w1). rewrite Hrest. cbn [snd] in Hs |- *.
  destruct rcs; [done|]. by apply is_Some_None in Hs.
Qed.

Lemma reactome_fields (rconts : list (list string)) :
  is_Some (mapM reactome_entry rconts) -> Forall (fun rc => 1 <= length rc) rconts.
Proof.
  intros Hs%mapM_is_Some. eapply Forall_impl; [exact Hs|].
  intros [|id l] [? ?]; [done|]. simpl. lia.
Qed.

Section Record.

Variable net : nat -> string -> option string.
Variable self : creator.
Variable r : record.
Variable corum_json : option (list complex).
Variable panther_df : option (list (cell * cell)).
Local Abbreviation xcross := (rcross_of (fst <$> XTERMS) (cross_references r)).
Local Abbreviation ccross := (rcross_of (fst <$> CTERMS) (cross_references r)).

Lemma join_xterms_tables (acc : string) (ids : list string) (disp : option string) (terms : list (string * list string)) (df1 df : frame) :
  join_xterms acc ids disp xcross df1 terms = Some df ->
  forall t, t ∈ terms -> is_Some (xterm_table acc disp xcross t).
Proof.
  revert df1. induction terms as [|t terms IH]; intros df1 Hrun x Hx;
    [by apply elem_of_nil in Hx|].
  cbn [join_xterms] in Hrun.
  destruct (join_xterm acc ids disp xcross df1 t) as [df'|] eqn:Ht; [|done].
  apply elem_of_cons in Hx as [->|Hx]; [|by apply (IH df')].
  unfold join_xterm in Ht. by destruct (xterm_table acc disp xcross t).
Qed.

Lemma join_cterms_tables (acc : string) (ids : list string) (terms : list (string * list (string * string))) (w w' : world) (df1 df : frame) :
  join_cterms net self acc ids ccross corum_json panther_df w df1 terms = (w', Some df) ->
  forall t, t ∈ terms ->
    exists w0, is_Some (cterm_table net self acc ccross corum_json panther_df w0 t).2.
Proof.
  revert w df1. induction terms as [|t terms IH]; intros w df1 Hrun x Hx;
    [by apply elem_of_nil in Hx|].
  cbn [join_cterms] in Hrun.
  destruct (join_cterm net self acc ids ccross corum_json panther_df w df1 t)
    as [w1 [df'|]] eqn:Ht; [|done].
  apply elem_of_cons in Hx as [->|Hx]; [|by apply (IH w1 df')].
  exists w. unfold join_cterm in Ht.
  by destruct (cterm_table net self acc ccross corum_json panther_df w t) as [w2 [tb|]].
Qed.

Lemma xterm_fields (acc : string) (disp : option string) (t : string * list string) (n : nat) (row_of : list string -> option (list cell)) :
  t ∈ XTERMS ->
  (forall rconts, xref_rows acc disp t.1 rconts = mapM row_of rconts) ->
  (forall rc, is_Some (row_of rc) -> n <= length rc) ->
  is_Some (xterm_table acc disp xcross t) ->
  Forall (fun rc => n <= length rc) (tuples_of r t.1).
Proof.
  intros Ht Hrows Hrow. unfold xterm_table. cbv zeta.
  rewrite (PartFacts.rcross_tuples (fst <$> XTERMS) r t.1)
    by (by apply (list_elem_of_fmap_2 fst)).
  destruct (tuples_of r t.1) as [|rc rcs] eqn:Htup; [constructor|].
  cbn [nonempty]. rewrite Hrows.
  destruct (mapM row_of (rc :: rcs)) as [rows|] eqn:Hm; [|by intros ?%is_Some_None].
  intros _. assert (is_Some (mapM row_of (rc :: rcs))) as Hs%mapM_is_Some by by rewrite Hm.
  eapply Forall_impl; [exact Hs|]. intros x. apply Hrow.
Qed.

(** Every tuple has the fields that a run which returns has read. *)
Lemma qreport_complete (w w' : world) (df : frame) :
  _create_qreport net self w r corum_json panther_df = (w', Some df) -> complete r.
Proof.
  intros Hrun. 
  destruct (ReportFacts.qreport_steps _ _ _ _ _ _ _ _ Hrun)
    as (acc' & ids' & disp' & base & dfx & _ & _ & _ & _ & Hx & Hc).
  apply Forall_forall. intros x Hin.
  assert (Htup : forall db, xdb x = db -> xfields x ∈ tuples_of r db).
  { intros db Hdb. unfold tuples_of. apply (list_elem_of_fmap_2 xfields).
    by apply list_elem_of_filter. }
  unfold fields_read.
  assert (Htab : forall t, t ∈ XTERMS -> is_Some (xterm_table acc' disp' xcross t)).
  { by apply (join_xterms_tables acc' ids' disp' XTERMS base dfx). }
  destruct (str_eq (xdb x) "Ensembl") eqn:H1.
  { apply String.eqb_eq in H1.
    assert (Ht : ("Ensembl", ["xref_Ensembl_protId"; "xref_Ensembl_transcId";
                              "xref_Ensembl_GeneId"; "Protein"]) ∈ XTERMS) by (by left).
    pose proof (xterm_fields acc' disp' _ 3 (ensembl_row acc' disp') Ht
                  (fun _ => eq_refl) (ensembl_fields acc' disp') (Htab _ Ht)) as Hf.
    cbn [fst] in Hf. eapply Forall_forall in Hf; [exact Hf|by apply Htup]. }
  destruct (str_eq (xdb x) "RefSeq") eqn:H2.
  { apply String.eqb_eq in H2.
    assert (Ht : ("RefSeq", ["xref_RefSeq_protId"; "xref_RefSeq_transcId"; "Protein"])
                 ∈ XTERMS) by (right; by left).
    pose proof (xterm_fields acc' disp' _ 2 (refseq_row acc' disp') Ht
                  (fun _ => eq_refl) (refseq_fields acc' disp') (Htab _ Ht)) as Hf.
    cbn [fst] in Hf. eapply Forall_forall in Hf; [exact Hf|by apply Htup]. }
  destruct (str_eq (xdb x) "CCDS") eqn:H3.
  { apply String.eqb_eq in H3.
    assert (Ht : ("CCDS", ["xref_CCDS"; "Protein"]) ∈ XTERMS) by (do 2 right; by left).
    pose proof (xterm_fields acc' disp' _ 2 (ccds_row acc' disp') Ht
                  (fun _ => eq_refl) (ccds_fields acc' disp') (Htab _ Ht)) as Hf.
    cbn [fst] in Hf. eapply Forall_forall in Hf; [exact Hf|by apply Htup]. }
  assert (Hround : forall t, t ∈ CTERMS ->
            exists w0, is_Some (cterm_table net self acc' ccross corum_json panther_df w0 t).2).
  { by apply (join_cterms_tables acc' ids' CTERMS w w' dfx df). }
  assert (Hcat : forall db, db ∈ fst <$> CTERMS ->
            ccross !! db = nonempty (tuples_of r db)).
  { intros db Hdb. by apply PartFacts.rcross_tuples. }
  destruct (str_eq (xdb x) "GO") eqn:H4.
  { apply String.eqb_eq in H4. specialize (Htup _ H4).
    destruct (Hround ("GO", [("cat_GO_C", "C"); ("cat_GO_F", "F"); ("cat_GO_P", "P")]))
      as [w0 Hs]; [by left|].
    unfold cterm_table in Hs. cbn [fst snd] in Hs. rewrite Hcat in Hs by by left.
    destruct (tuples_of r "GO") as [|rc rcs] eqn:Hgo; [by apply elem_of_nil in Htup|].
    cbn [nonempty] in Hs. unfold extract, _extract_cat_go in Hs.
    cbn [str_eq String.eqb Ascii.eqb Bool.eqb] in Hs.
    destruct (go_groups ∅ (rc :: rcs)) as [m|] eqn:Hg; [|by apply is_Some_None in Hs].
    assert (is_Some (go_groups ∅ (rc :: rcs))) as Hall%go_groups_fields by by rewrite Hg.
    by eapply Forall_forall in Hall. }
  destruct (str_eq (xdb x) "KEGG") eqn:H5.
  { apply String.eqb_eq in H5. specialize (Htup _ H5).
    destruct (Hround ("KEGG", [("cat_KEGG", "")])) as [w0 Hs]; [right; by left|].
    rewrite CacheFacts.cterm_table_kegg in Hs.
    destruct (tuples_of r "KEGG") as [|rc rcs] eqn:Hk; [by apply elem_of_nil in Htup|].
    cbn [snd] in Hs. apply fmap_is_Some, kegg_values_fields in Hs.
    by eapply Forall_forall in Hs. }
  destruct (str_eq (xdb x) "Reactome") eqn:H6; [|lia].
  apply String.eqb_eq in H6. specialize (Htup _ H6).
  destruct (Hround ("Reactome", [("cat_Reactome", "")])) as [w0 Hs]; [do 3 right; by left|].
  unfold cterm_table in Hs. cbn [fst snd] in Hs. rewrite Hcat in Hs by (do 3 right; by left).
  destruct (tuples_of r "Reactome") as [|rc rcs] eqn:Hre; [by apply elem_of_nil in Htup|].
  cbn [nonempty] in Hs. unfold extract, _extract_cat_reactome in Hs.
  cbn [str_eq String.eqb Ascii.eqb Bool.eqb] in Hs.
  destruct (mapM reactome_entry (rc :: rcs)) as [es|] eqn:Hm;
    [|cbn in Hs; by apply is_Some_None in Hs].
  assert (is_Some (mapM reactome_entry (rc :: rcs))) as Hall%reactome_fields by by rewrite Hm.
  by eapply Forall_forall in Hall.
Qed.

Lemma corum_value_keyed (acc : string) :
  is_Some (corum_value corum_json acc) -> keyed corum_json.
Proof.
  destruct corum_json as [[|c l]|]; [by constructor| |done].
  unfold corum_value, keyed.
  destruct (mapM (corum_member acc) (c :: l)) as [mask|] eqn:Hm;
    [|by intros ?%is_Some_None].
  intros _. assert (is_Some (mapM (corum_member acc) (c :: l))) as Hs%mapM_is_Some
    by by rewrite Hm.
  eapply Forall_impl; [exact Hs|]. intros x Hx. by apply fmap_is_Some in Hx.
Qed.

Lemma refers_tuples (db : string) : refers_to r db -> tuples_of r db <> [].
Proof.
  unfold refers_to, tuples_of. intros ([d f] & Hd & Hin)%list_elem_of_fmap Hnil.
  apply fmap_nil_inv in Hnil.
  assert (Hx : Xref d f ∈ filter (fun x : xref => xdb x = db) (cross_references r))
    by by apply list_elem_of_filter.
  rewrite Hnil in Hx. by apply elem_of_nil in Hx.
Qed.

(** The complex table was read without an exception. *)
Lemma qreport_safe (w w' : world) (df : frame) :
  _create_qreport net self w r corum_json panther_df = (w', Some df) ->
  corum_safe corum_json r.
Proof.
  intros Hrun. unfold corum_safe, refers_to.
  destruct (decide ("CORUM" ∈ xdb <$> cross_references r)) as [Hin|Hno]; [left|by right].
  destruct (ReportFacts.qreport_steps _ _ _ _ _ _ _ _ Hrun)
    as (acc & ids & disp & base & dfx & _ & _ & _ & _ & _ & Hc).
  destruct (join_cterms_tables acc ids CTERMS w w' dfx df Hc
              ("CORUM", [("cat_CORUM", "")])) as [w0 Hs]; [do 4 right; by left|].
  unfold cterm_table in Hs. cbn [fst snd] in Hs.
  rewrite (PartFacts.rcross_tuples (fst <$> CTERMS) r "CORUM") in Hs
    by (do 4 right; by left).
  pose proof (refers_tuples "CORUM" Hin) as Hne.
  destruct (tuples_of r "CORUM") as [|rc rcs]; [done|].
  cbn [nonempty] in Hs. unfold extract, _extract_cat_corum in Hs.
  cbn [str_eq String.eqb Ascii.eqb Bool.eqb mapM] in Hs.
  apply (corum_value_keyed acc).
  destruct (corum_value corum_json acc); [done|].
  cbn in Hs. by apply is_Some_None in Hs.
Qed.

Lemma qreport_readable (w w' : world) (df : frame) :
  _create_qreport net self w r corum_json panther_df = (w', Some df) -> readable r.
Proof.
  intros Hrun.
  destruct (ReportFacts.qreport_steps _ _ _ _ _ _ _ _ Hrun)
    as (acc & ids & disp & _ & _ & Hacc & Hiso & _).
  exists acc. split; [done|]. by rewrite Hiso.
Qed.

End Record.

Section Run.

Variable net : nat -> string -> option string.
Variable self : creator.
Variable order : list string -> list string.
Variable corum_json : option (list complex).
Variable panther_df : option (list (cell * cell)).

Lemma reports_well_formed (records : list record) (w w' : world) (dfs : list frame) :
  reports net self w records corum_json panther_df = (w', Some dfs) ->
  Forall readable records /\ Forall complete records /\
  Forall (corum_safe corum_json) records.
Proof.
  revert w dfs. induction records as [|r records IH]; intros w dfs Hrun; [by repeat split|].
  apply ReportsFacts.reports_inv in Hrun as (w1 & df & ddf & Hr & Hrest & ->).
  destruct (IH w1 ddf Hrest) as (Hread & Hcomp & Hsafe).
  split; [|split]; constructor; try done.
  - by eapply qreport_readable.
  - by eapply qreport_complete.
  - by eapply qreport_safe.
Qed.

(** X13. The records of which [create_qreport] makes a report: the
    run returns a report exactly when there is a record and, of every
    record, an accession and the isoform ids can be read, every
    cross-reference has the fields that are read (three of an Ensembl
    or a GO tuple, two of a RefSeq or a CCDS tuple, one of a KEGG or
    a Reactome tuple), and the complex table has the subunits of
    every object or the record has no CORUM cross-reference. With no
    record [pd.concat] raises; one record that lacks a field, or that
    has the table read when an object lacks its subunits, makes the
    whole run raise. *)
Theorem whole_report_returns_iff_the_records_are_well_formed (w : world) (records : list record) :
  is_Some (create_qreport net self order w records corum_json panther_df).2 <->
  records <> [] /\ Forall readable records /\ Forall complete records /\
  Forall (corum_safe corum_json) records.
Proof.
  split.
  - intros [ddf Hddf].
    destruct (create_qreport net self order w records corum_json panther_df)
      as [w' o] eqn:Hrun. cbn [snd] in Hddf. subst o.
    apply ReportsFacts.whole_inv in Hrun as (dfs & Hrun & Hc).
    split; [|by eapply reports_well_formed].
    intros ->. injection Hrun as _ <-. done.
  - intros (Hne & Hread & Hcomp & Hsafe).
    destruct (ReportsFacts.reports_return net self corum_json panther_df records w
                Hread Hcomp Hsafe) as (w' & dfs & Hrun).
    unfold create_qreport. rewrite Hrun. cbn [snd mbind option_bind].
    apply ReportsFacts.concat_returns; [|by eapply ReportsFacts.reports_distinct].
    apply ReportsFacts.reports_length in Hrun. intros ->. by destruct records.
Qed.

End Run.

End FailureFacts.
